(** * AUTOOS execution core: orchestrator, agent manager, intelligence fabric

    A shallow embedding of
      - [autoos/core/models.py]                   (enums and records),
      - [autoos/orchestration/orchestrator.py]    (step retry, failure
        classification, state persistence),
      - [autoos/orchestration/agent_manager.py]   (spawn / retire, tool table),
      - [autoos/execution/intelligence_fabric.py] (provider scoreboard,
        fallback chain, cross verification),
    followed by the properties the specification states about them.

    Conventions of the embedding.
      - Python [float] values are read as exact rationals ([Q]); [0.01] is
        [1/100], [0.7] is [7/10].
      - Python [str] values are [string]s; [str.lower] acts on the ASCII
        letters.
      - An exception is represented by its message, [str(e)].
      - Redis, the event bus and the LLM backends are collaborators: their
        answers are read from an oracle, their visible effects are recorded
        in the state that the functions thread through. *)

From Stdlib Require Import ZArith QArith Qminmax Qpower Qabs Bool Ascii String
  DecimalString List Lia Lqa Sorting.Permutation Sorting.Sorted.
From stdpp Require Import base option list gmap strings.

Set Warnings "-register-all".

Local Open Scope Z_scope.
Local Open Scope string_scope.

(* ===================================================================== *)
(** * Part I: the program *)
(* ===================================================================== *)

(** ** Text helpers: [str.lower] and the [in] operator on strings *)

Module Text.

(** [c.lower()] for one ASCII character. *)
Definition lower_ascii (c : ascii) : ascii :=
  let n := nat_of_ascii c in
  if (65 <=? n)%nat && (n <=? 90)%nat then ascii_of_nat (n + 32) else c.

(** [s.lower()]. *)
Fixpoint lower (s : string) : string :=
  match s with
  | EmptyString => EmptyString
  | String c t => String (lower_ascii c) (lower t)
  end.

(** [hay.startswith(needle)]. *)
Fixpoint starts_with (needle hay : string) : bool :=
  match needle, hay with
  | EmptyString, _ => true
  | String _ _, EmptyString => false
  | String a n', String b h' => Ascii.eqb a b && starts_with n' h'
  end.

(** [needle in hay]: some suffix of [hay] starts with [needle]. *)
Fixpoint contains (needle hay : string) : bool :=
  starts_with needle hay ||
  match hay with
  | EmptyString => false
  | String _ h' => contains needle h'
  end.

(** The mathematical reading of [needle in hay]. *)
Definition Substring (needle hay : string) : Prop :=
  exists l r : string, hay = l ++ needle ++ r.

(** [any(m in hay for m in needles)]. *)
Definition contains_any (needles : list string) (hay : string) : bool :=
  existsb (fun m => contains m hay) needles.

(** [repr] of a string, which is what [str] of a [KeyError] and the
    [ValueError] of an [Enum] lookup show: the
    quote is the apostrophe unless the string has an apostrophe and no
    double quote; the quote, the backslash and the control characters
    are escaped.  Bytes above 127 stand for printable characters. *)
Definition apostrophe : ascii := ascii_of_nat 39.
Definition double_quote : ascii := ascii_of_nat 34.
Definition backslash : ascii := ascii_of_nat 92.

Definition hex_digit (n : nat) : ascii :=
  match String.get n "0123456789abcdef" with
  | Some c => c
  | None => "0"%char
  end.

Definition repr_char (quote c : ascii) : string :=
  let n := nat_of_ascii c in
  if Ascii.eqb c quote || Ascii.eqb c backslash
  then String backslash (String c "")
  else if (n =? 9)%nat then String backslash "t"
  else if (n =? 10)%nat then String backslash "n"
  else if (n =? 13)%nat then String backslash "r"
  else if (n <? 32)%nat || (n =? 127)%nat
  then String backslash
         (String "x" (String (hex_digit (n / 16))
                             (String (hex_digit (n mod 16)) "")))
  else String c "".

Definition repr_str (s : string) : string :=
  let quote :=
    if contains (String apostrophe "") s
       && negb (contains (String double_quote "") s)
    then double_quote else apostrophe in
  String quote
    (String.concat "" (map (repr_char quote) (list_ascii_of_string s))
     ++ String quote "").

End Text.

(** ** Values exchanged with the collaborators

    Dictionaries handed to [json.dumps] (Redis values, event payloads).
    [json.loads (json.dumps v)] is [v] on these trees, so the store keeps
    the tree itself. *)

Inductive json :=
  | JNull
  | JBool (b : bool)
  | JInt (z : Z)
  | JFloat (q : Q)
  | JStr (s : string)
  | JList (l : list json)
  | JDict (l : list (string * json)).

(** [d[k]] on a decoded JSON object: the first binding of [k]. *)
Fixpoint assoc_get (k : string) (l : list (string * json)) : option json :=
  match l with
  | [] => None
  | (k', v) :: l' => if String.eqb k k' then Some v else assoc_get k l'
  end.

Definition json_get (k : string) (d : json) : option json :=
  match d with
  | JDict l => assoc_get k l
  | _ => None
  end.

(** ** [autoos/core/models.py] *)

Module Models.

Inductive TrustLevel := RESTRICTED | STANDARD | ELEVATED | PRIVILEGED.

Inductive WorkflowState :=
  PENDING | RUNNING | PAUSED | COMPLETED | FAILED | CANCELLED.

Inductive AgentStatus :=
  INITIALIZING | READY | WORKING | WAITING | AGENT_FAILED | RETIRED.

Inductive LLMRole := PLANNER | EXECUTOR | VERIFIER | AUDITOR | SYNTHESIZER.

Inductive FailureType :=
  | TRANSIENT
  | MODEL_ERROR
  | TOOL_ERROR
  | RESOURCE_EXHAUSTION
  | POLICY_VIOLATION
  | TIMEOUT
  | UNKNOWN.

(** The [.value] of each enum member, and the enum constructor
    [TrustLevel(s)], [WorkflowState(s)] that raises [ValueError] (here
    [None]) on any other string. *)

Definition TrustLevel_value (t : TrustLevel) : string :=
  match t with
  | RESTRICTED => "restricted"
  | STANDARD => "standard"
  | ELEVATED => "elevated"
  | PRIVILEGED => "privileged"
  end.

Definition TrustLevel_of_value (s : string) : option TrustLevel :=
  if String.eqb s "restricted" then Some RESTRICTED
  else if String.eqb s "standard" then Some STANDARD
  else if String.eqb s "elevated" then Some ELEVATED
  else if String.eqb s "privileged" then Some PRIVILEGED
  else None.

Definition WorkflowState_value (s : WorkflowState) : string :=
  match s with
  | PENDING => "pending"
  | RUNNING => "running"
  | PAUSED => "paused"
  | COMPLETED => "completed"
  | FAILED => "failed"
  | CANCELLED => "cancelled"
  end.

Definition WorkflowState_of_value (s : string) : option WorkflowState :=
  if String.eqb s "pending" then Some PENDING
  else if String.eqb s "running" then Some RUNNING
  else if String.eqb s "paused" then Some PAUSED
  else if String.eqb s "completed" then Some COMPLETED
  else if String.eqb s "failed" then Some FAILED
  else if String.eqb s "cancelled" then Some CANCELLED
  else None.

Definition FailureType_value (f : FailureType) : string :=
  match f with
  | TRANSIENT => "transient"
  | MODEL_ERROR => "model_error"
  | TOOL_ERROR => "tool_error"
  | RESOURCE_EXHAUSTION => "resource_exhaustion"
  | POLICY_VIOLATION => "policy_violation"
  | TIMEOUT => "timeout"
  | UNKNOWN => "unknown"
  end.

#[global] Instance TrustLevel_eq_dec : EqDecision TrustLevel.
Proof. solve_decision. Defined.
#[global] Instance WorkflowState_eq_dec : EqDecision WorkflowState.
Proof. solve_decision. Defined.
#[global] Instance FailureType_eq_dec : EqDecision FailureType.
Proof. solve_decision. Defined.
#[global] Instance LLMRole_eq_dec : EqDecision LLMRole.
Proof. solve_decision. Defined.

(** Dataclasses.  Left out, because no function below reads them:
    [Agent.created_at] and [Agent.preferred_llm_roles],
    [FailureRecord.timestamp] and [FailureRecord.context],
    [TaskResult.latency].  [LLMResponse.timestamp] is kept: the dataclass
    equality of two responses compares it.  Where two dataclasses have a
    field of the same name, the later one is prefixed
    ([response_confidence], [response_cost], [provider_capabilities],
    [verification_confidence]). *)

Record RetryConfig := mkRetryConfig {
  max_attempts : Z;
  backoff_multiplier : Q;
  initial_delay_seconds : Q;
  max_delay_seconds : Q
}.

Definition default_RetryConfig : RetryConfig :=
  mkRetryConfig 3 2 1 60.

Record FallbackStrategy := mkFallbackStrategy {
  strategy_type : string;
  trigger_condition : string;
  alternative_approach : list (string * json)
}.

Record WorkflowStep := mkWorkflowStep {
  step_id : string;
  goal_id : string;
  required_capabilities : list string;
  dependencies : list string;
  retry_config : RetryConfig;
  fallback_strategy : FallbackStrategy;
  checkpoint : bool
}.

Record Workflow := mkWorkflow {
  workflow_id : string;
  steps : gmap string WorkflowStep;
  execution_order : list (list string);
  state : WorkflowState;
  metadata : list (string * json)
}.

Record FailureRecord := mkFailureRecord {
  failure_id : string;
  failure_type : string;
  error_message : string;
  recovery_action : string;
  recovery_success : bool
}.

Record Agent := mkAgent {
  agent_id : string;
  goal : string;
  capabilities : list string;
  allowed_tools : list string;
  trust_level : TrustLevel;
  memory_scope : string;
  confidence_threshold : Q;
  failure_history : list FailureRecord;
  status : AgentStatus
}.

Record TaskResult := mkTaskResult {
  success : bool;
  output : json;
  confidence : Q;
  reasoning : string;
  cost : Q;
  errors : list string
}.

Record LLMProvider := mkLLMProvider {
  provider_id : string;
  provider_name : string;
  model_name : string;
  api_endpoint : string;
  cost_per_token : Q;
  avg_latency : Q;
  reliability_score : Q;
  provider_capabilities : list string
}.

Record LLMResponse := mkLLMResponse {
  provider : LLMProvider;
  role : LLMRole;
  prompt : string;
  response : string;
  response_confidence : Q;
  tokens_used : Z;
  latency : Q;
  response_cost : Q;
  timestamp : string
}.

Record VerificationResult := mkVerificationResult {
  consensus : bool;
  selected_response : option LLMResponse;
  discrepancies : list string;
  verification_confidence : Q
}.

End Models.

(** ** Effects: a state monad with exceptions *)

Module Eff.

Inductive Result (A : Type) :=
  | Ok (a : A)
  | Raise (e : string).
Arguments Ok {A} a.
Arguments Raise {A} e.

Definition M (S A : Type) : Type := S -> Result A * S.

Definition ret {S A} (a : A) : M S A := fun s => (Ok a, s).

Definition raise {S A} (e : string) : M S A := fun s => (Raise e, s).

Definition bind {S A B} (m : M S A) (k : A -> M S B) : M S B :=
  fun s =>
    match m s with
    | (Ok a, s') => k a s'
    | (Raise e, s') => (Raise e, s')
    end.

(** [try: m  except Exception as e: h e].  The state changes made by [m]
    before it raised are kept, as mutations are in Python. *)
Definition try_except {S A} (m : M S A) (h : string -> M S A) : M S A :=
  fun s =>
    match m s with
    | (Ok a, s') => (Ok a, s')
    | (Raise e, s') => h e s'
    end.

Definition get {S} : M S S := fun s => (Ok s, s).

Definition modify {S} (f : S -> S) : M S unit := fun s => (Ok tt, f s).

End Eff.

Import Eff.

Declare Scope eff_scope.
Delimit Scope eff_scope with eff.
Notation "x <- m ;; k" := (bind m (fun x => k))
  (at level 100, m at next level, right associativity) : eff_scope.
Notation "m ;;; k" := (bind m (fun _ => k))
  (at level 100, right associativity) : eff_scope.

(** ** The collaborators: Redis, the event bus, the clock

    Every call that reaches Redis ([setex], [get], [delete], [xadd])
    consumes the head of [faults]: [None] lets the call through, [Some msg]
    makes it raise [RedisError(msg)].  An exhausted script lets every
    further call through. *)

Inductive Effect :=
  | Published (event_type : string) (payload : json)
  | Slept (seconds : Q).

Record World := mkWorld {
  faults : list (option string);
  kv : gmap string json;
  trace : list Effect;
  clock : string
}.

Module Collab.

(** Outcome of the next Redis round trip. *)
Definition redis_call : M World unit :=
  fun w =>
    match faults w with
    | [] => (Ok tt, w)
    | None :: fs =>
        (Ok tt, mkWorld fs (kv w) (trace w) (clock w))
    | Some msg :: fs =>
        (Raise msg, mkWorld fs (kv w) (trace w) (clock w))
    end.

(** [EventBus.publish]: one [xadd]; the event is in the stream only when
    the call went through. *)
Definition publish (event_type : string) (payload : json) : M World unit :=
  (redis_call ;;;
   modify (fun w =>
     mkWorld (faults w) (kv w) (trace w ++ [Published event_type payload])
             (clock w)))%eff.

(** [time.sleep(seconds)].  The length is first converted to a signed
    64-bit count of nanoseconds, which is an [OverflowError] when it does
    not fit; a negative length is a [ValueError] (the messages are those
    of Python 3.11). *)
Definition sleep_limit : Q := inject_Z (2 ^ 63) / inject_Z (10 ^ 9).

Definition sleep (seconds : Q) : M World unit :=
  if Qle_bool sleep_limit seconds
     || negb (Qle_bool (- sleep_limit) seconds)
  then raise "timestamp too large to convert to C _PyTime_t"
  else if Qle_bool 0 seconds then
    modify (fun w =>
      mkWorld (faults w) (kv w) (trace w ++ [Slept seconds]) (clock w))
  else raise "sleep length must be non-negative".

(** [datetime.utcnow().isoformat()]. *)
Definition utcnow_isoformat : M World string :=
  fun w => (Ok (clock w), w).

(** [WorkingMemory._workflow_key] and [WorkingMemory._agent_key]. *)
Definition _workflow_key (workflow_id : string) : string :=
  "autoos:workflow:" ++ workflow_id.

Definition _agent_key (agent_id : string) : string :=
  "autoos:agent:" ++ agent_id.

(** [redis_client.setex(key, ttl, json.dumps(value))]; the expiry is
    outside the model: reads happen within the time to live. *)
Definition setex (key : string) (value : json) : M World unit :=
  (redis_call ;;;
   modify (fun w =>
     mkWorld (faults w) (<[key := value]> (kv w)) (trace w) (clock w)))%eff.

(** [redis_client.get(key)] followed by [json.loads] when the reply is
    truthy. *)
Definition getkey (key : string) : M World (option json) :=
  (redis_call ;;;
   w <- get ;;
   ret (kv w !! key))%eff.

(** [redis_client.delete(key)]. *)
Definition delkey (key : string) : M World unit :=
  (redis_call ;;;
   modify (fun w =>
     mkWorld (faults w) (delete key (kv w)) (trace w) (clock w)))%eff.

Definition store_workflow_state (workflow_id : string) (state : json)
  : M World unit :=
  setex (_workflow_key workflow_id) state.

Definition get_workflow_state (workflow_id : string) : M World (option json) :=
  getkey (_workflow_key workflow_id).

Definition store_agent_memory (agent_id : string) (memory : json)
  : M World unit :=
  setex (_agent_key agent_id) memory.

Definition get_agent_memory (agent_id : string) : M World (option json) :=
  getkey (_agent_key agent_id).

Definition clear_agent_memory (agent_id : string) : M World unit :=
  delkey (_agent_key agent_id).

End Collab.

(** ** [autoos/orchestration/orchestrator.py] *)

Module Orchestrator.

Import Text Models Collab.

Record RecoveryAction := mkRecoveryAction {
  action_type : string;
  details : list (string * json)
}.

(** *** [Orchestrator.execute_step] *)

(** The delay computed before a retry, when the power is within the
    range of floats:
    [min(initial_delay_seconds * backoff_multiplier ** retry_count,
         max_delay_seconds)]. *)
Definition backoff_delay (cfg : RetryConfig) (retry_count : Z) : Q :=
  Qmin (initial_delay_seconds cfg * backoff_multiplier cfg ^ retry_count)
       (max_delay_seconds cfg).

Definition step_event (step : WorkflowStep) (agent : Agent) : json :=
  JDict [("step_id", JStr (step_id step)); ("agent_id", JStr (agent_id agent))].

(** The [TaskResult] built inside the inner [try]. *)
Definition step_succeeded (step : WorkflowStep) : TaskResult :=
  {| success := true;
     output := JDict [("step_id", JStr (step_id step));
                      ("status", JStr "completed")];
     confidence := 85 # 100;
     reasoning := "Step executed successfully";
     cost := 1 # 100;
     errors := [] |}.

(** The [TaskResult] built by the outer [except]. *)
Definition step_failed (e : string) : TaskResult :=
  {| success := false;
     output := JNull;
     confidence := 0;
     reasoning := "Step execution failed";
     cost := 0;
     errors := [e] |}.

(** [raise last_error]; raising [None] is itself a [TypeError]. *)
Definition raise_last {A} (last_error : option string) : M World A :=
  match last_error with
  | Some e => raise e
  | None => raise "exceptions must derive from BaseException"
  end.

(** [backoff_multiplier ** retry_count] is a power of floats: when the
    result leaves their range it is an [OverflowError] (with the text of
    the C library on Linux), which, raised inside the handler of the
    attempt, ends the loop.  The range ends where rounding to the nearest
    float gives infinity. *)
Definition float_limit : Q := inject_Z (2 ^ 1024 - 2 ^ 970).

Definition float_pow_in_range (x : Q) (k : Z) : M World unit :=
  if Qle_bool float_limit (Qabs (x ^ k))
  then raise "(34, 'Numerical result out of range')"
  else ret tt.

(** The [while retry_count < max_attempts] loop.  [remaining] counts the
    iterations the loop test still admits, [max_attempts - retry_count];
    one iteration is the inner [try] (build the result, publish
    [workflow.step_completed], return) and its [except] (record the error,
    count it, compute the delay and sleep when another attempt
    follows). *)
Fixpoint retry_loop (step : WorkflowStep) (agent : Agent) (remaining : nat)
    (retry_count : Z) (last_error : option string) : M World TaskResult :=
  match remaining with
  | O => raise_last last_error
  | S remaining' =>
      try_except
        (publish "workflow.step_completed" (step_event step agent) ;;;
         ret (step_succeeded step))%eff
        (fun e =>
           let retry_count' := retry_count + 1 in
           ((if (retry_count' <? max_attempts (retry_config step))%Z
             then
               float_pow_in_range (backoff_multiplier (retry_config step))
                                  retry_count' ;;;
               sleep (backoff_delay (retry_config step) retry_count')
             else ret tt) ;;;
            retry_loop step agent remaining' retry_count' (Some e))%eff)
  end.

Definition execute_step (step : WorkflowStep) (agent : Agent)
  : M World TaskResult :=
  (publish "workflow.step_started" (step_event step agent) ;;;
   try_except
     (retry_loop step agent (Z.to_nat (max_attempts (retry_config step)))
                 0 None)
     (fun e =>
        publish "workflow.step_failed"
          (JDict [("step_id", JStr (step_id step));
                  ("agent_id", JStr (agent_id agent));
                  ("error", JStr e)]) ;;;
        ret (step_failed e)))%eff.

(** *** [Orchestrator._classify_failure] and [Orchestrator.handle_failure] *)

Definition _classify_failure (error : string) : FailureType :=
  let error_str := lower error in
  if contains "timeout" error_str then TIMEOUT
  else if contains "rate limit" error_str || contains "quota" error_str
  then RESOURCE_EXHAUSTION
  else if contains "policy" error_str || contains "unauthorized" error_str
  then POLICY_VIOLATION
  else if contains "model" error_str || contains "llm" error_str
  then MODEL_ERROR
  else if contains "tool" error_str then TOOL_ERROR
  else UNKNOWN.

(** The [if / elif / else] ladder that closes [handle_failure]. *)
Definition recovery_for (step : WorkflowStep) (failure_type : FailureType)
    (error : string) : RecoveryAction :=
  if decide (failure_type = TRANSIENT) then
    mkRecoveryAction "retry" [("step_id", JStr (step_id step))]
  else if decide (failure_type = MODEL_ERROR) then
    mkRecoveryAction "llm_swap" [("step_id", JStr (step_id step))]
  else if decide (failure_type = TOOL_ERROR) then
    mkRecoveryAction "agent_swap" [("step_id", JStr (step_id step))]
  else
    mkRecoveryAction "escalate"
      [("step_id", JStr (step_id step)); ("error", JStr error)].

Definition handle_failure (step : WorkflowStep) (error : string)
  : M World RecoveryAction :=
  let failure_type := _classify_failure error in
  (publish "workflow.recovery_triggered"
     (JDict [("step_id", JStr (step_id step));
             ("failure_type", JStr (FailureType_value failure_type))]) ;;;
   ret (recovery_for step failure_type error))%eff.

(** *** [Orchestrator.persist_state] and [Orchestrator.restore_state] *)

(** [WorkflowStep.to_dict], that is [dataclasses.asdict]. *)
Definition RetryConfig_to_dict (c : RetryConfig) : json :=
  JDict [("max_attempts", JInt (max_attempts c));
         ("backoff_multiplier", JFloat (backoff_multiplier c));
         ("initial_delay_seconds", JFloat (initial_delay_seconds c));
         ("max_delay_seconds", JFloat (max_delay_seconds c))].

Definition FallbackStrategy_to_dict (f : FallbackStrategy) : json :=
  JDict [("strategy_type", JStr (strategy_type f));
         ("trigger_condition", JStr (trigger_condition f));
         ("alternative_approach", JDict (alternative_approach f))].

Definition WorkflowStep_to_dict (s : WorkflowStep) : json :=
  JDict [("step_id", JStr (step_id s));
         ("goal_id", JStr (goal_id s));
         ("required_capabilities", JList (map JStr (required_capabilities s)));
         ("dependencies", JList (map JStr (dependencies s)));
         ("retry_config", RetryConfig_to_dict (retry_config s));
         ("fallback_strategy", FallbackStrategy_to_dict (fallback_strategy s));
         ("checkpoint", JBool (checkpoint s))].

Definition execution_order_to_json (eo : list (list string)) : json :=
  JList (map (fun group => JList (map JStr group)) eo).

Definition persist_state (workflow : Workflow) : M World unit :=
  (timestamp <- utcnow_isoformat ;;
   let state :=
     JDict [("workflow_id", JStr (workflow_id workflow));
            ("state", JStr (WorkflowState_value (state workflow)));
            ("steps",
             JDict (map (fun kv => (kv.1, WorkflowStep_to_dict kv.2))
                        (map_to_list (steps workflow))));
            ("execution_order",
             execution_order_to_json (execution_order workflow));
            ("metadata", JDict (metadata workflow));
            ("timestamp", JStr timestamp)] in
   store_workflow_state (workflow_id workflow) state)%eff.

(** Reading the decoded dictionary back.  [state[k]] raises [KeyError]
    on a missing key; the typed fields of [Workflow] are read through
    the decoders below, which accept exactly what [persist_state]
    writes. *)
Definition subscript (d : json) (k : string) : M World json :=
  match json_get k d with
  | Some v => ret v
  | None => raise (repr_str k)
  end.

Definition as_str (v : json) : option string :=
  match v with JStr s => Some s | _ => None end.

Definition as_execution_order (v : json) : option (list (list string)) :=
  match v with
  | JList groups =>
      mapM (fun g => match g with
                     | JList ids => mapM as_str ids
                     | _ => None
                     end) groups
  | _ => None
  end.

Definition as_dict (v : json) : option (list (string * json)) :=
  match v with JDict l => Some l | _ => None end.

Definition expect {A} (o : option A) (msg : string) : M World A :=
  match o with
  | Some a => ret a
  | None => raise msg
  end.

(** Truth value of a decoded JSON value ([if state:]). *)
Definition truthy (v : json) : bool :=
  match v with
  | JNull => false
  | JBool b => b
  | JInt z => negb (z =? 0)%Z
  | JFloat q => negb (Qeq_bool q 0)
  | JStr s => negb (String.eqb s "")
  | JList l => match l with [] => false | _ => true end
  | JDict l => match l with [] => false | _ => true end
  end.

(** [restore_state] rebuilds the workflow from four of the stored keys;
    [steps] is not passed to the constructor and takes its default, the
    empty dictionary. *)
Definition restore_state (workflow_id : string) : M World (option Workflow) :=
  (stored <- get_workflow_state workflow_id ;;
   match stored with
   | Some st =>
       if truthy st then
         v_id <- subscript st "workflow_id" ;;
         v_state <- subscript st "state" ;;
         v_order <- subscript st "execution_order" ;;
         v_meta <- subscript st "metadata" ;;
         id <- expect (as_str v_id) "workflow_id is not a string" ;;
         s <- expect (as_str v_state ≫= WorkflowState_of_value)
                     "not a valid WorkflowState" ;;
         order <- expect (as_execution_order v_order)
                         "execution_order is not a list of lists" ;;
         meta <- expect (as_dict v_meta) "metadata is not a dict" ;;
         ret (Some (mkWorkflow id ∅ order s meta))
       else ret None
   | None => ret None
   end)%eff.

End Orchestrator.

(** ** [autoos/orchestration/agent_manager.py] *)

Module AgentManager.

Import Text Models Collab.

(** The manager: its ceiling, its dictionary of active agents, and the
    collaborators it was built with. *)
Record Manager := mkManager {
  max_concurrent_agents : Z;
  active_agents : gmap string Agent;
  world : World
}.

(** Run a collaborator call inside the manager. *)
Definition in_world {A} (m : M World A) : M Manager A :=
  fun s =>
    let '(r, w) := m (world s) in
    (r, mkManager (max_concurrent_agents s) (active_agents s) w).

Definition set_active (f : gmap string Agent -> gmap string Agent)
  : M Manager unit :=
  modify (fun s =>
    mkManager (max_concurrent_agents s) (f (active_agents s)) (world s)).

(** [str(n)] for an integer. *)
Definition str_of_int (n : Z) : string := NilZero.string_of_int (Z.to_int n).

(** [AgentManager._get_allowed_tools]: the table, then
    [tool_permissions.get(trust_level, [])]. *)
Definition tool_permissions : list (TrustLevel * list string) :=
  [ (RESTRICTED, ["read_file"; "list_directory"]);
    (STANDARD, ["read_file"; "list_directory"; "write_file"; "http_request"]);
    (ELEVATED, ["read_file"; "list_directory"; "write_file"; "http_request";
                "execute_command"]);
    (PRIVILEGED, ["all"]) ].

Fixpoint table_get (t : TrustLevel) (table : list (TrustLevel * list string))
    (default : list string) : list string :=
  match table with
  | [] => default
  | (t', tools) :: rest =>
      if decide (t = t') then tools else table_get t rest default
  end.

Definition _get_allowed_tools (trust_level : TrustLevel) : list string :=
  table_get trust_level tool_permissions [].

(** The membership test of [ToolExecutor.check_authorization] and of the
    tool selection in [agent_worker.py]:
    ["all" in agent.allowed_tools or tool_name in agent.allowed_tools]. *)
Definition tool_permitted (allowed : list string) (tool_name : string) : bool :=
  bool_decide ("all" ∈ allowed) || bool_decide (tool_name ∈ allowed).

(** The order of the trust levels, as the numbers of
    [ToolExecutor.check_authorization]. *)
Definition trust_rank (t : TrustLevel) : Z :=
  match t with
  | RESTRICTED => 1
  | STANDARD => 2
  | ELEVATED => 3
  | PRIVILEGED => 4
  end.

Definition set_status (st : AgentStatus) (a : Agent) : Agent :=
  mkAgent (agent_id a) (goal a) (capabilities a) (allowed_tools a)
          (trust_level a) (memory_scope a) (confidence_threshold a)
          (failure_history a) st.

(** [AgentManager.spawn_agent].  [fresh_id] is the value drawn by
    [str(uuid.uuid4())].  The agent object is shared between the
    dictionary and the caller, so [agent.status = READY] is an update of
    the dictionary entry. *)
Definition spawn_agent (capabilities : list string) (trust_level : string)
    (goal : string) (workflow_id : option string) (fresh_id : string)
  : M Manager Agent :=
  (s <- get ;;
   if (Z.of_nat (size (active_agents s)) >=? max_concurrent_agents s)%Z then
     raise ("Maximum concurrent agents ("
            ++ str_of_int (max_concurrent_agents s) ++ ") reached")
   else
     match TrustLevel_of_value trust_level with
     | None => raise (repr_str trust_level ++ " is not a valid TrustLevel")
     | Some level =>
         let scope :=
           match workflow_id with
           | Some wid => if String.eqb wid "" then "session" else "workflow"
           | None => "session"
           end in
         let agent :=
           mkAgent fresh_id goal capabilities (_get_allowed_tools level)
                   level scope (75 # 100) [] INITIALIZING in
         set_active (insert fresh_id agent) ;;;
         created_at <- in_world utcnow_isoformat ;;
         in_world (store_agent_memory fresh_id
           (JDict [("goal", JStr goal);
                   ("capabilities", JList (map JStr capabilities));
                   ("trust_level", JStr trust_level);
                   ("created_at", JStr created_at)])) ;;;
         set_active (alter (set_status READY) fresh_id) ;;;
         in_world (publish "agent.spawned"
           (JDict [("agent_id", JStr fresh_id);
                   ("capabilities", JList (map JStr capabilities));
                   ("trust_level", JStr trust_level);
                   ("workflow_id",
                    match workflow_id with
                    | Some wid => JStr wid
                    | None => JNull
                    end)])) ;;;
         ret (set_status READY agent)
     end)%eff.

(** [AgentManager.retire_agent]. *)
Definition retire_agent (agent_id : string) (reason : string)
  : M Manager unit :=
  (s <- get ;;
   match active_agents s !! agent_id with
   | None => ret tt
   | Some _ =>
       set_active (alter (set_status RETIRED) agent_id) ;;;
       in_world (get_agent_memory agent_id) ;;;
       in_world (clear_agent_memory agent_id) ;;;
       set_active (delete agent_id) ;;;
       in_world (publish "agent.retired"
         (JDict [("agent_id", JStr agent_id); ("reason", JStr reason)]))
   end)%eff.

(** [AgentManager.get_active_agent_count]. *)
Definition get_active_agent_count (s : Manager) : Z :=
  Z.of_nat (size (active_agents s)).

(** [AgentManager.__init__]. *)
Definition init (w : World) (max_concurrent_agents : Z) : Manager :=
  mkManager max_concurrent_agents ∅ w.

End AgentManager.

(** ** [difflib.SequenceMatcher(None, a, b).ratio()]

    The similarity measure of the Python standard library, as
    [cross_verify] calls it: no junk predicate, [autojunk] on.  Sequences
    are lists of characters, positions are counted from 0. *)

Module Difflib.

Definition chars (s : string) : list ascii := list_ascii_of_string s.

Definition count_occ_ascii (c : ascii) (l : list ascii) : nat :=
  length (filter (fun x => Ascii.eqb x c) l).

(** [__chain_b]: with [len(b) >= 200], an element that occurs more than
    [len(b) // 100 + 1] times is popular and is dropped from [b2j]. *)
Definition popular (b : list ascii) (c : ascii) : bool :=
  (200 <=? length b)%nat &&
  (length b / 100 + 1 <? count_occ_ascii c b)%nat.

Definition nth_char (l : list ascii) (i : nat) : ascii :=
  nth i l Ascii.zero.

(** One row of the main loop of [find_longest_match].  [j2len] is the
    dictionary of the previous row as a function (absent keys read 0).
    [js] lists the positions [blo <= j < bhi] in increasing order; those
    with [b[j] == a[i]] and [b[j]] not popular are the ones [b2j[a[i]]]
    yields, and the best block is replaced on a strict improvement. *)
Fixpoint row (a b : list ascii) (i : nat) (j2len : nat -> nat)
    (js : list nat) (best : nat * nat * nat)
  : (nat -> nat) * (nat * nat * nat) :=
  match js with
  | [] => (fun _ => 0%nat, best)
  | j :: js' =>
      if Ascii.eqb (nth_char b j) (nth_char a i)
         && negb (popular b (nth_char b j)) then
        let k := S (match j with O => 0%nat | S j' => j2len j' end) in
        let best' :=
          if (best.2 <? k)%nat
          then ((i + 1 - k)%nat, (j + 1 - k)%nat, k)
          else best in
        let '(rest, best'') := row a b i j2len js' best' in
        (fun x => if Nat.eqb x j then k else rest x, best'')
      else row a b i j2len js' best
  end.

Fixpoint rows (a b : list ascii) (positions : list nat) (blo bhi : nat)
    (j2len : nat -> nat) (best : nat * nat * nat) : nat * nat * nat :=
  match positions with
  | [] => best
  | i :: positions' =>
      let '(newj2len, best') :=
        row a b i j2len (seq blo (bhi - blo)) best in
      rows a b positions' blo bhi newj2len best'
  end.

(** The first extension loop: grow the block downwards while the
    elements just before it agree. *)
Fixpoint extend_down (a b : list ascii) (alo blo : nat) (fuel : nat)
    (best : nat * nat * nat) : nat * nat * nat :=
  match fuel with
  | O => best
  | S fuel' =>
      let '(besti, bestj, bestsize) := best in
      if (alo <? besti)%nat && (blo <? bestj)%nat
         && Ascii.eqb (nth_char a (besti - 1)) (nth_char b (bestj - 1))
      then extend_down a b alo blo fuel'
             ((besti - 1)%nat, (bestj - 1)%nat, S bestsize)
      else best
  end.

(** The second extension loop: grow the block upwards. *)
Fixpoint extend_up (a b : list ascii) (ahi bhi : nat) (fuel : nat)
    (best : nat * nat * nat) : nat * nat * nat :=
  match fuel with
  | O => best
  | S fuel' =>
      let '(besti, bestj, bestsize) := best in
      if (besti + bestsize <? ahi)%nat && (bestj + bestsize <? bhi)%nat
         && Ascii.eqb (nth_char a (besti + bestsize))
                      (nth_char b (bestj + bestsize))
      then extend_up a b ahi bhi fuel' (besti, bestj, S bestsize)
      else best
  end.

(** [find_longest_match(alo, ahi, blo, bhi)].  Each extension loop runs
    at most [ahi - alo] times, which is the fuel it is given. *)
Definition find_longest_match (a b : list ascii) (alo ahi blo bhi : nat)
  : nat * nat * nat :=
  let best := rows a b (seq alo (ahi - alo)) blo bhi (fun _ => 0%nat)
                   (alo, blo, 0%nat) in
  let best := extend_down a b alo blo (ahi - alo) best in
  extend_up a b ahi bhi (ahi - alo) best.

(** The sum of the sizes of the blocks found by [get_matching_blocks]:
    the longest match of the window, then the windows on its left and on
    its right.  A window handed on is strictly shorter in [a], so
    [fuel = len(a) + 1] is never exhausted. *)
Fixpoint matches (a b : list ascii) (fuel : nat) (alo ahi blo bhi : nat)
  : nat :=
  match fuel with
  | O => 0%nat
  | S fuel' =>
      let '(i, j, k) := find_longest_match a b alo ahi blo bhi in
      match k with
      | O => 0%nat
      | S _ =>
          (k
           + (if (alo <? i)%nat && (blo <? j)%nat
              then matches a b fuel' alo i blo j else 0)
           + (if (i + k <? ahi)%nat && (j + k <? bhi)%nat
              then matches a b fuel' (i + k) ahi (j + k) bhi else 0))%nat
      end
  end.

(** [_calculate_ratio(matches, length)]. *)
Definition _calculate_ratio (m : nat) (length : nat) : Q :=
  match length with
  | O => 1
  | S _ => (2 * inject_Z (Z.of_nat m)) / inject_Z (Z.of_nat length)
  end.

Definition ratio (x y : string) : Q :=
  let a := chars x in
  let b := chars y in
  _calculate_ratio
    (matches a b (S (length a)) 0 (length a) 0 (length b))
    (length a + length b).

End Difflib.

(** ** [autoos/execution/intelligence_fabric.py] *)

Module Fabric.

Import Text Models.

Record Task := mkTask {
  task_id : string;
  description : string;
  task_prompt : string;
  context : list (string * json);
  critical : bool
}.

(** What one call of a backend ([BaseLLMProvider.call]) comes back with:
    the text, token count, measured latency and creation time of the
    response, or an exception. *)
Inductive Outcome :=
  | Reply (text : string) (tokens : Z) (seconds : Q) (created : string)
  | Failure (msg : string).

(** The fabric: API keys, the registry's provider dictionary in insertion
    order, the keys that already have a provider instance, the backends
    (by provider key and prompt) and the log of backend calls made. *)
Record Fabric := mkFabric {
  api_keys : gmap string string;
  providers : list (string * LLMProvider);
  provider_instances : gset string;
  backend : string -> string -> Outcome;
  backend_calls : list string
}.

(** The dictionary key [f"{provider_name}:{model_name}"]. *)
Definition provider_key (p : LLMProvider) : string :=
  provider_name p ++ ":" ++ model_name p.

(** [d[k] = v] on an insertion-ordered dictionary. *)
Fixpoint dict_set {V} (k : string) (v : V) (d : list (string * V))
  : list (string * V) :=
  match d with
  | [] => [(k, v)]
  | (k', v') :: d' =>
      if String.eqb k k' then (k, v) :: d' else (k', v') :: dict_set k v d'
  end.

Fixpoint dict_get {V} (k : string) (d : list (string * V)) : option V :=
  match d with
  | [] => None
  | (k', v') :: d' => if String.eqb k k' then Some v' else dict_get k d'
  end.

(** In-place mutation of the object stored under [k]. *)
Fixpoint dict_alter {V} (f : V -> V) (k : string) (d : list (string * V))
  : list (string * V) :=
  match d with
  | [] => []
  | (k', v') :: d' =>
      if String.eqb k k' then (k', f v') :: d'
      else (k', v') :: dict_alter f k d'
  end.

(** [ModelCapabilityRegistry.register_provider]. *)
Definition register_provider (p : LLMProvider) (fb : Fabric) : Fabric :=
  mkFabric (api_keys fb) (dict_set (provider_key p) p (providers fb))
           (provider_instances fb) (backend fb) (backend_calls fb).

(** *** [ModelCapabilityRegistry.update_performance] *)

Definition update_performance (p : LLMProvider) (latency : Q) (success : bool)
  : LLMProvider :=
  let avg_latency' := (avg_latency p * (9 # 10) + latency * (1 # 10))%Q in
  let reliability' :=
    if success then Qmin 1 (reliability_score p + (1 # 100))%Q
    else Qmax 0 (reliability_score p - (5 # 100))%Q in
  mkLLMProvider (provider_id p) (provider_name p) (model_name p)
                (api_endpoint p) (cost_per_token p) avg_latency'
                reliability' (provider_capabilities p).

(** *** [ModelCapabilityRegistry.get_providers_by_role] *)

Definition role_preferences (r : LLMRole) : list string :=
  match r with
  | PLANNER => ["gpt-4"; "claude-3-opus"]
  | EXECUTOR => ["gpt-3.5-turbo"; "claude-3-haiku"]
  | VERIFIER => ["claude-3-opus"; "gpt-4"]
  | AUDITOR => ["gpt-4"; "claude-3-sonnet"]
  | SYNTHESIZER => ["claude-3-opus"; "gpt-4"]
  end.

(** The sort key [(-reliability_score, cost_per_token, avg_latency)] and
    the order of these tuples. *)
Definition sort_key (p : LLMProvider) : Q * Q * Q :=
  ((- reliability_score p)%Q, cost_per_token p, avg_latency p).

Definition Qlt_bool (x y : Q) : bool :=
  match (x ?= y)%Q with Lt => true | _ => false end.

Definition key_lt (x y : Q * Q * Q) : bool :=
  let '(x1, x2, x3) := x in
  let '(y1, y2, y3) := y in
  Qlt_bool x1 y1
  || (Qeq_bool x1 y1
      && (Qlt_bool x2 y2 || (Qeq_bool x2 y2 && Qlt_bool x3 y3))).

(** [list.sort(key=...)] is stable: an element goes after the elements
    that do not compare greater than it. *)
Fixpoint insert_by_key (p : LLMProvider) (sorted : list LLMProvider)
  : list LLMProvider :=
  match sorted with
  | [] => [p]
  | q :: rest =>
      if key_lt (sort_key p) (sort_key q) then p :: q :: rest
      else q :: insert_by_key p rest
  end.

Definition sort_by_key (ps : list LLMProvider) : list LLMProvider :=
  fold_left (fun sorted p => insert_by_key p sorted) ps [].

Definition get_providers_by_role (r : LLMRole) (fb : Fabric)
  : list LLMProvider :=
  let preferred_models := role_preferences r in
  let suitable_providers :=
    filter (fun p => existsb (fun m => contains m (model_name p))
                             preferred_models)
           (map snd (providers fb)) in
  sort_by_key suitable_providers.

(** *** [BaseLLMProvider._calculate_confidence] and the provider call *)

Definition uncertainty_markers : list string :=
  ["i'm not sure"; "i don't know"; "maybe"; "perhaps"; "possibly"; "unclear"].

Definition _calculate_confidence (response_text : string) : Q :=
  let c0 := (8 # 10)%Q in
  let c1 := if (String.length response_text <? 50)%nat
            then (c0 - (1 # 10))%Q else c0 in
  let c2 := if contains_any uncertainty_markers (lower response_text)
            then (c1 - (2 # 10))%Q else c1 in
  let c3 := if (500 <? String.length response_text)%nat
            then (c2 + (1 # 10))%Q else c2 in
  Qmax 0 (Qmin 1 c3).

(** [LLMProviderFactory.create]: the supported vendors. *)
Definition supported_provider (name : string) : bool :=
  bool_decide (lower name ∈ ["openai"; "anthropic"; "google"]).

(** *** [IntelligenceFabric.call_llm] *)

Definition alter_provider (key : string) (f : LLMProvider -> LLMProvider)
  : M Fabric unit :=
  modify (fun fb =>
    mkFabric (api_keys fb) (dict_alter f key (providers fb))
             (provider_instances fb) (backend fb) (backend_calls fb)).

(** The provider object is shared between the registry and the list
    that [get_providers_by_role] returns: [update_performance] on the
    argument is an update of the registry entry under the same key, and
    the [provider] field of the response is that same object. *)
Definition call_llm (provider : LLMProvider) (prompt : string) (role : LLMRole)
  : M Fabric LLMResponse :=
  let key := provider_key provider in
  (fb <- get ;;
   (if bool_decide (key ∈ provider_instances fb) then ret tt
    else
      match api_keys fb !! provider_name provider with
      | None =>
          raise ("No API key for provider " ++ provider_name provider)
      | Some api_key =>
          if String.eqb api_key "" then
            raise ("No API key for provider " ++ provider_name provider)
          else if supported_provider (provider_name provider) then
            modify (fun fb =>
              mkFabric (api_keys fb) (providers fb)
                       ({[key]} ∪ provider_instances fb) (backend fb)
                       (backend_calls fb))
          else raise ("Unsupported provider: " ++ provider_name provider)
      end) ;;;
   modify (fun fb =>
     mkFabric (api_keys fb) (providers fb) (provider_instances fb)
              (backend fb) (backend_calls fb ++ [key])) ;;;
   match backend fb key prompt with
   | Reply text tokens seconds created =>
       alter_provider key (fun p => update_performance p seconds true) ;;;
       ret (mkLLMResponse (update_performance provider seconds true)
              role prompt text (_calculate_confidence text) tokens seconds
              (inject_Z tokens * cost_per_token provider)%Q created)
   | Failure msg =>
       alter_provider key (fun p => update_performance p 0 false) ;;;
       raise msg
   end)%eff.

(** *** [IntelligenceFabric.execute_with_fallback] *)

(** [str(last_error)] inside the final f-string. *)
Definition str_of_error (last_error : option string) : string :=
  match last_error with
  | Some e => e
  | None => "None"
  end.

Fixpoint fallback_loop (ps : list LLMProvider) (prompt : string)
    (role : LLMRole) (last_error : option string) : M Fabric LLMResponse :=
  match ps with
  | [] => raise ("All LLM providers failed: " ++ str_of_error last_error)
  | p :: ps' =>
      try_except (call_llm p prompt role)
                 (fun e => fallback_loop ps' prompt role (Some e))
  end.

Definition execute_with_fallback (task : Task) (role : LLMRole)
  : M Fabric LLMResponse :=
  (fb <- get ;;
   fallback_loop (get_providers_by_role role fb) (task_prompt task) role
                 None)%eff.

(** *** [IntelligenceFabric.__init__] and [_initialize_providers] *)

(** The four default providers; [ids] are the [provider_id]s drawn by
    [uuid.uuid4()], the other fields take the dataclass defaults
    ([avg_latency = 0.0], [reliability_score = 1.0]). *)
Definition default_providers (ids : string * string * string * string)
  : list LLMProvider :=
  let '(id1, id2, id3, id4) := ids in
  [ mkLLMProvider id1 "openai" "gpt-4" "https://api.openai.com/v1"
      (3 # 100000) 0 1 ["reasoning"; "planning"; "analysis"];
    mkLLMProvider id2 "openai" "gpt-3.5-turbo" "https://api.openai.com/v1"
      (2 # 1000000) 0 1 ["execution"; "fast_tasks"];
    mkLLMProvider id3 "anthropic" "claude-3-opus-20240229"
      "https://api.anthropic.com/v1"
      (15 # 1000000) 0 1 ["reasoning"; "verification"; "synthesis"];
    mkLLMProvider id4 "anthropic" "claude-3-haiku-20240307"
      "https://api.anthropic.com/v1"
      (25 # 100000000) 0 1 ["fast_tasks"; "execution"] ].

Definition init (api_keys : gmap string string)
    (ids : string * string * string * string)
    (backend : string -> string -> Outcome) : Fabric :=
  fold_left (fun fb p => register_provider p fb) (default_providers ids)
            (mkFabric api_keys [] ∅ backend []).

(** *** [IntelligenceFabric.cross_verify] *)

(** [format(x, ".2f")] for a rational [x]: two decimals, ties to even. *)
Definition round_half_even (q : Q) : Z :=
  let n := Qnum q in
  let d := Z.pos (Qden q) in
  let f := (n / d)%Z in
  let r := (n mod d)%Z in
  match (2 * r ?= d)%Z with
  | Lt => f
  | Gt => (f + 1)%Z
  | Eq => if Z.even f then f else (f + 1)%Z
  end.

Definition two_digits (n : Z) : string :=
  (if (n <? 10)%Z then "0" else "") ++ NilZero.string_of_int (Z.to_int n).

Definition format_2f (q : Q) : string :=
  let h := round_half_even (Qabs q * 100)%Q in
  (if Qlt_bool q 0 then "-" else "")
  ++ NilZero.string_of_int (Z.to_int (h / 100)%Z) ++ "."
  ++ two_digits (h mod 100)%Z.

(** Dataclass equality ([==] on the tuples of fields). *)
Definition list_eqb {A} (eqb : A -> A -> bool) (l1 l2 : list A) : bool :=
  (length l1 =? length l2)%nat
  && forallb (fun xy => eqb xy.1 xy.2) (combine l1 l2).

Definition LLMProvider_eqb (p q : LLMProvider) : bool :=
  String.eqb (provider_id p) (provider_id q)
  && String.eqb (provider_name p) (provider_name q)
  && String.eqb (model_name p) (model_name q)
  && String.eqb (api_endpoint p) (api_endpoint q)
  && Qeq_bool (cost_per_token p) (cost_per_token q)
  && Qeq_bool (avg_latency p) (avg_latency q)
  && Qeq_bool (reliability_score p) (reliability_score q)
  && list_eqb String.eqb (provider_capabilities p) (provider_capabilities q).

Definition LLMResponse_eqb (x y : LLMResponse) : bool :=
  LLMProvider_eqb (provider x) (provider y)
  && bool_decide (role x = role y)
  && String.eqb (prompt x) (prompt y)
  && String.eqb (response x) (response y)
  && Qeq_bool (response_confidence x) (response_confidence y)
  && (tokens_used x =? tokens_used y)%Z
  && Qeq_bool (latency x) (latency y)
  && Qeq_bool (response_cost x) (response_cost y)
  && String.eqb (timestamp x) (timestamp y).

(** The nested loops over [i < j]: the similarity of every pair, in the
    order [(0,1), (0,2), ..., (1,2), ...]. *)
Fixpoint pair_similarities (responses : list LLMResponse) : list Q :=
  match responses with
  | [] => []
  | r :: rest =>
      map (fun r' => Difflib.ratio (response r) (response r')) rest
      ++ pair_similarities rest
  end.

(** [sum(similarities)], from the integer 0. *)
Definition Qsum (l : list Q) : Q := fold_left Qplus l 0%Q.

(** [max(responses, key=lambda r: r.confidence)]: the first response of
    greatest confidence. *)
Definition max_confidence (first : LLMResponse) (rest : list LLMResponse)
  : LLMResponse :=
  fold_left
    (fun best r =>
       if Qlt_bool (response_confidence best) (response_confidence r)
       then r else best)
    rest first.

(** The loop over [enumerate(responses)] that fills [discrepancies]. *)
Fixpoint disagreements (similarities : list Q) (selected : LLMResponse)
    (i : nat) (responses : list LLMResponse) : list string :=
  match responses with
  | [] => []
  | r :: rest =>
      (if negb (LLMResponse_eqb r selected) then
         ["Model " ++ model_name (provider r) ++ " disagreed (similarity: "
          ++ format_2f (match similarities !! i with
                        | Some x => x
                        | None => 0%Q
                        end)
          ++ ")"]
       else [])
      ++ disagreements similarities selected (S i) rest
  end.

Definition cross_verify (task : Task) (responses : list LLMResponse)
  : VerificationResult :=
  match responses with
  | [] => mkVerificationResult true None [] 0
  | [r] => mkVerificationResult true (Some r) [] (response_confidence r)
  | first :: rest =>
      let similarities := pair_similarities responses in
      let avg_similarity :=
        match similarities with
        | [] => 0%Q
        | _ => (Qsum similarities
                / inject_Z (Z.of_nat (length similarities)))%Q
        end in
      let consensus := Qlt_bool (7 # 10) avg_similarity in
      let selected := max_confidence first rest in
      let discrepancies :=
        if negb consensus
        then disagreements similarities selected 0 responses
        else [] in
      mkVerificationResult consensus (Some selected) discrepancies
        (if consensus then response_confidence selected
         else (response_confidence selected * (5 # 10))%Q)
  end.

End Fabric.

(* ===================================================================== *)
(** * Part II: properties *)
(* ===================================================================== *)

(** ** Facts about the text helpers *)

Module TextFacts.

Import Text.

Lemma starts_with_app (n r : string) : starts_with n (n ++ r) = true.
Proof.
  induction n as [|c n IH]; simpl; [reflexivity|].
  rewrite Ascii.eqb_refl. exact IH.
Qed.

Lemma starts_with_inv (n h : string) :
  starts_with n h = true -> exists r, h = n ++ r.
Proof.
  revert h. induction n as [|c n IH]; intros h H; simpl in *.
  - exists h. reflexivity.
  - destruct h as [|d h]; [discriminate|].
    apply andb_true_iff in H as [Hc Hn].
    apply Ascii.eqb_eq in Hc. subst d.
    destruct (IH _ Hn) as [r ->]. exists r. reflexivity.
Qed.

Lemma contains_intro (l n r : string) : contains n (l ++ n ++ r) = true.
Proof.
  induction l as [|c l IH]; simpl.
  - destruct (n ++ r) eqn:E; simpl.
    + rewrite <- E, starts_with_app. reflexivity.
    + rewrite <- E, starts_with_app. reflexivity.
  - rewrite IH. apply orb_true_r.
Qed.

Lemma contains_inv (n h : string) :
  contains n h = true -> Substring n h.
Proof.
  induction h as [|c h IH]; simpl; intros H.
  - rewrite orb_false_r in H.
    destruct (starts_with_inv _ _ H) as [r Hr].
    exists "", r. exact Hr.
  - apply orb_true_iff in H as [H|H].
    + destruct (starts_with_inv _ _ H) as [r Hr].
      exists "", r. exact Hr.
    + destruct (IH H) as (l & r & ->).
      exists (String c l), r. reflexivity.
Qed.

(** [needle in hay] holds exactly when [hay] is [l ++ needle ++ r]. *)
Lemma contains_iff (n h : string) :
  contains n h = true <-> Substring n h.
Proof.
  split; [apply contains_inv|].
  intros (l & r & ->). apply contains_intro.
Qed.

Lemma contains_false_iff (n h : string) :
  contains n h = false <-> ~ Substring n h.
Proof.
  rewrite <- contains_iff. destruct (contains n h); split; intros H;
    try reflexivity; try discriminate; try (intros ?; discriminate).
  exfalso. apply H. reflexivity.
Qed.

End TextFacts.

(** ** The orchestrator: failure classification and recovery *)

Module OrchestratorSpec.

Import Text TextFacts Models Collab Orchestrator.

(** The classification as the specification words it: a fixed priority
    of substring checks on the lower-cased error text. *)
Definition classified (text : string) (ft : FailureType) : Prop :=
  let timeout := Substring "timeout" text in
  let exhausted := Substring "rate limit" text \/ Substring "quota" text in
  let policy := Substring "policy" text \/ Substring "unauthorized" text in
  let model := Substring "model" text \/ Substring "llm" text in
  let tool := Substring "tool" text in
  match ft with
  | TIMEOUT => timeout
  | RESOURCE_EXHAUSTION => ~ timeout /\ exhausted
  | POLICY_VIOLATION => ~ timeout /\ ~ exhausted /\ policy
  | MODEL_ERROR => ~ timeout /\ ~ exhausted /\ ~ policy /\ model
  | TOOL_ERROR => ~ timeout /\ ~ exhausted /\ ~ policy /\ ~ model /\ tool
  | UNKNOWN => ~ timeout /\ ~ exhausted /\ ~ policy /\ ~ model /\ ~ tool
  | TRANSIENT => False
  end.

(** The recovery ladder as the specification words it. *)
Definition ladder (ft : FailureType) : string :=
  match ft with
  | TRANSIENT => "retry"
  | MODEL_ERROR => "llm_swap"
  | TOOL_ERROR => "agent_swap"
  | RESOURCE_EXHAUSTION | POLICY_VIOLATION | TIMEOUT | UNKNOWN => "escalate"
  end.

Lemma or_contains (a b text : string) :
  contains a text || contains b text = true
  <-> Substring a text \/ Substring b text.
Proof. rewrite orb_true_iff, !contains_iff. reflexivity. Qed.

Lemma or_contains_false (a b text : string) :
  contains a text || contains b text = false
  <-> ~ (Substring a text \/ Substring b text).
Proof.
  rewrite orb_false_iff, !contains_false_iff. tauto.
Qed.

Lemma classify_classified (error : string) :
  classified (lower error) (_classify_failure error).
Proof.
  unfold _classify_failure.
  destruct (contains "timeout" (lower error)) eqn:Ht.
  { apply contains_iff in Ht. exact Ht. }
  apply contains_false_iff in Ht.
  destruct (contains "rate limit" (lower error) || contains "quota" (lower error))
    eqn:He.
  { apply or_contains in He. simpl. tauto. }
  apply or_contains_false in He.
  destruct (contains "policy" (lower error)
            || contains "unauthorized" (lower error)) eqn:Hp.
  { apply or_contains in Hp. simpl. tauto. }
  apply or_contains_false in Hp.
  destruct (contains "model" (lower error) || contains "llm" (lower error))
    eqn:Hm.
  { apply or_contains in Hm. simpl. tauto. }
  apply or_contains_false in Hm.
  destruct (contains "tool" (lower error)) eqn:Hl.
  { apply contains_iff in Hl. simpl. tauto. }
  apply contains_false_iff in Hl. simpl. tauto.
Qed.

Lemma classified_unique (text : string) (f g : FailureType) :
  classified text f -> classified text g -> f = g.
Proof.
  destruct f, g; simpl; try reflexivity; tauto.
Qed.

Lemma recovery_for_ladder (step : WorkflowStep) (ft : FailureType)
    (error : string) :
  action_type (recovery_for step ft error) = ladder ft.
Proof. destruct ft; reflexivity. Qed.

(** What one call of [handle_failure] does, by the answer of the event
    bus to its single [publish]. *)
Lemma handle_failure_run (step : WorkflowStep) (error : string) (w : World) :
  let event :=
    Published "workflow.recovery_triggered"
      (JDict [("step_id", JStr (step_id step));
              ("failure_type",
               JStr (FailureType_value (_classify_failure error)))]) in
  let action := recovery_for step (_classify_failure error) error in
  handle_failure step error w =
  match faults w with
  | Some msg :: fs => (Raise msg, mkWorld fs (kv w) (trace w) (clock w))
  | None :: fs =>
      (Ok action, mkWorld fs (kv w) (trace w ++ [event]) (clock w))
  | [] => (Ok action, mkWorld [] (kv w) (trace w ++ [event]) (clock w))
  end.
Proof.
  destruct w as [fs kvs tr ck]. simpl.
  unfold handle_failure, publish, redis_call, bind, modify, ret. simpl.
  destruct fs as [|[msg|] fs]; reflexivity.
Qed.

(** C2.  [handle_failure] classifies the error by the fixed priority of
    substring checks on the lower-cased text (timeout, then rate limit or
    quota, then policy or unauthorized, then model or llm, then tool, else
    unknown), the classification is the only one the priority allows, and
    the action it returns is the one of the ladder: retry for TRANSIENT,
    llm_swap for MODEL_ERROR, agent_swap for TOOL_ERROR, escalate for every
    other type.  The call returns that action whenever its event is
    published, and raises the bus error otherwise.  A text that contains
    both "model" and "timeout" is a TIMEOUT and escalates. *)
Theorem handle_failure_classifies_and_maps :
  forall (step : WorkflowStep) (error : string) (w : World),
    classified (lower error) (_classify_failure error)
    /\ (forall ft, classified (lower error) ft -> ft = _classify_failure error)
    /\ (forall ft, action_type (recovery_for step ft error) = ladder ft)
    /\ (match handle_failure step error w with
        | (Ok action, _) =>
            action_type action = ladder (_classify_failure error)
        | (Raise msg, _) => exists fs, faults w = Some msg :: fs
        end)
    /\ ((forall msg fs, faults w <> Some msg :: fs) ->
        exists action w',
          handle_failure step error w = (Ok action, w')
          /\ action_type action = ladder (_classify_failure error))
    /\ (Substring "model" (lower error) ->
        Substring "timeout" (lower error) ->
        _classify_failure error = TIMEOUT
        /\ ladder (_classify_failure error) = "escalate").
Proof.
  intros step error w.
  split; [apply classify_classified|].
  split.
  { intros ft H. eapply classified_unique; [exact H|].
    apply classify_classified. }
  split; [intros ft; apply recovery_for_ladder|].
  pose proof (handle_failure_run step error w) as Hrun. simpl in Hrun.
  split.
  { rewrite Hrun. destruct (faults w) as [|[msg|] fs].
    - apply recovery_for_ladder.
    - exists fs. reflexivity.
    - apply recovery_for_ladder. }
  split.
  { intros Hok. rewrite Hrun. destruct (faults w) as [|[msg|] fs].
    - eexists _, _. split; [reflexivity|apply recovery_for_ladder].
    - exfalso. apply (Hok msg fs). reflexivity.
    - eexists _, _. split; [reflexivity|apply recovery_for_ladder]. }
  intros _ Ht.
  assert (_classify_failure error = TIMEOUT) as ->.
  { symmetry. eapply classified_unique; [|apply classify_classified].
    exact Ht. }
  split; reflexivity.
Qed.

(** C10.  The classifier never answers TRANSIENT, so the action of
    [handle_failure] is never "retry": it is "llm_swap", "agent_swap" or
    "escalate", whatever the error and whatever the state of the
    collaborators. *)
Theorem handle_failure_never_retries :
  forall (step : WorkflowStep) (error : string) (w : World),
    _classify_failure error <> TRANSIENT
    /\ (let action := recovery_for step (_classify_failure error) error in
        action_type action <> "retry"
        /\ action_type action ∈ ["llm_swap"; "agent_swap"; "escalate"])
    /\ (forall action w',
          handle_failure step error w = (Ok action, w') ->
          action_type action <> "retry"
          /\ action_type action ∈ ["llm_swap"; "agent_swap"; "escalate"])
    /\ ((exists action w', handle_failure step error w = (Ok action, w'))
        \/ (exists msg w', handle_failure step error w = (Raise msg, w')
                           /\ hd_error (faults w) = Some (Some msg))).
Proof.
  intros step error w.
  assert (Hne : _classify_failure error <> TRANSIENT).
  { intros H. pose proof (classify_classified error) as Hc.
    rewrite H in Hc. exact Hc. }
  assert (Hact : forall ft, ft <> TRANSIENT ->
            action_type (recovery_for step ft error) <> "retry"
            /\ action_type (recovery_for step ft error)
                 ∈ ["llm_swap"; "agent_swap"; "escalate"]).
  { intros ft Hft. destruct ft; try congruence; simpl;
      (split; [discriminate | set_solver]). }
  split; [exact Hne|].
  split; [apply Hact, Hne|].
  pose proof (handle_failure_run step error w) as Hrun. simpl in Hrun.
  split.
  { intros action w' H. rewrite Hrun in H.
    destruct (faults w) as [|[msg|] fs]; inversion H; subst;
      apply Hact, Hne. }
  rewrite Hrun. destruct (faults w) as [|[msg|] fs].
  - left. eexists _, _. reflexivity.
  - right. eexists _, _. split; reflexivity.
  - left. eexists _, _. reflexivity.
Qed.

(** *** Bounded retry in [execute_step] *)

Local Open Scope list_scope.

(** The delays slept before the retries numbered [from], [from + 1], ...,
    [count] of them. *)
Definition delays (cfg : RetryConfig) (from : Z) (count : nat) : list Q :=
  map (fun i => backoff_delay cfg (from + Z.of_nat i)) (seq 0 count).

(** A configuration whose delays are not negative. *)
Definition nonneg_delays (cfg : RetryConfig) : Prop :=
  (0 <= initial_delay_seconds cfg)%Q
  /\ (0 <= backoff_multiplier cfg)%Q
  /\ (0 <= max_delay_seconds cfg)%Q.

(** A configuration whose delays can be computed and slept: they are
    not negative, the powers of the multiplier that the retries need
    stay well within the range of floats, and the longest delay well
    within the range of [time.sleep]. *)
Definition delays_in_range (cfg : RetryConfig) : Prop :=
  nonneg_delays cfg
  /\ (max_delay_seconds cfg <= inject_Z (2 ^ 33))%Q
  /\ (forall k, 1 <= k < max_attempts cfg ->
        (backoff_multiplier cfg ^ k <= inject_Z (2 ^ 1023))%Q).

(** The error handed to the outer [except] when the loop is left. *)
Definition final_error (errs : list string) (last_error : option string)
  : string :=
  match List.last (map Some errs) last_error with
  | Some e => e
  | None => "exceptions must derive from BaseException"
  end.

Lemma last_cons_default {A} (x : A) (l : list A) (d : A) :
  List.last (x :: l) d = List.last l x.
Proof.
  revert x d. induction l as [|y l IH]; intros x d; [reflexivity|].
  transitivity (List.last l y).
  - exact (IH y d).
  - symmetry. exact (IH y x).
Qed.

Lemma final_error_cons (e : string) (errs : list string)
    (last_error : option string) :
  final_error (e :: errs) last_error = final_error errs (Some e).
Proof.
  unfold final_error. simpl map. rewrite last_cons_default. reflexivity.
Qed.

Lemma backoff_delay_nonneg (cfg : RetryConfig) (k : Z) :
  nonneg_delays cfg -> (0 <= backoff_delay cfg k)%Q.
Proof.
  intros (Hi & Hm & Hd). unfold backoff_delay.
  apply Q.min_glb; [|exact Hd].
  apply Qmult_le_0_compat; [exact Hi|].
  apply Qpower_0_le. exact Hm.
Qed.

Lemma publish_ok (t : string) (p : json) (w : World) (fs : list (option string)) :
  faults w = None :: fs ->
  publish t p w
  = (Ok tt, mkWorld fs (kv w) (trace w ++ [Published t p]) (clock w)).
Proof.
  intros H. unfold publish, redis_call, bind, modify. rewrite H. reflexivity.
Qed.

Lemma publish_fail (t : string) (p : json) (w : World) (msg : string)
    (fs : list (option string)) :
  faults w = Some msg :: fs ->
  publish t p w = (Raise msg, mkWorld fs (kv w) (trace w) (clock w)).
Proof.
  intros H. unfold publish, redis_call, bind, modify. rewrite H. reflexivity.
Qed.

Lemma sleep_ok (d : Q) (w : World) :
  (0 <= d <= inject_Z (2 ^ 33))%Q ->
  sleep d w
  = (Ok tt, mkWorld (faults w) (kv w) (trace w ++ [Slept d]) (clock w)).
Proof.
  intros [H0 H1]. unfold sleep.
  assert (Hlim : (inject_Z (2 ^ 33) < sleep_limit)%Q) by reflexivity.
  assert (Hneg : (- sleep_limit < 0)%Q) by reflexivity.
  assert (Hhigh : Qle_bool sleep_limit d = false).
  { destruct (Qle_bool sleep_limit d) eqn:E; [|reflexivity].
    apply Qle_bool_iff in E. lra. }
  assert (Hlow : Qle_bool (- sleep_limit) d = true)
    by (apply Qle_bool_iff; lra).
  rewrite Hhigh, Hlow. cbn [orb negb].
  apply Qle_bool_iff in H0. rewrite H0. reflexivity.
Qed.

Lemma float_pow_in_range_ok (x : Q) (k : Z) (w : World) :
  (0 <= x)%Q ->
  (x ^ k <= inject_Z (2 ^ 1023))%Q ->
  float_pow_in_range x k w = (Ok tt, w).
Proof.
  intros H0 H1. unfold float_pow_in_range.
  assert (Hlim : (inject_Z (2 ^ 1023) < float_limit)%Q) by reflexivity.
  assert (Hpos : (0 <= x ^ k)%Q) by (apply Qpower_0_le, H0).
  destruct (Qle_bool float_limit (Qabs (x ^ k))) eqn:E; [|reflexivity].
  apply Qle_bool_iff in E. rewrite (Qabs_pos _ Hpos) in E. lra.
Qed.

Lemma backoff_delay_le_max (cfg : RetryConfig) (k : Z) :
  (backoff_delay cfg k <= max_delay_seconds cfg)%Q.
Proof. unfold backoff_delay. apply Q.le_min_r. Qed.

Lemma delays_cons (cfg : RetryConfig) (from : Z) (count : nat) :
  delays cfg from (S count)
  = backoff_delay cfg from :: delays cfg (from + 1) count.
Proof.
  unfold delays. simpl. rewrite Z.add_0_r. f_equal.
  rewrite <- seq_shift, map_map. apply map_ext. intros i.
  f_equal. lia.
Qed.

Section RetryLoop.

Variables (step : WorkflowStep) (agent : Agent).
Let cfg := retry_config step.
Hypothesis delays_ok : delays_in_range cfg.

(** Every remaining attempt fails: the loop sleeps between the attempts,
    not after the last one, and leaves with the last error. *)
Lemma retry_loop_all_fail (errs : list string) :
  forall (retry_count : Z) (last_error : option string) (w : World)
         (fs : list (option string)),
    0 <= retry_count ->
    max_attempts cfg = retry_count + Z.of_nat (length errs) ->
    faults w = map Some errs ++ fs ->
    retry_loop step agent (length errs) retry_count last_error w
    = (Raise (final_error errs last_error),
       mkWorld fs (kv w)
         (trace w ++ map Slept (delays cfg (retry_count + 1)
                                       (length errs - 1)))
         (clock w)).
Proof.
  pose proof delays_ok as (Hnn & Hcap & Hpow).
  induction errs as [|e errs IH]; intros rc last_error w fs Hrc Hmax Hf.
  - simpl in *. destruct w as [f k t c]. simpl in *. subst f.
    rewrite app_nil_r.
    unfold final_error. simpl. destruct last_error; reflexivity.
  - simpl length. cbn [retry_loop]. unfold try_except, bind.
    simpl in Hf.
    rewrite (publish_fail _ _ w e (map Some errs ++ fs) Hf).
    fold cfg.
    destruct errs as [|e' errs'].
    + (* the last attempt: no sleep *)
      simpl in Hmax.
      assert (Hlt : Z.ltb (rc + 1) (max_attempts cfg) = false)
        by (apply Z.ltb_ge; lia).
      rewrite Hlt. unfold ret.
      specialize (IH (rc + 1) (Some e)
                     (mkWorld (map Some [] ++ fs) (kv w) (trace w) (clock w))
                     fs).
      simpl in IH. simpl. rewrite app_nil_r.
      rewrite final_error_cons. unfold final_error. simpl. reflexivity.
    + assert (Hlt : Z.ltb (rc + 1) (max_attempts cfg) = true).
      { apply Z.ltb_lt. simpl length in Hmax. lia. }
      rewrite Hlt.
      rewrite float_pow_in_range_ok;
        [|destruct Hnn as (_ & Hm & _); exact Hm
         |apply Hpow; simpl length in Hmax; lia].
      rewrite sleep_ok
        by (split; [apply backoff_delay_nonneg, Hnn
                   |eapply Qle_trans; [apply backoff_delay_le_max
                                      |exact Hcap]]).
      cbn [faults kv trace clock].
      rewrite (IH (rc + 1) (Some e) _ fs).
      * cbn [faults kv trace clock].
        replace (S (length (e' :: errs')) - 1)%nat
          with (S (length (e' :: errs') - 1))%nat by (simpl; lia).
        rewrite delays_cons. simpl map. rewrite <- app_assoc.
        rewrite (final_error_cons e). reflexivity.
      * lia.
      * simpl length in *. lia.
      * reflexivity.
Qed.

(** Some attempts fail, then one goes through: the loop has slept once
    per failure and returns the successful result. *)
Lemma retry_loop_then_success (errs : list string) :
  forall (remaining : nat) (retry_count : Z) (last_error : option string)
         (w : World) (fs : list (option string)),
    0 <= retry_count ->
    (length errs < remaining)%nat ->
    retry_count + Z.of_nat (length errs) < max_attempts cfg ->
    faults w = map Some errs ++ None :: fs ->
    retry_loop step agent remaining retry_count last_error w
    = (Ok (step_succeeded step),
       mkWorld fs (kv w)
         (trace w
          ++ map Slept (delays cfg (retry_count + 1) (length errs))
          ++ [Published "workflow.step_completed" (step_event step agent)])
         (clock w)).
Proof.
  pose proof delays_ok as (Hnn & Hcap & Hpow).
  induction errs as [|e errs IH];
    intros rem rc last_error w fs Hrc Hrem Hmax Hf.
  - destruct rem as [|rem]; [simpl in Hrem; lia|].
    cbn [retry_loop]. unfold try_except, bind. simpl in Hf.
    rewrite (publish_ok _ _ w fs Hf). reflexivity.
  - destruct rem as [|rem]; [simpl in Hrem; lia|].
    cbn [retry_loop]. unfold try_except, bind. simpl in Hf.
    rewrite (publish_fail _ _ w e _ Hf). fold cfg.
    assert (Hlt : Z.ltb (rc + 1) (max_attempts cfg) = true).
    { apply Z.ltb_lt. simpl length in Hmax. lia. }
    rewrite Hlt.
    rewrite float_pow_in_range_ok;
      [|destruct Hnn as (_ & Hm & _); exact Hm
       |apply Hpow; simpl length in Hmax; lia].
    rewrite sleep_ok
      by (split; [apply backoff_delay_nonneg, Hnn
                 |eapply Qle_trans; [apply backoff_delay_le_max
                                    |exact Hcap]]).
    cbn [faults kv trace clock].
    rewrite (IH rem (rc + 1) (Some e) _ fs).
    + cbn [faults kv trace clock]. simpl length.
      rewrite delays_cons. simpl map. rewrite <- !app_assoc. reflexivity.
    + lia.
    + simpl in Hrem. lia.
    + simpl length in Hmax. lia.
    + reflexivity.
Qed.

End RetryLoop.

Lemma last_map_some (errs : list string) (d : option string) :
  errs <> [] -> List.last (map Some errs) d = Some (List.last errs "").
Proof.
  destruct errs as [|e errs]; [congruence|]. intros _.
  simpl map. rewrite !last_cons_default.
  revert e. induction errs as [|e' errs IH]; intros e; [reflexivity|].
  simpl map. rewrite !last_cons_default. apply IH.
Qed.

Definition started_event (step : WorkflowStep) (agent : Agent) : Effect :=
  Published "workflow.step_started" (step_event step agent).

Definition completed_event (step : WorkflowStep) (agent : Agent) : Effect :=
  Published "workflow.step_completed" (step_event step agent).

Definition failed_event (step : WorkflowStep) (agent : Agent) (e : string)
  : Effect :=
  Published "workflow.step_failed"
    (JDict [("step_id", JStr (step_id step));
            ("agent_id", JStr (agent_id agent));
            ("error", JStr e)]).

(** C1, as the code has it.  Take a step whose retry configuration has
    [max_attempts >= 1] and delays that can be computed and slept (not
    negative, powers of the multiplier within the range of floats,
    [max_delay] within the range of [time.sleep]), and let the first
    [length errs] attempts raise the errors [errs] in turn, the start
    event being published; [answer] is what the event bus says to the
    publish that follows them.  When [length errs < max_attempts] the
    next attempt succeeds and [execute_step] returns its result; when
    [length errs = max_attempts] the attempts are exhausted.  In both
    cases the retry numbered [k] was preceded by a sleep of
    [min(initial_delay * multiplier^k, max_delay)] seconds, for
    [k = 1, 2, ...], and no sleep follows the last attempt.  After
    exhaustion the last error is not raised to the caller:
    [execute_step] publishes [workflow.step_failed]; when the bus
    accepts the event, the last error comes back as the single entry of
    [errors] in a [TaskResult] with [success = false]; when the bus
    refuses it, the error of that refusal is what [execute_step]
    raises. *)
Theorem execute_step_retries_then_reports :
  forall (step : WorkflowStep) (agent : Agent) (w : World)
         (errs : list string) (answer : option string)
         (fs : list (option string)),
    let cfg := retry_config step in
    1 <= max_attempts cfg ->
    delays_in_range cfg ->
    Z.of_nat (length errs) <= max_attempts cfg ->
    faults w = None :: map Some errs ++ answer :: fs ->
    (Z.of_nat (length errs) < max_attempts cfg -> answer = None) ->
    execute_step step agent w =
    if Z.ltb (Z.of_nat (length errs)) (max_attempts cfg) then
      (Ok (step_succeeded step),
       mkWorld fs (kv w)
         (trace w ++ [started_event step agent]
          ++ map Slept (delays cfg 1 (length errs))
          ++ [completed_event step agent])
         (clock w))
    else
      match answer with
      | None =>
          (Ok (step_failed (List.last errs "")),
           mkWorld fs (kv w)
             (trace w ++ [started_event step agent]
              ++ map Slept (delays cfg 1 (length errs - 1))
              ++ [failed_event step agent (List.last errs "")])
             (clock w))
      | Some refusal =>
          (Raise refusal,
           mkWorld fs (kv w)
             (trace w ++ [started_event step agent]
              ++ map Slept (delays cfg 1 (length errs - 1)))
             (clock w))
      end.
Proof.
  intros step agent w errs answer fs cfg Hmax Hdelays Hlen Hf Hanswer.
  unfold execute_step, bind.
  rewrite (publish_ok _ _ w _ Hf). fold cfg.
  destruct (Z.ltb (Z.of_nat (length errs)) (max_attempts cfg)) eqn:Hlt.
  - apply Z.ltb_lt in Hlt. unfold try_except.
    specialize (Hanswer Hlt). subst answer.
    rewrite (retry_loop_then_success step agent Hdelays errs
               (Z.to_nat (max_attempts cfg)) 0 None _ fs);
      [|lia|lia|fold cfg; lia|reflexivity].
    cbn [faults kv trace clock]. fold cfg.
    rewrite <- !app_assoc. reflexivity.
  - apply Z.ltb_ge in Hlt.
    assert (Hn : Z.to_nat (max_attempts cfg) = length errs) by lia.
    rewrite Hn. unfold try_except.
    rewrite (retry_loop_all_fail step agent Hdelays errs 0 None _
               (answer :: fs)); [|lia|fold cfg; lia|reflexivity].
    cbn [faults kv trace clock]. unfold bind.
    assert (Hne : errs <> []).
    { intros ->. simpl in Hn. lia. }
    unfold final_error. rewrite (last_map_some errs None Hne).
    destruct answer as [refusal|].
    + erewrite publish_fail by reflexivity.
      cbn [faults kv trace clock]. fold cfg. unfold started_event.
      rewrite <- !app_assoc. reflexivity.
    + erewrite publish_ok by reflexivity.
      cbn [faults kv trace clock]. unfold ret. fold cfg.
      unfold failed_event, started_event.
      rewrite <- !app_assoc. reflexivity.
Qed.

(** A step with the default retry configuration, an agent, and an event
    bus that accepts the start event, refuses the completion event three
    times and accepts the failure event. *)
Definition sample_step : WorkflowStep :=
  mkWorkflowStep "step-b" "goal-b" ["compute"] ["step-a"]
    default_RetryConfig (mkFallbackStrategy "agent_swap" "" []) true.

Definition sample_agent : Agent :=
  mkAgent "agent-1" "goal-b" ["compute"]
    ["read_file"; "list_directory"; "write_file"; "http_request"]
    STANDARD "session" (75 # 100) [] READY.

Definition three_failures : World :=
  mkWorld [None; Some "connection reset"; Some "connection reset";
           Some "model timeout"; None]
          ∅ [] "2024-01-01T00:00:00".

(** The same bus, refusing the failure event as well. *)
Definition failure_unreported : World :=
  mkWorld [None; Some "connection reset"; Some "connection reset";
           Some "model timeout"; Some "connection refused"]
          ∅ [] "2024-01-01T00:00:00".

Lemma default_delays_in_range : delays_in_range default_RetryConfig.
Proof.
  split; [|split].
  - unfold nonneg_delays. simpl. unfold Qle. simpl. lia.
  - vm_compute. discriminate.
  - intros k Hk. cbn [max_attempts default_RetryConfig] in Hk.
    assert (Hcases : k = 1 \/ k = 2) by lia.
    destruct Hcases as [->| ->]; vm_compute; discriminate.
Qed.

Lemma execute_step_retries_then_reports_witness :
  execute_step sample_step sample_agent three_failures
  = (Ok (step_failed "model timeout"),
     mkWorld [] ∅
       [started_event sample_step sample_agent;
        Slept (backoff_delay default_RetryConfig 1);
        Slept (backoff_delay default_RetryConfig 2);
        failed_event sample_step sample_agent "model timeout"]
       "2024-01-01T00:00:00")
  /\ execute_step sample_step sample_agent failure_unreported
     = (Raise "connection refused",
        mkWorld [] ∅
          [started_event sample_step sample_agent;
           Slept (backoff_delay default_RetryConfig 1);
           Slept (backoff_delay default_RetryConfig 2)]
          "2024-01-01T00:00:00").
Proof.
  split.
  - rewrite (execute_step_retries_then_reports sample_step sample_agent
               three_failures
               ["connection reset"; "connection reset"; "model timeout"]
               None []).
    + reflexivity.
    + simpl. lia.
    + exact default_delays_in_range.
    + simpl. lia.
    + reflexivity.
    + simpl. lia.
  - rewrite (execute_step_retries_then_reports sample_step sample_agent
               failure_unreported
               ["connection reset"; "connection reset"; "model timeout"]
               (Some "connection refused") []).
    + reflexivity.
    + simpl. lia.
    + exact default_delays_in_range.
    + simpl. lia.
    + reflexivity.
    + simpl. lia.
Defined.

(** C1 as stated fails: with every attempt failing, [execute_step] does
    not raise the last error; it returns a failed [TaskResult] that
    carries it. *)
Lemma execute_step_does_not_raise :
  (execute_step sample_step sample_agent three_failures).1
  = Ok (step_failed "model timeout")
  /\ (execute_step sample_step sample_agent three_failures).1
     <> Raise "model timeout".
Proof.
  split.
  - vm_compute. reflexivity.
  - vm_compute. discriminate.
Qed.

(** The scenario of the specification: a "model timeout" error, with the
    capitals a backend may print. *)
Definition quiet_bus : World := mkWorld [] ∅ [] "2024-01-01T00:00:00".

Lemma handle_failure_classifies_and_maps_witness :
  _classify_failure "Model Timeout after 30s" = TIMEOUT
  /\ ladder (_classify_failure "Model Timeout after 30s") = "escalate".
Proof.
  destruct (handle_failure_classifies_and_maps sample_step
              "Model Timeout after 30s" quiet_bus)
    as (_ & _ & _ & _ & _ & H).
  apply H; apply contains_iff; reflexivity.
Defined.

Lemma handle_failure_never_retries_witness :
  action_type (recovery_for sample_step (_classify_failure "tool crashed")
                            "tool crashed") <> "retry"
  /\ action_type (recovery_for sample_step (_classify_failure "tool crashed")
                               "tool crashed")
     ∈ ["llm_swap"; "agent_swap"; "escalate"].
Proof.
  destruct (handle_failure_never_retries sample_step "tool crashed" quiet_bus)
    as (_ & _ & H & _).
  apply (H _ (mkWorld [] ∅
                [Published "workflow.recovery_triggered"
                   (JDict [("step_id", JStr "step-b");
                           ("failure_type", JStr "tool_error")])]
                "2024-01-01T00:00:00")).
  reflexivity.
Defined.

End OrchestratorSpec.

(** ** The orchestrator: persisting and restoring a workflow *)

Module PersistenceSpec.

Import Models Collab Orchestrator.

Local Open Scope list_scope.

Lemma WorkflowState_value_inv (s : WorkflowState) :
  WorkflowState_of_value (WorkflowState_value s) = Some s.
Proof. destruct s; reflexivity. Qed.

Lemma as_str_JStr (l : list string) : mapM as_str (map JStr l) = Some l.
Proof.
  induction l as [|x l IH]; [reflexivity|].
  simpl. rewrite IH. reflexivity.
Qed.

Lemma as_execution_order_inv (eo : list (list string)) :
  as_execution_order (execution_order_to_json eo) = Some eo.
Proof.
  unfold as_execution_order, execution_order_to_json.
  induction eo as [|g eo IH]; [reflexivity|].
  simpl. rewrite as_str_JStr. simpl. rewrite IH. reflexivity.
Qed.

(** What [restore_state] hands back right after [persist_state], when
    Redis answers both calls: the identifier, state, execution order and
    metadata of the persisted workflow, and an empty [steps]
    dictionary. *)
Lemma restore_after_persist (wf : Workflow) (w : World) :
  faults w = [] ->
  exists w',
    (persist_state wf ;;; restore_state (workflow_id wf))%eff w
    = (Ok (Some (mkWorkflow (workflow_id wf) ∅ (execution_order wf)
                            (state wf) (metadata wf))), w').
Proof.
  intros Hf. destruct w as [f k t c]. simpl in Hf. subst f.
  eexists.
  unfold bind, persist_state, restore_state, utcnow_isoformat,
    store_workflow_state, get_workflow_state, setex, getkey, redis_call,
    bind, modify, get, ret.
  cbn [faults kv trace clock].
  rewrite lookup_insert_eq.
  cbn [truthy subscript json_get assoc_get String.eqb Ascii.eqb Bool.eqb
       as_str as_dict expect mbind option_bind].
  unfold ret.
  rewrite as_execution_order_inv.
  change (as_str (JStr (WorkflowState_value (state wf)))
          ≫= WorkflowState_of_value)
    with (WorkflowState_of_value (WorkflowState_value (state wf))).
  rewrite WorkflowState_value_inv.
  reflexivity.
Qed.

(** A paused two-step workflow. *)
Definition sample_workflow : Workflow :=
  mkWorkflow "wf-1"
    (<["a" := mkWorkflowStep "a" "goal-a" [] [] default_RetryConfig
                (mkFallbackStrategy "agent_swap" "" []) true]>
     (<["b" := mkWorkflowStep "b" "goal-b" [] ["a"] default_RetryConfig
                 (mkFallbackStrategy "agent_swap" "" []) true]> ∅))
    [["a"]; ["b"]] RUNNING [("owner", JStr "alice")].

Definition quiet_world : World := mkWorld [] ∅ [] "2024-01-01T00:00:00".

(** C3 on the sample workflow: the workflow restored right after it was
    persisted has the same identifier, state, execution order and
    metadata, but no steps, although two were persisted. *)
Theorem restore_state_drops_steps :
  exists restored w',
    (persist_state sample_workflow
     ;;; restore_state (workflow_id sample_workflow))%eff quiet_world
    = (Ok (Some restored), w')
    /\ workflow_id restored = workflow_id sample_workflow
    /\ state restored = state sample_workflow
    /\ execution_order restored = execution_order sample_workflow
    /\ metadata restored = metadata sample_workflow
    /\ steps restored = ∅
    /\ steps sample_workflow !! "a" <> None
    /\ steps restored <> steps sample_workflow.
Proof.
  destruct (restore_after_persist sample_workflow quiet_world eq_refl)
    as [w' Hrun].
  eexists _, w'. split; [exact Hrun|]. simpl.
  repeat (split; [reflexivity|]).
  split.
  - rewrite lookup_insert_eq. discriminate.
  - intros H.
    assert (Hl : (∅ : gmap string WorkflowStep) !! "a" = None)
      by apply lookup_empty.
    rewrite H, lookup_insert_eq in Hl. discriminate.
Qed.

End PersistenceSpec.

(** ** The agent manager *)

Module AgentManagerSpec.

Import Models Collab AgentManager.

Local Open Scope list_scope.

(** *** Tools by trust level *)

Lemma tool_permitted_mono (l1 l2 : list string) (tool : string) :
  l1 ⊆ l2 -> tool_permitted l1 tool = true -> tool_permitted l2 tool = true.
Proof.
  unfold tool_permitted. rewrite !orb_true_iff, !bool_decide_eq_true.
  intros Hs [H|H]; [left|right]; apply Hs, H.
Qed.

Lemma tool_permitted_all (tool : string) :
  tool_permitted ["all"] tool = true.
Proof. reflexivity. Qed.

(** Membership in, and inclusion between, explicit lists of names. *)
Ltac solve_names :=
  match goal with
  | |- ?x ∈ ?y :: ?l =>
      apply elem_of_cons; first [ left; reflexivity | right; solve_names ]
  end.

Ltac names_included :=
  let x := fresh "x" in
  let Hx := fresh "Hx" in
  intros x Hx;
  repeat (apply elem_of_cons in Hx as [->|Hx]; [solve_names|]);
  apply elem_of_nil in Hx; destruct Hx.

Lemma allowed_tools_below_privileged (t1 t2 : TrustLevel) :
  trust_rank t1 < trust_rank t2 -> t2 <> PRIVILEGED ->
  _get_allowed_tools t1 ⊆ _get_allowed_tools t2.
Proof.
  intros Hlt Hne.
  destruct t1, t2; simpl in Hlt; try lia; try congruence;
    unfold _get_allowed_tools; simpl; names_included.
Qed.

(** C4, as the code has it.  Below PRIVILEGED the tool lists grow with
    the trust level: the list of a lower level is included in the list of
    a higher one.  The list of PRIVILEGED is the single marker "all",
    which the authorization check reads as every tool; so, for any two
    levels [t1 < t2], a tool permitted under the list of [t1] is permitted
    under the list of [t2]. *)
Theorem allowed_tools_monotone :
  forall (t1 t2 : TrustLevel),
    trust_rank t1 < trust_rank t2 ->
    (t2 <> PRIVILEGED -> _get_allowed_tools t1 ⊆ _get_allowed_tools t2)
    /\ (t2 = PRIVILEGED -> _get_allowed_tools t2 = ["all"])
    /\ (forall tool,
          tool_permitted (_get_allowed_tools t1) tool = true ->
          tool_permitted (_get_allowed_tools t2) tool = true).
Proof.
  intros t1 t2 Hlt.
  split; [|split].
  - apply allowed_tools_below_privileged, Hlt.
  - intros ->. reflexivity.
  - intros tool. destruct (decide (t2 = PRIVILEGED)) as [->|Hne].
    + intros _. apply tool_permitted_all.
    + apply tool_permitted_mono, allowed_tools_below_privileged; assumption.
Qed.

Lemma allowed_tools_monotone_witness :
  (ELEVATED <> PRIVILEGED ->
   _get_allowed_tools STANDARD ⊆ _get_allowed_tools ELEVATED)
  /\ (ELEVATED = PRIVILEGED -> _get_allowed_tools ELEVATED = ["all"])
  /\ (forall tool,
        tool_permitted (_get_allowed_tools STANDARD) tool = true ->
        tool_permitted (_get_allowed_tools ELEVATED) tool = true).
Proof.
  apply (allowed_tools_monotone STANDARD ELEVATED). simpl. lia.
Defined.

(** C4 as stated fails between ELEVATED and PRIVILEGED: "read_file" is in
    the list computed for ELEVATED and not in the list computed for
    PRIVILEGED. *)
Lemma elevated_tools_not_in_privileged :
  trust_rank ELEVATED < trust_rank PRIVILEGED
  /\ ("read_file" ∈ _get_allowed_tools ELEVATED)
  /\ ("read_file" ∉ _get_allowed_tools PRIVILEGED)
  /\ ~ (_get_allowed_tools ELEVATED ⊆ _get_allowed_tools PRIVILEGED).
Proof.
  unfold _get_allowed_tools. simpl.
  assert (Hnot : "read_file" ∉ ["all"]).
  { intros H. apply list_elem_of_singleton in H. discriminate. }
  split; [lia|]. split; [solve_names|]. split; [exact Hnot|].
  intros H. apply Hnot, H. solve_names.
Qed.

(** *** The concurrency ceiling *)

(** A call made on the manager by its client, and the manager after a
    sequence of such calls; an exception raised by one call is the
    client's to handle and leaves the manager as the call left it. *)
Inductive Call :=
  | CallSpawn (capabilities : list string) (trust_level : string)
              (goal : string) (workflow_id : option string)
              (fresh_id : string)
  | CallRetire (agent_id : string) (reason : string).

Definition after_call (c : Call) (s : Manager) : Manager :=
  match c with
  | CallSpawn caps t g wid id => (spawn_agent caps t g wid id s).2
  | CallRetire id reason => (retire_agent id reason s).2
  end.

Definition after_calls (cs : list Call) (s : Manager) : Manager :=
  fold_left (fun s c => after_call c s) cs s.


Lemma size_alter {A} (f : A -> A) (k : string) (m : gmap string A) :
  size (alter f k m) = size m.
Proof.
  rewrite alter_alt. destruct (m !! k) as [x|] eqn:E; [|reflexivity].
  apply map_size_insert_Some. rewrite E. eexists. reflexivity.
Qed.

Lemma size_insert_le {A} (k : string) (x : A) (m : gmap string A) :
  (size (<[k := x]> m) <= S (size m))%nat.
Proof.
  rewrite map_size_insert. destruct (m !! k); simpl; lia.
Qed.

Lemma size_delete_le {A} (k : string) (m : gmap string A) :
  (size (delete k m) <= size m)%nat.
Proof.
  rewrite map_size_delete. destruct (m !! k); simpl; lia.
Qed.

(** The message of the capacity error. *)
Definition capacity_error (s : Manager) : string :=
  ("Maximum concurrent agents (" ++ str_of_int (max_concurrent_agents s)
   ++ ") reached")%string.

(** At or above the ceiling, [spawn_agent] raises the capacity error
    before it touches anything. *)
Lemma spawn_agent_at_capacity (capabilities : list string)
    (trust_level goal : string) (workflow_id : option string)
    (fresh_id : string) (s : Manager) :
  max_concurrent_agents s <= get_active_agent_count s ->
  spawn_agent capabilities trust_level goal workflow_id fresh_id s
  = (Raise (capacity_error s), s).
Proof.
  intros H. unfold spawn_agent, bind, get, get_active_agent_count in *.
  apply Z.geb_le in H. rewrite H. reflexivity.
Qed.

(** What a call of [spawn_agent] may leave behind: the ceiling as it
    was, and the active set either as it was or, when there was room,
    with one entry written under the fresh identifier. *)
Lemma spawn_agent_post (capabilities : list string)
    (trust_level goal : string) (workflow_id : option string)
    (fresh_id : string) (s : Manager) :
  let s' :=
    (spawn_agent capabilities trust_level goal workflow_id fresh_id s).2 in
  max_concurrent_agents s' = max_concurrent_agents s
  /\ (active_agents s' = active_agents s
      \/ (get_active_agent_count s < max_concurrent_agents s
          /\ exists a, active_agents s'
                       = <[fresh_id := a]> (active_agents s))).
Proof.
  unfold spawn_agent, bind, get, get_active_agent_count. cbn [fst snd].
  destruct (Z.geb (Z.of_nat (size (active_agents s)))
                  (max_concurrent_agents s)) eqn:Hcap.
  { simpl. auto. }
  assert (Hroom : Z.of_nat (size (active_agents s)) < max_concurrent_agents s).
  { rewrite Z.geb_leb in Hcap. apply Z.leb_gt in Hcap. exact Hcap. }
  destruct (TrustLevel_of_value trust_level) as [level|]; [|simpl; auto].
  unfold set_active, modify, in_world, utcnow_isoformat.
  cbn [world active_agents max_concurrent_agents].
  match goal with
  | |- context [store_agent_memory ?i ?m ?w] =>
      destruct (store_agent_memory i m w) as [[[]|e1] w1]
  end; cbn [world active_agents max_concurrent_agents snd].
  - match goal with
    | |- context [publish ?t ?p ?w] =>
        destruct (publish t p w) as [[[]|e2] w2]
    end; cbn [world active_agents max_concurrent_agents snd];
      (split; [reflexivity|]); right; (split; [exact Hroom|]);
      eexists; rewrite alter_insert_eq; reflexivity.
  - split; [reflexivity|]. right. split; [exact Hroom|].
    eexists. reflexivity.
Qed.

(** What a call of [retire_agent] may leave behind: the ceiling as it
    was and an active set that is not larger. *)
Lemma retire_agent_post (agent_id reason : string) (s : Manager) :
  let s' := (retire_agent agent_id reason s).2 in
  max_concurrent_agents s' = max_concurrent_agents s
  /\ get_active_agent_count s' <= get_active_agent_count s.
Proof.
  unfold retire_agent, bind, get, get_active_agent_count. cbn [fst snd].
  destruct (active_agents s !! agent_id) as [a|]; [|simpl; split; lia].
  unfold set_active, modify, in_world.
  cbn [world active_agents max_concurrent_agents].
  destruct (get_agent_memory agent_id (world s)) as [[m|e1] w1];
    cbn [world active_agents max_concurrent_agents snd].
  2: { rewrite size_alter. split; lia. }
  destruct (clear_agent_memory agent_id w1) as [[[]|e2] w2];
    cbn [world active_agents max_concurrent_agents snd].
  2: { rewrite size_alter. split; lia. }
  match goal with
  | |- context [publish ?t ?p ?w] =>
      destruct (publish t p w) as [[[]|e3] w3]
  end; cbn [world active_agents max_concurrent_agents snd];
    (split; [reflexivity|]);
    pose proof (size_delete_le agent_id
                  (alter (set_status RETIRED) agent_id (active_agents s)));
    rewrite size_alter in *; lia.
Qed.

Lemma after_call_ceiling (c : Call) (s : Manager) :
  get_active_agent_count s <= max_concurrent_agents s ->
  max_concurrent_agents (after_call c s) = max_concurrent_agents s
  /\ get_active_agent_count (after_call c s) <= max_concurrent_agents s.
Proof.
  intros Hinv. destruct c as [caps t g wid id | id reason]; simpl.
  - destruct (spawn_agent_post caps t g wid id s) as [Hmax Hact].
    split; [exact Hmax|].
    destruct Hact as [Hsame | (Hroom & a & Hins)].
    + unfold get_active_agent_count in *. rewrite Hsame. exact Hinv.
    + unfold get_active_agent_count in *. rewrite Hins.
      pose proof (size_insert_le id a (active_agents s)). lia.
  - destruct (retire_agent_post id reason s) as [Hmax Hle].
    split; [exact Hmax|]. lia.
Qed.

Lemma after_calls_ceiling (cs : list Call) :
  forall s : Manager,
    get_active_agent_count s <= max_concurrent_agents s ->
    max_concurrent_agents (after_calls cs s) = max_concurrent_agents s
    /\ get_active_agent_count (after_calls cs s) <= max_concurrent_agents s.
Proof.
  induction cs as [|c cs IH]; intros s Hinv; simpl.
  - split; [reflexivity|exact Hinv].
  - destruct (after_call_ceiling c s Hinv) as [Hmax Hle].
    destruct (IH (after_call c s)) as [Hmax' Hle'].
    + rewrite Hmax. exact Hle.
    + rewrite Hmax' , Hmax in *. split; [reflexivity|exact Hle'].
Qed.

(** C5.  At or above the ceiling [spawn_agent] raises the capacity error
    and leaves the manager, its active set included, as it was.  Hence a
    manager whose active-agent count is within the ceiling stays within
    it after any sequence of [spawn_agent] and [retire_agent] calls,
    whatever the collaborators answer; in particular a freshly built
    manager with a ceiling that is not negative does. *)
Theorem active_agents_within_ceiling :
  forall (s : Manager) (calls : list Call),
    (forall capabilities trust_level goal workflow_id fresh_id,
        max_concurrent_agents s <= get_active_agent_count s ->
        spawn_agent capabilities trust_level goal workflow_id fresh_id s
        = (Raise (capacity_error s), s))
    /\ (get_active_agent_count s <= max_concurrent_agents s ->
        max_concurrent_agents (after_calls calls s) = max_concurrent_agents s
        /\ get_active_agent_count (after_calls calls s)
           <= max_concurrent_agents s)
    /\ (forall (w : World) (ceiling : Z),
          0 <= ceiling ->
          get_active_agent_count (after_calls calls (init w ceiling))
          <= ceiling).
Proof.
  intros s calls. split; [|split].
  - intros caps t g wid id H. apply spawn_agent_at_capacity, H.
  - apply after_calls_ceiling.
  - intros w ceiling Hpos.
    destruct (after_calls_ceiling calls (init w ceiling)) as [_ H].
    + unfold get_active_agent_count, init. simpl.
      rewrite map_size_empty. exact Hpos.
    + exact H.
Qed.

(** A manager with room for two agents, asked for three. *)
Example ceiling_of_two :
  let calls :=
    [CallSpawn ["compute"] "standard" "goal-a" None "agent-1";
     CallSpawn ["compute"] "standard" "goal-b" None "agent-2";
     CallSpawn ["compute"] "standard" "goal-c" None "agent-3"] in
  let s := after_calls calls
             (init (mkWorld [] ∅ [] "2024-01-01T00:00:00") 2) in
  get_active_agent_count s = 2
  /\ (spawn_agent ["compute"] "standard" "goal-d" None "agent-4" s).1
     = Raise "Maximum concurrent agents (2) reached".
Proof. vm_compute. split; reflexivity. Qed.

Lemma active_agents_within_ceiling_witness :
  get_active_agent_count
    (after_calls
       [CallSpawn ["compute"] "standard" "goal-a" None "agent-1";
        CallSpawn ["compute"] "standard" "goal-b" None "agent-2";
        CallRetire "agent-1" "completed";
        CallSpawn ["compute"] "elevated" "goal-c" (Some "wf-1") "agent-3";
        CallSpawn ["compute"] "standard" "goal-d" None "agent-4"]
       (init (mkWorld [None; Some "redis down"] ∅ [] "2024-01-01T00:00:00")
             2))
  <= 2.
Proof.
  destruct (active_agents_within_ceiling
              (init (mkWorld [None; Some "redis down"] ∅ []
                             "2024-01-01T00:00:00") 2)
              [CallSpawn ["compute"] "standard" "goal-a" None "agent-1";
               CallSpawn ["compute"] "standard" "goal-b" None "agent-2";
               CallRetire "agent-1" "completed";
               CallSpawn ["compute"] "elevated" "goal-c" (Some "wf-1")
                         "agent-3";
               CallSpawn ["compute"] "standard" "goal-d" None "agent-4"])
    as (_ & _ & H).
  apply H. lia.
Defined.

End AgentManagerSpec.

(** ** The intelligence fabric: the provider scoreboard *)

Module ScoreboardSpec.

Import Models Fabric.

Local Open Scope Q_scope.

(** [n] performance updates in a row with the same outcome, the [k]-th
    with latency [latencies k]. *)
Fixpoint update_many (n : nat) (success : bool) (latencies : nat -> Q)
    (p : LLMProvider) : LLMProvider :=
  match n with
  | O => p
  | S n' =>
      update_performance (update_many n' success latencies p)
                         (latencies n') success
  end.

Lemma Qmin_1_lt (x : Q) : x < 1 -> x < Qmin 1 (x + (1 # 100)).
Proof.
  intros H. apply Q.min_glb_lt; [exact H|].
  rewrite <- (Qplus_0_r x) at 1. apply Qplus_lt_r. reflexivity.
Qed.

Lemma Qmax_0_lt (x : Q) : 0 < x -> Qmax 0 (x - (5 # 100)) < x.
Proof.
  intros H. apply Q.max_lub_lt; [exact H|].
  rewrite <- (Qplus_0_r x) at 2. unfold Qminus.
  apply Qplus_lt_r. reflexivity.
Qed.

Lemma reliability_success (p : LLMProvider) (latency : Q) :
  reliability_score (update_performance p latency true)
  = Qmin 1 (reliability_score p + (1 # 100)).
Proof. reflexivity. Qed.

Lemma reliability_failure (p : LLMProvider) (latency : Q) :
  reliability_score (update_performance p latency false)
  = Qmax 0 (reliability_score p - (5 # 100)).
Proof. reflexivity. Qed.

(** Reliability never leaves [[0, 1]] once it is inside. *)
Lemma reliability_in_range (p : LLMProvider) (latency : Q) (success : bool) :
  0 <= reliability_score p <= 1 ->
  0 <= reliability_score (update_performance p latency success) <= 1.
Proof.
  intros [H0 H1]. destruct success; simpl.
  - split.
    + apply Q.min_glb; [discriminate|].
      apply (Qle_trans _ (reliability_score p)); [exact H0|].
      rewrite <- (Qplus_0_r (reliability_score p)) at 1.
      apply Qplus_le_r. discriminate.
    + apply Q.le_min_l.
  - split.
    + apply Q.le_max_l.
    + apply Q.max_lub; [discriminate|].
      apply (Qle_trans _ (reliability_score p)); [|exact H1].
      rewrite <- (Qplus_0_r (reliability_score p)) at 2. unfold Qminus.
      apply Qplus_le_r. discriminate.
Qed.

(** A success never lowers the score. *)
Lemma reliability_success_le (p : LLMProvider) (latency : Q) :
  reliability_score p <= 1 ->
  reliability_score p
  <= reliability_score (update_performance p latency true).
Proof.
  intros H. simpl. apply Q.min_glb; [exact H|].
  rewrite <- (Qplus_0_r (reliability_score p)) at 1.
  apply Qplus_le_r. discriminate.
Qed.

Lemma update_many_le_1 (n : nat) (latencies : nat -> Q) (p : LLMProvider) :
  reliability_score p <= 1 ->
  reliability_score (update_many n true latencies p) <= 1.
Proof.
  intros H. destruct n as [|n]; [exact H|]. simpl. apply Q.le_min_l.
Qed.

Lemma update_many_monotone (n : nat) (latencies : nat -> Q) (p : LLMProvider) :
  reliability_score p <= 1 ->
  reliability_score p <= reliability_score (update_many n true latencies p).
Proof.
  intros H. induction n as [|n IH]; [apply Qle_refl|].
  eapply Qle_trans; [exact IH|].
  cbn [update_many]. apply reliability_success_le.
  apply update_many_le_1, H.
Qed.

(** C8.  One performance update sets the reliability to
    [min(1, old + 0.01)] on success and to [max(0, old - 0.05)] on
    failure, and the average latency to [0.9 * old + 0.1 * new] in both
    cases.  Hence a success strictly raises a reliability that is below
    1, a failure strictly lowers one that is above 0, and after any
    positive number of consecutive successes a reliability that started
    below 1 is strictly higher than it started. *)
Theorem update_performance_reliability :
  forall (p : LLMProvider) (latency : Q),
    reliability_score (update_performance p latency true)
    = Qmin 1 (reliability_score p + (1 # 100))
    /\ reliability_score (update_performance p latency false)
       = Qmax 0 (reliability_score p - (5 # 100))
    /\ (forall success,
          avg_latency (update_performance p latency success)
          == (9 # 10) * avg_latency p + (1 # 10) * latency)
    /\ (reliability_score p < 1 ->
        reliability_score p
        < reliability_score (update_performance p latency true))
    /\ (0 < reliability_score p ->
        reliability_score (update_performance p latency false)
        < reliability_score p)
    /\ (forall (n : nat) (latencies : nat -> Q),
          reliability_score p < 1 -> (0 < n)%nat ->
          reliability_score p
          < reliability_score (update_many n true latencies p)).
Proof.
  intros p latency.
  split; [reflexivity|]. split; [reflexivity|].
  split.
  { intros success. destruct success; simpl; ring. }
  split; [intros H; simpl; apply Qmin_1_lt, H|].
  split; [intros H; simpl; apply Qmax_0_lt, H|].
  intros n latencies Hlt Hn.
  destruct n as [|n]; [lia|].
  destruct (Qlt_le_dec (reliability_score (update_many n true latencies p)) 1)
    as [Hbelow | Hcap].
  - eapply Qle_lt_trans.
    + apply (update_many_monotone n latencies p). apply Qlt_le_weak, Hlt.
    + cbn [update_many]. rewrite reliability_success. apply Qmin_1_lt, Hbelow.
  - cbn [update_many]. rewrite reliability_success.
    apply Q.min_glb_lt; [exact Hlt|].
    eapply Qlt_le_trans; [exact Hlt|].
    eapply Qle_trans; [exact Hcap|].
    rewrite <- (Qplus_0_r (reliability_score _)) at 1.
    apply Qplus_le_r. discriminate.
Qed.

(** A provider at reliability 1/2. *)
Definition half_reliable : LLMProvider :=
  mkLLMProvider "p2" "openai" "gpt-3.5-turbo" "https://api.openai.com/v1"
    (2 # 1000000) (3 # 2) (1 # 2) ["execution"; "fast_tasks"].

Lemma update_performance_reliability_witness :
  reliability_score half_reliable
  < reliability_score (update_performance half_reliable (2 # 1) true)
  /\ reliability_score (update_performance half_reliable 0 false)
     < reliability_score half_reliable.
Proof.
  destruct (update_performance_reliability half_reliable (2 # 1))
    as (_ & _ & _ & Hup & _).
  destruct (update_performance_reliability half_reliable 0)
    as (_ & _ & _ & _ & Hdown & _).
  split; [apply Hup | apply Hdown]; reflexivity.
Defined.

End ScoreboardSpec.

(** ** The intelligence fabric: the fallback chain *)

Module FallbackSpec.

Import Text Models Fabric.

Local Open Scope list_scope.

(** Whether [call_llm] gets as far as the backend: an instance exists
    already, or one can be made (a non-empty API key, a supported
    vendor). *)
Definition reachable (fb : Fabric) (p : LLMProvider) : bool :=
  bool_decide (provider_key p ∈ provider_instances fb)
  || match api_keys fb !! provider_name p with
     | Some api_key =>
         negb (String.eqb api_key "") && supported_provider (provider_name p)
     | None => false
     end.

(** The error of a call that stops before the backend. *)
Definition setup_error (fb : Fabric) (p : LLMProvider) : string :=
  match api_keys fb !! provider_name p with
  | Some api_key =>
      if String.eqb api_key ""
      then ("No API key for provider " ++ provider_name p)%string
      else ("Unsupported provider: " ++ provider_name p)%string
  | None => ("No API key for provider " ++ provider_name p)%string
  end.

(** The fabric after the backend of [p] was called and the outcome fed
    back to the scoreboard. *)
Definition after_backend (fb : Fabric) (p : LLMProvider) (seconds : Q)
    (success : bool) : Fabric :=
  mkFabric (api_keys fb)
    (dict_alter (fun q => update_performance q seconds success)
                (provider_key p) (providers fb))
    ({[provider_key p]} ∪ provider_instances fb)
    (backend fb)
    (backend_calls fb ++ [provider_key p]).

(** The response [call_llm] builds from a reply. *)
Definition response_of (p : LLMProvider) (prompt : string) (role : LLMRole)
    (text : string) (tokens : Z) (seconds : Q) (created : string)
  : LLMResponse :=
  mkLLMResponse (update_performance p seconds true) role prompt text
    (_calculate_confidence text) tokens seconds
    (inject_Z tokens * cost_per_token p)%Q created.

(** One call of [call_llm], case by case. *)
Lemma call_llm_run (p : LLMProvider) (prompt : string) (role : LLMRole)
    (fb : Fabric) :
  call_llm p prompt role fb =
  if reachable fb p then
    match backend fb (provider_key p) prompt with
    | Reply text tokens seconds created =>
        (Ok (response_of p prompt role text tokens seconds created),
         after_backend fb p seconds true)
    | Failure msg => (Raise msg, after_backend fb p 0 false)
    end
  else (Raise (setup_error fb p), fb).
Proof.
  unfold call_llm, reachable, setup_error, bind, get.
  destruct (bool_decide (provider_key p ∈ provider_instances fb)) eqn:Hin.
  - cbn [orb]. unfold ret, modify, alter_provider, after_backend.
    cbn [api_keys providers provider_instances backend backend_calls].
    apply bool_decide_eq_true in Hin.
    assert (Hun : {[provider_key p]} ∪ provider_instances fb
                  = provider_instances fb)
      by (apply subseteq_union_1_L, singleton_subseteq_l, Hin).
    rewrite Hun.
    destruct (backend fb (provider_key p) prompt); reflexivity.
  - cbn [orb].
    destruct (api_keys fb !! provider_name p) as [api_key|]; [|reflexivity].
    destruct (String.eqb api_key ""); [reflexivity|]. cbn [negb andb].
    destruct (supported_provider (provider_name p)); [|reflexivity].
    unfold ret, modify, alter_provider, after_backend.
    cbn [api_keys providers provider_instances backend backend_calls].
    destruct (backend fb (provider_key p) prompt); reflexivity.
Qed.

(** A call leaves the backends and the API keys alone, and logs at most
    its own backend call. *)
Lemma call_llm_calls (p : LLMProvider) (prompt : string) (role : LLMRole)
    (fb : Fabric) :
  let fb' := (call_llm p prompt role fb).2 in
  backend fb' = backend fb
  /\ api_keys fb' = api_keys fb
  /\ (backend_calls fb' = backend_calls fb
      \/ backend_calls fb' = backend_calls fb ++ [provider_key p]).
Proof.
  rewrite call_llm_run.
  destruct (reachable fb p); [|simpl; auto].
  destruct (backend fb (provider_key p) prompt); simpl; auto.
Qed.

(** Providers that fail one after the other, with the fabric each call
    leaves to the next one and the error kept in [last_error]. *)
Inductive all_fail (prompt : string) (role : LLMRole)
  : list LLMProvider -> Fabric -> option string
    -> Fabric -> option string -> Prop :=
  | all_fail_nil (fb : Fabric) (last_error : option string) :
      all_fail prompt role [] fb last_error fb last_error
  | all_fail_cons (p : LLMProvider) (ps : list LLMProvider)
      (fb fb1 fb2 : Fabric) (e : string) (last_error last : option string) :
      call_llm p prompt role fb = (Raise e, fb1) ->
      all_fail prompt role ps fb1 (Some e) fb2 last ->
      all_fail prompt role (p :: ps) fb last_error fb2 last.

Lemma fallback_loop_app (prompt : string) (role : LLMRole)
    (failed : list LLMProvider) :
  forall (ps : list LLMProvider) (fb fb1 : Fabric)
         (last_error last : option string),
    all_fail prompt role failed fb last_error fb1 last ->
    fallback_loop (failed ++ ps) prompt role last_error fb
    = fallback_loop ps prompt role last fb1.
Proof.
  induction failed as [|p failed IH]; intros ps fb fb1 last_error last H.
  - inversion H; subst. reflexivity.
  - inversion H as [|p' ps' fb' fb1' fb2' e le l Hcall Hrest]; subst.
    simpl. unfold try_except. rewrite Hcall.
    apply (IH ps _ _ _ _ Hrest).
Qed.

Lemma all_fail_last (prompt : string) (role : LLMRole)
    (failed : list LLMProvider) :
  forall (fb fb1 : Fabric) (last_error last : option string),
    all_fail prompt role failed fb last_error fb1 last ->
    failed <> [] -> exists e, last = Some e.
Proof.
  induction failed as [|p failed IH]; intros fb fb1 last_error last H Hne;
    [congruence|].
  inversion H as [|p' ps' fb' fb1' fb2' e le l Hcall Hrest]; subst.
  destruct failed as [|q failed].
  - inversion Hrest; subst. eexists. reflexivity.
  - eapply IH; [exact Hrest|discriminate].
Qed.

(** The backend calls logged while the providers of [failed] failed are
    calls of providers of [failed], in order. *)
Lemma all_fail_calls (prompt : string) (role : LLMRole)
    (failed : list LLMProvider) :
  forall (fb fb1 : Fabric) (last_error last : option string),
    all_fail prompt role failed fb last_error fb1 last ->
    exists called,
      backend_calls fb1 = backend_calls fb ++ called
      /\ sublist called (map provider_key failed).
Proof.
  induction failed as [|p failed IH]; intros fb fb1 last_error last H.
  - inversion H; subst. exists []. rewrite app_nil_r. split; [reflexivity|].
    constructor.
  - inversion H as [|p' ps' fb' fb1' fb2' e le l Hcall Hrest]; subst.
    destruct (IH _ _ _ _ Hrest) as (called & Hc & Hsub).
    pose proof (call_llm_calls p prompt role fb) as (_ & _ & Hlog).
    rewrite Hcall in Hlog. cbn [snd] in Hlog.
    destruct Hlog as [Hsame | Hone].
    + exists called. rewrite Hc, Hsame. split; [reflexivity|].
      simpl. apply sublist_cons, Hsub.
    + exists (provider_key p :: called). rewrite Hc, Hone, <- app_assoc.
      split; [reflexivity|]. simpl. apply sublist_skip, Hsub.
Qed.

Lemma dict_get_alter_eq {V} (f : V -> V) (k : string) (d : list (string * V)) :
  dict_get k (dict_alter f k d) = f <$> dict_get k d.
Proof.
  induction d as [|[k' v] d IH]; [reflexivity|]. simpl.
  destruct (String.eqb k k') eqn:E; simpl; rewrite E; [reflexivity|exact IH].
Qed.

Lemma dict_get_alter_ne {V} (f : V -> V) (k k' : string)
    (d : list (string * V)) :
  k <> k' -> dict_get k' (dict_alter f k d) = dict_get k' d.
Proof.
  intros Hne. induction d as [|[k0 v] d IH]; [reflexivity|]. simpl.
  destruct (String.eqb k k0) eqn:E; simpl.
  - apply String.eqb_eq in E. subst k0.
    assert (String.eqb k' k = false) as -> by (apply String.eqb_neq; congruence).
    reflexivity.
  - destruct (String.eqb k' k0); [reflexivity|exact IH].
Qed.

Lemma reachable_after_backend (fb : Fabric) (p q : LLMProvider)
    (seconds : Q) (success : bool) :
  reachable fb q = true -> reachable (after_backend fb p seconds success) q = true.
Proof.
  unfold reachable, after_backend.
  cbn [api_keys provider_instances].
  rewrite !orb_true_iff, !bool_decide_eq_true.
  intros [H|H]; [left|right; exact H].
  apply elem_of_union_r, H.
Qed.

(** C9, as the code has it.  [execute_with_fallback] walks the ranked
    providers of the role in order.  (1) The response of the first
    provider whose call succeeds is returned, in the fabric exactly as
    that call left it: the backends called are those of providers before
    it and its own, none of a later provider.  (2) When every provider
    fails, the last of them with error [e], the call raises
    "All LLM providers failed: e".  (3) With two ranked providers, A
    failing at its backend and B answering, B's response is returned and
    A's reliability in the registry becomes [max(0, old - 0.05)]: strictly
    lower when it was above 0, unchanged at the floor 0.  (4) When A
    fails before its backend is called (no API key, unsupported vendor),
    A's registry entry is left as it was. *)
Theorem execute_with_fallback_chain :
  forall (task : Task) (role : LLMRole) (fb : Fabric),
    let prompt := task_prompt task in
    let ranked := get_providers_by_role role fb in
    (forall failed p rest fb1 fb2 last r,
        ranked = failed ++ p :: rest ->
        all_fail prompt role failed fb None fb1 last ->
        call_llm p prompt role fb1 = (Ok r, fb2) ->
        execute_with_fallback task role fb = (Ok r, fb2)
        /\ exists called,
             backend_calls fb2
             = backend_calls fb ++ called ++ [provider_key p]
             /\ sublist called (map provider_key failed))
    /\ (forall init q fb1 fb2 last e,
          ranked = init ++ [q] ->
          all_fail prompt role init fb None fb1 last ->
          call_llm q prompt role fb1 = (Raise e, fb2) ->
          execute_with_fallback task role fb
          = (Raise ("All LLM providers failed: " ++ e)%string, fb2))
    /\ (forall A B e text tokens seconds created,
          ranked = [A; B] ->
          dict_get (provider_key A) (providers fb) = Some A ->
          provider_key A <> provider_key B ->
          reachable fb A = true ->
          backend fb (provider_key A) prompt = Failure e ->
          reachable fb B = true ->
          backend fb (provider_key B) prompt
          = Reply text tokens seconds created ->
          exists fb2 A',
            execute_with_fallback task role fb
            = (Ok (response_of B prompt role text tokens seconds created),
               fb2)
            /\ backend_calls fb2
               = backend_calls fb ++ [provider_key A; provider_key B]
            /\ dict_get (provider_key A) (providers fb2) = Some A'
            /\ reliability_score A'
               = Qmax 0 (reliability_score A - (5 # 100))
            /\ ((0 < reliability_score A)%Q ->
                (reliability_score A' < reliability_score A)%Q)
            /\ ((reliability_score A == 0)%Q ->
                (reliability_score A' == 0)%Q))
    /\ (forall A B text tokens seconds created,
          ranked = [A; B] ->
          provider_key A <> provider_key B ->
          reachable fb A = false ->
          reachable fb B = true ->
          backend fb (provider_key B) prompt
          = Reply text tokens seconds created ->
          exists fb2,
            execute_with_fallback task role fb
            = (Ok (response_of B prompt role text tokens seconds created),
               fb2)
            /\ backend_calls fb2 = backend_calls fb ++ [provider_key B]
            /\ dict_get (provider_key A) (providers fb2)
               = dict_get (provider_key A) (providers fb)).
Proof.
  intros task role fb prompt ranked.
  assert (Hexec : execute_with_fallback task role fb
                  = fallback_loop ranked prompt role None fb) by reflexivity.
  split; [|split; [|split]].
  - intros failed p rest fb1 fb2 last r Hranked Hfail Hcall.
    rewrite Hexec, Hranked.
    rewrite (fallback_loop_app prompt role failed (p :: rest) fb fb1 None last
               Hfail).
    simpl. unfold try_except. rewrite Hcall. split; [reflexivity|].
    destruct (all_fail_calls prompt role failed fb fb1 None last Hfail)
      as (called & Hc & Hsub).
    exists called. split; [|exact Hsub].
    pose proof (call_llm_run p prompt role fb1) as Hrun.
    rewrite Hcall in Hrun.
    destruct (reachable fb1 p); [|discriminate].
    destruct (backend fb1 (provider_key p) prompt); [|discriminate].
    inversion Hrun; subst. cbn [after_backend backend_calls].
    rewrite Hc, <- app_assoc. reflexivity.
  - intros init q fb1 fb2 last e Hranked Hfail Hcall.
    rewrite Hexec, Hranked.
    rewrite (fallback_loop_app prompt role init [q] fb fb1 None last Hfail).
    simpl. unfold try_except. rewrite Hcall. reflexivity.
  - intros A B e text tokens seconds created Hranked HA Hkeys HrA HbA HrB HbB.
    rewrite Hexec, Hranked. simpl. unfold try_except.
    rewrite (call_llm_run A), HrA, HbA.
    rewrite (call_llm_run B).
    rewrite (reachable_after_backend fb A B 0 false HrB).
    cbn [after_backend backend]. rewrite HbB.
    eexists _, _. split; [reflexivity|].
    unfold after_backend. cbn [backend_calls providers]. rewrite <- app_assoc.
    split; [reflexivity|].
    rewrite dict_get_alter_ne by congruence.
    rewrite dict_get_alter_eq, HA. cbn [fmap option_fmap option_map].
    split; [reflexivity|].
    split; [reflexivity|]. cbn [update_performance reliability_score].
    split.
    + apply ScoreboardSpec.Qmax_0_lt.
    + intros H0. rewrite H0. reflexivity.
  - intros A B text tokens seconds created Hranked Hkeys HrA HrB HbB.
    rewrite Hexec, Hranked. simpl. unfold try_except.
    rewrite (call_llm_run A), HrA.
    rewrite (call_llm_run B), HrB, HbB.
    eexists. split; [reflexivity|].
    unfold after_backend. cbn [backend_calls providers].
    split; [reflexivity|].
    apply dict_get_alter_ne. congruence.
Qed.

(** *** The scenario of the specification, on the default providers *)

Definition both_keys : gmap string string :=
  <["openai" := "sk-test"]> (<["anthropic" := "sk-ant-test"]> ∅).

Definition four_ids : string * string * string * string :=
  ("p1", "p2", "p3", "p4").

Definition sample_task : Task :=
  mkTask "task-1" "summarise" "Summarise the report." [] false.

(** Claude Haiku is down, GPT-3.5 answers. *)
Definition haiku_down (key prompt : string) : Outcome :=
  if String.eqb key "anthropic:claude-3-haiku-20240307"
  then Failure "overloaded"
  else Reply "The report is fine." 12 (3 # 2) "2024-01-01T00:00:05".

(** The same fabric facing other backend answers. *)
Definition with_backend (backend : string -> string -> Outcome)
    (fb : Fabric) : Fabric :=
  mkFabric (api_keys fb) (providers fb) (provider_instances fb) backend
           (backend_calls fb).

(** Every backend is down. *)
Definition all_down (key prompt : string) : Outcome := Failure "overloaded".

Fixpoint repeat_calls (n : nat) (fb : Fabric) : Fabric :=
  match n with
  | O => fb
  | S n' =>
      (execute_with_fallback sample_task EXECUTOR (repeat_calls n' fb)).2
  end.

(** The fabric after twenty executor tasks met an outage of every
    backend: both executor providers have lost all their reliability. *)
Definition worn_out : Fabric :=
  with_backend haiku_down
    (repeat_calls 20 (init both_keys four_ids all_down)).

Definition registry_reliability (key : string) (fb : Fabric) : option Q :=
  reliability_score <$> dict_get key (providers fb).

Example fallback_on_default_providers :
  let fb := init both_keys four_ids haiku_down in
  let '(result, fb') := execute_with_fallback sample_task EXECUTOR fb in
  map model_name (get_providers_by_role EXECUTOR fb)
  = ["claude-3-haiku-20240307"; "gpt-3.5-turbo"]
  /\ (response <$> match result with Ok r => Some r | Raise _ => None end)
     = Some "The report is fine."
  /\ backend_calls fb'
     = ["anthropic:claude-3-haiku-20240307"; "openai:gpt-3.5-turbo"]
  /\ registry_reliability "anthropic:claude-3-haiku-20240307" fb = Some 1%Q
  /\ registry_reliability "anthropic:claude-3-haiku-20240307" fb'
     = Some (95 # 100).
Proof. vm_compute. repeat split; reflexivity. Qed.

(** C9 as stated fails at the floor: provider A (Claude Haiku, ranked
    first) fails, provider B (GPT-3.5) answers and its response is
    returned, but the reliability of A, already 0, is 0 afterwards and so
    not strictly lower than before. *)
Lemma reliability_not_lower_at_floor :
  map model_name (get_providers_by_role EXECUTOR worn_out)
  = ["claude-3-haiku-20240307"; "gpt-3.5-turbo"]
  /\ backend worn_out "anthropic:claude-3-haiku-20240307"
       (task_prompt sample_task) = Failure "overloaded"
  /\ (response <$>
        match (execute_with_fallback sample_task EXECUTOR worn_out).1 with
        | Ok r => Some r
        | Raise _ => None
        end) = Some "The report is fine."
  /\ (exists before after,
        registry_reliability "anthropic:claude-3-haiku-20240307" worn_out
        = Some before
        /\ registry_reliability "anthropic:claude-3-haiku-20240307"
             (execute_with_fallback sample_task EXECUTOR worn_out).2
           = Some after
        /\ (before == 0)%Q /\ (after == 0)%Q /\ ~ (after < before)%Q).
Proof.
  split; [vm_compute; reflexivity|].
  split; [vm_compute; reflexivity|].
  split; [vm_compute; reflexivity|].
  eexists _, _.
  split; [vm_compute; reflexivity|].
  split; [vm_compute; reflexivity|].
  split; [vm_compute; reflexivity|].
  split; [vm_compute; reflexivity|].
  vm_compute. discriminate.
Qed.

Definition haiku_provider : LLMProvider :=
  mkLLMProvider "p4" "anthropic" "claude-3-haiku-20240307"
    "https://api.anthropic.com/v1" (25 # 100000000) 0 1
    ["fast_tasks"; "execution"].

Definition gpt35_provider : LLMProvider :=
  mkLLMProvider "p2" "openai" "gpt-3.5-turbo" "https://api.openai.com/v1"
    (2 # 1000000) 0 1 ["execution"; "fast_tasks"].

Lemma execute_with_fallback_chain_witness :
  exists fb2 A',
    execute_with_fallback sample_task EXECUTOR
      (init both_keys four_ids haiku_down)
    = (Ok (response_of gpt35_provider (task_prompt sample_task) EXECUTOR
             "The report is fine." 12 (3 # 2) "2024-01-01T00:00:05"),
       fb2)
    /\ backend_calls fb2
       = backend_calls (init both_keys four_ids haiku_down)
         ++ [provider_key haiku_provider; provider_key gpt35_provider]
    /\ dict_get (provider_key haiku_provider) (providers fb2) = Some A'
    /\ reliability_score A'
       = Qmax 0 (reliability_score haiku_provider - (5 # 100))
    /\ ((0 < reliability_score haiku_provider)%Q ->
        (reliability_score A' < reliability_score haiku_provider)%Q)
    /\ ((reliability_score haiku_provider == 0)%Q ->
        (reliability_score A' == 0)%Q).
Proof.
  destruct (execute_with_fallback_chain sample_task EXECUTOR
              (init both_keys four_ids haiku_down))
    as (_ & _ & H & _).
  apply (H haiku_provider gpt35_provider "overloaded");
    try reflexivity.
  vm_compute. discriminate.
Defined.

(** Only the OpenAI key is configured: Claude Haiku, ranked first, fails
    before its backend is called, GPT-3.5 answers, and the reliability of
    Claude Haiku is what it was. *)
Example fallback_without_api_key :
  let fb := init (<["openai" := "sk-test"]> ∅) four_ids haiku_down in
  let '(result, fb') := execute_with_fallback sample_task EXECUTOR fb in
  (response <$> match result with Ok r => Some r | Raise _ => None end)
  = Some "The report is fine."
  /\ backend_calls fb' = ["openai:gpt-3.5-turbo"]
  /\ registry_reliability "anthropic:claude-3-haiku-20240307" fb = Some 1%Q
  /\ registry_reliability "anthropic:claude-3-haiku-20240307" fb' = Some 1%Q.
Proof. vm_compute. repeat split; reflexivity. Qed.

End FallbackSpec.

(** ** [SequenceMatcher.ratio] of a text with itself *)

Module DifflibFacts.

Import Difflib.

Local Open Scope nat_scope.
Local Open Scope list_scope.

Section SameSequence.

Variable a : list ascii.
Let n := length a.

(** Position [j] of [b = a] is visited in row [i]: the elements agree
    and are not popular. *)
Definition hit (i j : nat) : bool :=
  Ascii.eqb (nth_char a j) (nth_char a i)
  && negb (popular a (nth_char a j)).

(** [j2len.get(j - 1, 0)]. *)
Definition before (j2len : nat -> nat) (j : nat) : nat :=
  match j with
  | O => 0
  | S j' => j2len j'
  end.

(** The dictionary [j2len] on entry to row [i], as a function. *)
Fixpoint j2len_at (i : nat) : nat -> nat :=
  match i with
  | O => fun _ => 0
  | S i' =>
      fun j =>
        if (j <? n) && hit i' j then S (before (j2len_at i') j) else 0
  end.

(** The update of the best block at one position of a row. *)
Definition visit (i : nat) (j2len : nat -> nat) (best : nat * nat * nat)
    (j : nat) : nat * nat * nat :=
  if hit i j then
    let k := S (before j2len j) in
    if best.2 <? k then (i + 1 - k, j + 1 - k, k) else best
  else best.

Lemma hit_diag (i j : nat) : hit i j = true -> hit i i = true /\ hit j j = true.
Proof.
  unfold hit. rewrite !andb_true_iff, !Ascii.eqb_refl.
  intros [He Hp]. apply Ascii.eqb_eq in He. rewrite <- He. auto.
Qed.

Lemma row_best (i : nat) (j2len : nat -> nat) (js : list nat) :
  forall best,
    (row a a i j2len js best).2 = fold_left (visit i j2len) js best.
Proof.
  induction js as [|j js IH]; intros best; [reflexivity|].
  cbn [row fold_left]. unfold visit at 2. fold (hit i j).
  destruct (hit i j).
  - change (match j with O => 0 | S j' => j2len j' end) with (before j2len j).
    specialize (IH (if best.2 <? S (before j2len j)
                    then (i + 1 - S (before j2len j),
                          j + 1 - S (before j2len j), S (before j2len j))
                    else best)).
    destruct (row a a i j2len js _) as [rest best'']. exact IH.
  - apply IH.
Qed.

Lemma row_j2len (i : nat) (j2len : nat -> nat) (js : list nat) :
  forall best x,
    (row a a i j2len js best).1 x
    = if existsb (Nat.eqb x) js && hit i x then S (before j2len x) else 0.
Proof.
  induction js as [|j js IH]; intros best x; [reflexivity|].
  cbn [row existsb]. fold (hit i j).
  destruct (hit i j) eqn:Hh.
  - change (match j with O => 0 | S j' => j2len j' end) with (before j2len j).
    specialize (IH (if best.2 <? S (before j2len j)
                    then (i + 1 - S (before j2len j),
                          j + 1 - S (before j2len j), S (before j2len j))
                    else best) x).
    destruct (row a a i j2len js _) as [rest best'']. cbn [fst] in *.
    destruct (Nat.eqb x j) eqn:E.
    + apply Nat.eqb_eq in E. subst x. rewrite Hh. reflexivity.
    + exact IH.
  - rewrite IH. destruct (Nat.eqb x j) eqn:E; [|reflexivity].
    apply Nat.eqb_eq in E. subst x. rewrite Hh, !andb_false_r. reflexivity.
Qed.

Lemma existsb_seq (x lo len : nat) :
  existsb (Nat.eqb x) (seq lo len) = (lo <=? x) && (x <? lo + len).
Proof.
  revert lo. induction len as [|len IH]; intros lo; simpl.
  - symmetry. apply andb_false_iff.
    destruct (Nat.leb_spec lo x); [right|left; reflexivity].
    apply Nat.ltb_ge. lia.
  - rewrite IH.
    destruct (Nat.eqb_spec x lo), (Nat.leb_spec lo x),
      (Nat.leb_spec (S lo) x), (Nat.ltb_spec x (lo + S len)),
      (Nat.ltb_spec x (S lo + len)); simpl; try reflexivity; lia.
Qed.

Lemma visit_ext (i : nat) (f g : nat -> nat) (best : nat * nat * nat)
    (j : nat) :
  (forall x, f x = g x) -> visit i f best j = visit i g best j.
Proof.
  intros H. unfold visit.
  replace (before f j) with (before g j); [reflexivity|].
  destruct j; simpl; auto.
Qed.

Lemma fold_visit_ext (i : nat) (f g : nat -> nat) (js : list nat) :
  (forall x, f x = g x) ->
  forall best, fold_left (visit i f) js best = fold_left (visit i g) js best.
Proof.
  intros H. induction js as [|j js IH]; intros best; [reflexivity|].
  simpl. rewrite (visit_ext i f g best j H). apply IH.
Qed.

(** Three bounds on the entries of [j2len]. *)
Lemma j2len_at_S (i j : nat) :
  j2len_at (S i) j
  = if (j <? n) && hit i j then S (before (j2len_at i) j) else 0.
Proof. reflexivity. Qed.

Lemma j2len_at_diag (i : nat) :
  i < n -> hit i i = true ->
  j2len_at (S i) i = S (before (j2len_at i) i).
Proof.
  intros Hi Hh. rewrite j2len_at_S, Hh.
  apply Nat.ltb_lt in Hi. rewrite Hi. reflexivity.
Qed.

Lemma j2len_le (i : nat) : forall j, j2len_at i j <= i.
Proof.
  induction i as [|i IH]; intros j; [simpl; lia|].
  rewrite j2len_at_S.
  destruct ((j <? n) && hit i j); [|lia].
  destruct j as [|j]; cbn [before]; [lia|]. specialize (IH j). lia.
Qed.

Lemma j2len_row_le_diag (i : nat) :
  forall j, i < n -> j2len_at (S i) j <= j2len_at (S i) i.
Proof.
  induction i as [|i IH]; intros j Hi; rewrite (j2len_at_S _ j).
  - destruct ((j <? n) && hit 0 j) eqn:E; [|lia].
    apply andb_true_iff in E as [_ Hh]. apply hit_diag in Hh as [Hd _].
    rewrite (j2len_at_diag 0 Hi Hd).
    destruct j; cbn [before j2len_at]; lia.
  - destruct ((j <? n) && hit (S i) j) eqn:E; [|lia].
    apply andb_true_iff in E as [_ Hh]. apply hit_diag in Hh as [Hd _].
    rewrite (j2len_at_diag (S i) Hi Hd). cbn [before].
    destruct j as [|j]; cbn [before]; [lia|].
    assert (i < n) as Hin by lia.
    specialize (IH j Hin). lia.
Qed.

Lemma j2len_col_le_diag (i : nat) :
  forall j, j < n -> j2len_at (S i) j <= j2len_at (S j) j.
Proof.
  induction i as [|i IH]; intros j Hj; rewrite (j2len_at_S _ j) at 1.
  - destruct ((j <? n) && hit 0 j) eqn:E; [|lia].
    apply andb_true_iff in E as [_ Hh]. apply hit_diag in Hh as [_ Hd].
    rewrite (j2len_at_diag j Hj Hd).
    destruct j; cbn [before j2len_at]; lia.
  - destruct ((j <? n) && hit (S i) j) eqn:E; [|lia].
    apply andb_true_iff in E as [_ Hh]. apply hit_diag in Hh as [_ Hd].
    rewrite (j2len_at_diag j Hj Hd).
    destruct j as [|j]; cbn [before]; [lia|].
    assert (j < n) as Hjn by lia.
    specialize (IH j Hjn). lia.
Qed.

(** The best block stays on the diagonal and dominates the diagonal
    entries seen so far: rows before [i], and row [i] once column [i] is
    passed. *)
Definition on_diagonal (best : nat * nat * nat) (i j : nat) : Prop :=
  best.1.1 = best.1.2
  /\ best.1.1 + best.2 <= n
  /\ (forall i', i' < i -> j2len_at (S i') i' <= best.2)
  /\ (i < j -> j2len_at (S i) i <= best.2).

Lemma visit_row (i : nat) (Hi : i < n) (count : nat) :
  forall j0 best,
    j0 + count = n ->
    on_diagonal best i j0 ->
    on_diagonal (fold_left (visit i (j2len_at i)) (seq j0 count) best) i n.
Proof.
  induction count as [|count IH]; intros j0 best Hsum Hinv.
  - simpl. replace n with j0 by lia. exact Hinv.
  - cbn [seq fold_left]. apply IH; [lia|].
    destruct Hinv as (Hd & Hn & Hrows & Hrow).
    assert (Hj0 : j0 < n) by lia.
    assert (Hval : hit i j0 = true ->
                   S (before (j2len_at i) j0) = j2len_at (S i) j0).
    { intros Hh. rewrite j2len_at_S. apply Nat.ltb_lt in Hj0.
      rewrite Hj0, Hh. reflexivity. }
    unfold visit. destruct (hit i j0) eqn:Hh.
    + rewrite (Hval eq_refl).
      destruct (Nat.ltb_spec best.2 (j2len_at (S i) j0)) as [Hlt|Hge].
      * assert (j0 = i) as ->.
        { destruct (Nat.lt_trichotomy j0 i) as [Hlo|[Heq|Hhi]];
            [exfalso|exact Heq|exfalso].
          - pose proof (j2len_col_le_diag i j0 Hj0).
            specialize (Hrows j0 Hlo). lia.
          - pose proof (j2len_row_le_diag i j0 Hi).
            specialize (Hrow Hhi). lia. }
        pose proof (j2len_le (S i) i) as Hle.
        repeat split; cbn [fst snd].
        -- lia.
        -- intros i' Hi'. specialize (Hrows i' Hi'). lia.
        -- intros _. lia.
      * repeat split; try assumption.
        intros Hlt. destruct (Nat.eq_dec i j0) as [->|Hne]; [exact Hge|].
        apply Hrow. lia.
    + repeat split; try assumption.
      intros Hlt. destruct (Nat.eq_dec i j0) as [->|Hne].
      * rewrite j2len_at_S, Hh, andb_false_r. lia.
      * apply Hrow. lia.
Qed.

Lemma rows_on_diagonal (count : nat) :
  forall i0 j2len best,
    i0 + count = n ->
    (forall x, j2len x = j2len_at i0 x) ->
    on_diagonal best i0 0 ->
    let best' := rows a a (seq i0 count) 0 n j2len best in
    best'.1.1 = best'.1.2 /\ best'.1.1 + best'.2 <= n.
Proof.
  induction count as [|count IH]; intros i0 j2len best Hsum Hext Hinv.
  - simpl. destruct Hinv as (Hd & Hn & _). auto.
  - cbn [seq rows]. rewrite Nat.sub_0_r.
    pose proof (row_best i0 j2len (seq 0 n) best) as Hbest.
    pose proof (row_j2len i0 j2len (seq 0 n) best) as Hfun.
    destruct (row a a i0 j2len (seq 0 n) best) as [newj2len best1].
    cbn [fst snd] in Hbest, Hfun. subst best1.
    apply IH; [lia| |].
    + intros x. rewrite Hfun, existsb_seq, j2len_at_S.
      cbn [Nat.leb Nat.add andb].
      replace (before j2len x) with (before (j2len_at i0) x)
        by (destruct x; cbn [before]; auto).
      reflexivity.
    + rewrite (fold_visit_ext i0 j2len (j2len_at i0) (seq 0 n) Hext).
      assert (Hi0 : i0 < n) by lia.
      pose proof (visit_row i0 Hi0 n 0 best eq_refl Hinv)
        as (Hd & Hn & Hrows & Hrow).
      repeat split; try assumption; [|lia].
      intros i' Hi'. destruct (Nat.eq_dec i' i0) as [->|Hne].
      * apply Hrow. exact Hi0.
      * apply Hrows. lia.
Qed.

Lemma extend_down_diagonal (d : nat) :
  forall fuel k,
    d <= fuel -> extend_down a a 0 0 fuel (d, d, k) = (0, 0, d + k).
Proof.
  induction d as [|d IH]; intros fuel k Hfuel.
  - destruct fuel; reflexivity.
  - destruct fuel as [|fuel]; [lia|]. cbn [extend_down].
    replace (0 <? S d) with true by (symmetry; apply Nat.ltb_lt; lia).
    rewrite Ascii.eqb_refl. cbn [andb].
    replace (S d - 1) with d by lia.
    rewrite IH by lia. f_equal. lia.
Qed.

Lemma extend_up_diagonal (fuel : nat) :
  forall m,
    m <= n -> n - m <= fuel -> extend_up a a n n fuel (0, 0, m) = (0, 0, n).
Proof.
  induction fuel as [|fuel IH]; intros m Hm Hfuel.
  - simpl. f_equal. lia.
  - cbn [extend_up]. simpl Nat.add.
    destruct (Nat.ltb_spec m n) as [Hlt|Hge].
    + rewrite Ascii.eqb_refl. cbn [andb]. apply IH; lia.
    + cbn [andb]. f_equal. lia.
Qed.

Lemma find_longest_match_same :
  find_longest_match a a 0 n 0 n = (0, 0, n).
Proof.
  unfold find_longest_match. rewrite !Nat.sub_0_r.
  pose proof (rows_on_diagonal n 0 (fun _ => 0) (0, 0, 0) eq_refl
                (fun _ => eq_refl)) as H.
  destruct (rows a a (seq 0 n) 0 n (fun _ => 0) (0, 0, 0))
    as [[d d'] k].
  destruct H as [Hd Hn].
  { repeat split; cbn [fst snd]; intros; lia. }
  cbn [fst snd] in Hd, Hn. subst d'.
  rewrite extend_down_diagonal by lia.
  apply extend_up_diagonal; lia.
Qed.

Lemma matches_same : matches a a (S n) 0 n 0 n = n.
Proof.
  cbn [matches]. rewrite find_longest_match_same.
  destruct n as [|m] eqn:E; [reflexivity|].
  rewrite Nat.ltb_irrefl. cbn [andb]. simpl Nat.add.
  rewrite Nat.ltb_irrefl. cbn [andb]. lia.
Qed.

End SameSequence.

(** A text is as similar to itself as can be. *)
Lemma ratio_same (s : string) : (ratio s s == 1)%Q.
Proof.
  unfold ratio. rewrite matches_same. unfold _calculate_ratio.
  destruct (length (chars s)) as [|m] eqn:E; simpl Nat.add.
  - reflexivity.
  - replace (S (m + S m)) with (2 * S m) by lia.
    rewrite Nat2Z.inj_mul, inject_Z_mult.
    change (inject_Z (Z.of_nat 2)) with (2%Q).
    unfold Qdiv. apply Qmult_inv_r.
    unfold Qeq. simpl. lia.
Qed.

End DifflibFacts.

(** ** The intelligence fabric: cross verification *)

Module CrossVerifySpec.

Import Models Fabric.

Local Open Scope list_scope.

Lemma Qlt_bool_iff (x y : Q) : Qlt_bool x y = true <-> (x < y)%Q.
Proof.
  unfold Qlt_bool. rewrite Qlt_alt.
  destruct (x ?= y)%Q; split; intros H; try reflexivity; discriminate.
Qed.

Lemma Qlt_bool_false_iff (x y : Q) : Qlt_bool x y = false <-> (y <= x)%Q.
Proof.
  rewrite <- Qle_bool_iff.
  destruct (Qlt_bool x y) eqn:E.
  - apply Qlt_bool_iff in E. split; [discriminate|].
    intros H. apply Qle_bool_iff in H. exfalso.
    exact (Qlt_not_le _ _ E H).
  - split; [|reflexivity]. intros _. apply Qle_bool_iff.
    apply Qnot_lt_le. intros H. apply Qlt_bool_iff in H. congruence.
Qed.

(** The confidence of the response that [max] picks among two. *)
Lemma max_confidence_two (r1 r2 : LLMResponse) :
  response_confidence (max_confidence r1 [r2])
  = Qmax (response_confidence r1) (response_confidence r2).
Proof.
  unfold max_confidence, Qlt_bool. simpl.
  unfold Qmax, GenericMinMax.gmax.
  destruct (response_confidence r1 ?= response_confidence r2)%Q; reflexivity.
Qed.

(** [max] returns a response of the list, and none has a greater
    confidence. *)
Lemma max_confidence_spec (rest : list LLMResponse) :
  forall first,
    let selected := max_confidence first rest in
    selected ∈ first :: rest
    /\ (forall r, r ∈ first :: rest ->
                  (response_confidence r <= response_confidence selected)%Q).
Proof.
  induction rest as [|x rest IH]; intros first; simpl.
  - split; [left|]. intros r Hr. apply list_elem_of_singleton in Hr.
    subst r. apply Qle_refl.
  - unfold max_confidence in *. cbn [fold_left].
    destruct (Qlt_bool (response_confidence first) (response_confidence x))
      eqn:E.
    + destruct (IH x) as [Hin Hmax]. split.
      * right. exact Hin.
      * intros r Hr. apply elem_of_cons in Hr as [->|Hr].
        -- apply Qlt_bool_iff in E. apply Qlt_le_weak in E.
           eapply Qle_trans; [exact E|]. apply Hmax. left.
        -- apply Hmax, Hr.
    + destruct (IH first) as [Hin Hmax]. split.
      * apply elem_of_cons in Hin as [Hin|Hin]; [rewrite Hin; left|].
        right. right. exact Hin.
      * intros r Hr. apply elem_of_cons in Hr as [->|Hr]; [apply Hmax; left|].
        apply elem_of_cons in Hr as [->|Hr].
        -- apply Qlt_bool_false_iff in E.
           eapply Qle_trans; [exact E|]. apply Hmax. left.
        -- apply Hmax. right. exact Hr.
Qed.

(** C6.  For every task, [cross_verify] reports consensus on an empty
    list and on a single response (which it selects, with its own
    confidence); on two responses with identical texts it reports
    consensus, no discrepancy, and the higher of the two confidences. *)
Theorem cross_verify_trivial_consensus :
  forall (task : Task),
    consensus (cross_verify task []) = true
    /\ (forall r,
          consensus (cross_verify task [r]) = true
          /\ selected_response (cross_verify task [r]) = Some r
          /\ verification_confidence (cross_verify task [r])
             = response_confidence r)
    /\ (forall r1 r2,
          response r1 = response r2 ->
          consensus (cross_verify task [r1; r2]) = true
          /\ discrepancies (cross_verify task [r1; r2]) = []
          /\ verification_confidence (cross_verify task [r1; r2])
             = Qmax (response_confidence r1) (response_confidence r2)).
Proof.
  intros task. split; [reflexivity|]. split; [intros r; repeat split|].
  intros r1 r2 Htext.
  assert (Hcons : Qlt_bool (7 # 10)
                    (Qsum [Difflib.ratio (response r1) (response r2)]
                     / inject_Z (Z.of_nat 1))%Q = true).
  { apply Qlt_bool_iff. rewrite Htext.
    unfold Qsum. cbn [fold_left].
    rewrite (DifflibFacts.ratio_same (response r2)). reflexivity. }
  unfold cross_verify. cbn [pair_similarities map app length].
  rewrite Hcons. cbn [negb consensus discrepancies verification_confidence].
  repeat split. apply max_confidence_two.
Qed.

(** What [cross_verify] answers on two or more responses whose average
    pairwise similarity does not exceed 0.7: no consensus, the first
    response of greatest confidence, half of its confidence, and the
    list that the loop over [enumerate(responses)] builds. *)
Lemma cross_verify_without_consensus (task : Task)
    (first second : LLMResponse) (rest : list LLMResponse) :
  let responses := first :: second :: rest in
  let similarities := pair_similarities responses in
  (Qsum similarities / inject_Z (Z.of_nat (length similarities))
   <= 7 # 10)%Q ->
  let result := cross_verify task responses in
  let selected := max_confidence first (second :: rest) in
  consensus result = false
  /\ selected_response result = Some selected
  /\ selected ∈ responses
  /\ (forall r, r ∈ responses ->
                (response_confidence r <= response_confidence selected)%Q)
  /\ verification_confidence result
     = (response_confidence selected * (5 # 10))%Q
  /\ discrepancies result = disagreements similarities selected 0 responses.
Proof.
  intros responses similarities Havg result selected.
  apply Qlt_bool_false_iff in Havg.
  subst result. unfold cross_verify.
  fold responses. fold similarities. fold selected.
  assert (Hne : exists x xs, similarities = x :: xs).
  { subst similarities responses. cbn [pair_similarities map app].
    eexists _, _. reflexivity. }
  destruct Hne as (x & xs & Hsim). rewrite Hsim in *.
  rewrite Havg. cbn [negb consensus selected_response discrepancies
                     verification_confidence].
  destruct (max_confidence_spec (second :: rest) first) as [Hin Hmax].
  repeat split; assumption.
Qed.

(** *** Discrepancies *)

Definition gpt4 : LLMProvider :=
  mkLLMProvider "p1" "openai" "gpt-4" "https://api.openai.com/v1"
    (3 # 100000) 0 1 ["reasoning"; "planning"; "analysis"].

Definition opus : LLMProvider :=
  mkLLMProvider "p3" "anthropic" "claude-3-opus-20240229"
    "https://api.anthropic.com/v1" (15 # 1000000) 0 1
    ["reasoning"; "verification"; "synthesis"].

Definition rollout_task : Task :=
  mkTask "task-7" "rollout decision" "Should we deploy?" [] true.

Definition says_deploy : LLMResponse :=
  mkLLMResponse gpt4 PLANNER "Should we deploy?" "deploy now"
    (9 # 10) 20 (1 # 1) (6 # 10000) "2024-01-01T00:00:01".

Definition says_wait : LLMResponse :=
  mkLLMResponse opus PLANNER "Should we deploy?" "do not deploy"
    (6 # 10) 21 (2 # 1) (3 # 10000) "2024-01-01T00:00:02".

(** C7 on two disagreeing responses.  The average similarity is 12/23,
    below 0.7: there is no consensus, the more confident response is
    selected and its confidence is halved.  The other response is listed,
    but the similarity printed for it is 0.00, while its similarity to
    the selected response is 12/23, which prints as 0.52: the loop reads
    [similarities] at the position of the response in [responses], and
    position 1 is past the end of the one-pair list. *)
Theorem discrepancy_misreports_similarity :
  let result := cross_verify rollout_task [says_deploy; says_wait] in
  consensus result = false
  /\ selected_response result = Some says_deploy
  /\ (verification_confidence result == (9 # 10) * (1 # 2))%Q
  /\ discrepancies result
     = ["Model claude-3-opus-20240229 disagreed (similarity: 0.00)"%string]
  /\ (Difflib.ratio (response says_wait) (response says_deploy) == 12 # 23)%Q
  /\ format_2f (Difflib.ratio (response says_wait) (response says_deploy))
     = "0.52"%string.
Proof.
  vm_compute. repeat split; reflexivity.
Qed.

Definition haiku : LLMProvider :=
  mkLLMProvider "p4" "anthropic" "claude-3-haiku-20240307"
    "https://api.anthropic.com/v1" (25 # 100000000) 0 1
    ["fast_tasks"; "execution"].

(** With three responses the position read is that of another pair: the
    first response is reported with its similarity to the second one
    (0.92), not to the selected third one (0.28). *)
Example discrepancy_reads_another_pair :
  let r0 := mkLLMResponse gpt4 EXECUTOR "What now?" "restart the service"
              (6 # 10) 20 1 0 "2024-01-01T00:00:01" in
  let r1 := mkLLMResponse opus EXECUTOR "What now?" "restart the server"
              (7 # 10) 20 1 0 "2024-01-01T00:00:02" in
  let r2 := mkLLMResponse haiku EXECUTOR "What now?" "do nothing"
              (9 # 10) 20 1 0 "2024-01-01T00:00:03" in
  let result := cross_verify rollout_task [r0; r1; r2] in
  consensus result = false
  /\ selected_response result = Some r2
  /\ discrepancies result
     = ["Model gpt-4 disagreed (similarity: 0.92)"%string;
        "Model claude-3-opus-20240229 disagreed (similarity: 0.28)"%string]
  /\ format_2f (Difflib.ratio (response r0) (response r2)) = "0.28"%string
  /\ format_2f (Difflib.ratio (response r1) (response r2)) = "0.21"%string.
Proof.
  vm_compute. repeat split; reflexivity.
Qed.

Lemma cross_verify_trivial_consensus_witness :
  consensus (cross_verify rollout_task
               [says_deploy;
                mkLLMResponse opus PLANNER "Should we deploy?" "deploy now"
                  (95 # 100) 21 (2 # 1) (3 # 10000) "2024-01-01T00:00:02"])
  = true
  /\ discrepancies
       (cross_verify rollout_task
          [says_deploy;
           mkLLMResponse opus PLANNER "Should we deploy?" "deploy now"
             (95 # 100) 21 (2 # 1) (3 # 10000) "2024-01-01T00:00:02"])
     = []
  /\ verification_confidence
       (cross_verify rollout_task
          [says_deploy;
           mkLLMResponse opus PLANNER "Should we deploy?" "deploy now"
             (95 # 100) 21 (2 # 1) (3 # 10000) "2024-01-01T00:00:02"])
     = Qmax (9 # 10) (95 # 100).
Proof.
  destruct (cross_verify_trivial_consensus rollout_task) as (_ & _ & H).
  apply (H says_deploy
           (mkLLMResponse opus PLANNER "Should we deploy?" "deploy now"
              (95 # 100) 21 (2 # 1) (3 # 10000) "2024-01-01T00:00:02")).
  reflexivity.
Defined.

End CrossVerifySpec.

(* ===================================================================== *)
(** * Part III: more of the program, and what it guarantees *)
(* ===================================================================== *)

(** ** Collaborators that answer *)

Module Quiet.

Import Collab.

Local Open Scope list_scope.

Lemma redis_call_quiet (w : World) :
  faults w = [] -> redis_call w = (Ok tt, w).
Proof. intros H. unfold redis_call. rewrite H. reflexivity. Qed.

Lemma publish_quiet (t : string) (p : json) (w : World) :
  faults w = [] ->
  publish t p w
  = (Ok tt, mkWorld [] (kv w) (trace w ++ [Published t p]) (clock w)).
Proof.
  intros H. unfold publish, bind, modify.
  rewrite (redis_call_quiet w H), H. reflexivity.
Qed.

Lemma setex_quiet (k : string) (v : json) (w : World) :
  faults w = [] ->
  setex k v w = (Ok tt, mkWorld [] (<[k := v]> (kv w)) (trace w) (clock w)).
Proof.
  intros H. unfold setex, bind, modify.
  rewrite (redis_call_quiet w H), H. reflexivity.
Qed.

Lemma getkey_quiet (k : string) (w : World) :
  faults w = [] -> getkey k w = (Ok (kv w !! k), w).
Proof.
  intros H. unfold getkey, bind, get, ret.
  rewrite (redis_call_quiet w H). reflexivity.
Qed.

Lemma delkey_quiet (k : string) (w : World) :
  faults w = [] ->
  delkey k w = (Ok tt, mkWorld [] (delete k (kv w)) (trace w) (clock w)).
Proof.
  intros H. unfold delkey, bind, modify.
  rewrite (redis_call_quiet w H), H. reflexivity.
Qed.

End Quiet.

(** ** [AgentManager.replace_agent] *)

Module Lifecycle.

Import Text Models Collab AgentManager.

Definition set_failure_history (history : list FailureRecord) (a : Agent)
  : Agent :=
  mkAgent (agent_id a) (goal a) (capabilities a) (allowed_tools a)
          (trust_level a) (memory_scope a) (confidence_threshold a)
          history (status a).

(** [failure_id] and [fresh_id] are the two values drawn by
    [uuid.uuid4()], in this order.  The new agent object is the one
    stored in the dictionary, so the assignment to its
    [failure_history] is an update of the dictionary entry. *)
Definition replace_agent (agent_id reason : string)
    (failure_id fresh_id : string) : M Manager Agent :=
  (s <- get ;;
   match active_agents s !! agent_id with
   | None => raise ("Agent " ++ agent_id ++ " not found")
   | Some old_agent =>
       let failure :=
         mkFailureRecord failure_id "agent_failure" reason
                         "agent_replacement" true in
       retire_agent agent_id "replaced" ;;;
       new_agent <- spawn_agent (capabilities old_agent)
                      (TrustLevel_value (trust_level old_agent))
                      (goal old_agent) None fresh_id ;;
       let history := (failure_history old_agent ++ [failure])%list in
       set_active (alter (set_failure_history history) fresh_id) ;;;
       in_world (publish "agent.replaced"
         (JDict [("old_agent_id", JStr agent_id);
                 ("new_agent_id", JStr (Models.agent_id new_agent));
                 ("reason", JStr reason)])) ;;;
       ret (set_failure_history history new_agent)
   end)%eff.

End Lifecycle.

Module LifecycleSpec.

Import Text Models Collab AgentManager Lifecycle Quiet.

Local Open Scope list_scope.

Lemma TrustLevel_value_inv (t : TrustLevel) :
  TrustLevel_of_value (TrustLevel_value t) = Some t.
Proof. destruct t; reflexivity. Qed.

(** The agent that [spawn_agent] builds. *)
Definition spawned (capabilities : list string) (level : TrustLevel)
    (goal : string) (workflow_id : option string) (fresh_id : string)
  : Agent :=
  mkAgent fresh_id goal capabilities (_get_allowed_tools level) level
    (match workflow_id with
     | Some wid => if String.eqb wid "" then "session" else "workflow"
     | None => "session"
     end)
    (75 # 100) [] READY.

Definition agent_memory (capabilities : list string) (trust_level goal : string)
    (created_at : string) : json :=
  JDict [("goal", JStr goal);
         ("capabilities", JList (map JStr capabilities));
         ("trust_level", JStr trust_level);
         ("created_at", JStr created_at)].

Definition spawned_event (capabilities : list string)
    (trust_level : string) (workflow_id : option string) (fresh_id : string)
  : Effect :=
  Published "agent.spawned"
    (JDict [("agent_id", JStr fresh_id);
            ("capabilities", JList (map JStr capabilities));
            ("trust_level", JStr trust_level);
            ("workflow_id",
             match workflow_id with
             | Some wid => JStr wid
             | None => JNull
             end)]).

(** One successful [spawn_agent], in full. *)
Lemma spawn_agent_quiet (capabilities : list string)
    (trust_level goal : string) (workflow_id : option string)
    (fresh_id : string) (level : TrustLevel) (s : Manager) :
  get_active_agent_count s < max_concurrent_agents s ->
  TrustLevel_of_value trust_level = Some level ->
  faults (world s) = [] ->
  spawn_agent capabilities trust_level goal workflow_id fresh_id s
  = (Ok (spawned capabilities level goal workflow_id fresh_id),
     mkManager (max_concurrent_agents s)
       (<[fresh_id := spawned capabilities level goal workflow_id fresh_id]>
          (active_agents s))
       (mkWorld []
          (<[_agent_key fresh_id :=
               agent_memory capabilities trust_level goal (clock (world s))]>
             (kv (world s)))
          (trace (world s)
           ++ [spawned_event capabilities trust_level workflow_id fresh_id])
          (clock (world s)))).
Proof.
  intros Hroom Hlevel Hq.
  unfold spawn_agent, bind, get, get_active_agent_count in *.
  assert (Hcap : Z.geb (Z.of_nat (size (active_agents s)))
                       (max_concurrent_agents s) = false).
  { rewrite Z.geb_leb. apply Z.leb_gt. exact Hroom. }
  rewrite Hcap, Hlevel.
  unfold set_active, modify, in_world, utcnow_isoformat, store_agent_memory.
  cbn [world active_agents max_concurrent_agents].
  rewrite (setex_quiet _ _ (world s) Hq).
  cbn [world active_agents max_concurrent_agents].
  rewrite publish_quiet by reflexivity.
  unfold ret. cbn [kv trace clock faults].
  rewrite alter_insert_eq. reflexivity.
Qed.

(** X1.  With room under the ceiling, a valid trust level and
    collaborators that answer, [spawn_agent] returns an agent that is
    READY, carries the tool list of its trust level and an empty failure
    history, is the entry of the active set under its identifier, and has
    its memory snapshot in the store; the other entries are untouched and
    a fresh identifier makes the count grow by exactly one. *)
Theorem spawn_agent_registers :
  forall (capabilities : list string) (trust_level goal : string)
         (workflow_id : option string) (fresh_id : string)
         (level : TrustLevel) (s : Manager),
    get_active_agent_count s < max_concurrent_agents s ->
    TrustLevel_of_value trust_level = Some level ->
    faults (world s) = [] ->
    exists agent s',
      spawn_agent capabilities trust_level goal workflow_id fresh_id s
      = (Ok agent, s')
      /\ agent_id agent = fresh_id
      /\ status agent = READY
      /\ Models.trust_level agent = level
      /\ allowed_tools agent = _get_allowed_tools level
      /\ Models.capabilities agent = capabilities
      /\ Models.goal agent = goal
      /\ failure_history agent = []
      /\ active_agents s' !! fresh_id = Some agent
      /\ (forall other, other <> fresh_id ->
            active_agents s' !! other = active_agents s !! other)
      /\ kv (world s') !! _agent_key fresh_id
         = Some (agent_memory capabilities trust_level goal (clock (world s)))
      /\ max_concurrent_agents s' = max_concurrent_agents s
      /\ (active_agents s !! fresh_id = None ->
          get_active_agent_count s' = get_active_agent_count s + 1).
Proof.
  intros caps t g wid id level s Hroom Hlevel Hq.
  eexists _, _. split; [apply spawn_agent_quiet; eassumption|].
  cbn [active_agents world kv max_concurrent_agents].
  repeat split.
  - apply lookup_insert_eq.
  - intros other Hne. apply lookup_insert_ne. congruence.
  - apply lookup_insert_eq.
  - intros Hnew. unfold get_active_agent_count. cbn [active_agents].
    rewrite map_size_insert_None by exact Hnew. lia.
Qed.

Definition empty_manager : Manager :=
  AgentManager.init (mkWorld [] ∅ [] "2024-01-01T00:00:00") 10.

Lemma spawn_agent_registers_witness :
  exists agent s',
    spawn_agent ["compute"] "elevated" "index the logs" (Some "wf-1")
                "agent-1" empty_manager
    = (Ok agent, s')
    /\ agent_id agent = "agent-1"
    /\ status agent = READY
    /\ Models.trust_level agent = ELEVATED
    /\ allowed_tools agent = _get_allowed_tools ELEVATED
    /\ Models.capabilities agent = ["compute"]
    /\ Models.goal agent = "index the logs"
    /\ failure_history agent = []
    /\ active_agents s' !! "agent-1" = Some agent
    /\ (forall other, other <> "agent-1" ->
          active_agents s' !! other = active_agents empty_manager !! other)
    /\ kv (world s') !! _agent_key "agent-1"
       = Some (agent_memory ["compute"] "elevated" "index the logs"
                            (clock (world empty_manager)))
    /\ max_concurrent_agents s' = max_concurrent_agents empty_manager
    /\ (active_agents empty_manager !! "agent-1" = None ->
        get_active_agent_count s' = get_active_agent_count empty_manager + 1).
Proof.
  apply (spawn_agent_registers ["compute"] "elevated" "index the logs"
           (Some "wf-1") "agent-1" ELEVATED empty_manager).
  - vm_compute. reflexivity.
  - reflexivity.
  - reflexivity.
Defined.

(** X2.  A [spawn_agent] that fails after the capacity check does not
    always leave the manager as it was.  An unknown trust level raises
    the ValueError of the enum, whose text quotes the value as [repr]
    does, before anything is written.  But when Redis refuses the memory
    snapshot, the agent is already in the active set: the call raises the
    Redis error and the agent stays registered, still INITIALIZING, and
    counts against the ceiling. *)
Theorem spawn_agent_failure_modes :
  forall (capabilities : list string) (trust_level goal : string)
         (workflow_id : option string) (fresh_id : string) (s : Manager),
    get_active_agent_count s < max_concurrent_agents s ->
    (TrustLevel_of_value trust_level = None ->
     spawn_agent capabilities trust_level goal workflow_id fresh_id s
     = (Raise (repr_str trust_level ++ " is not a valid TrustLevel")%string,
        s))
    /\ (forall level msg fs,
          TrustLevel_of_value trust_level = Some level ->
          faults (world s) = Some msg :: fs ->
          exists s',
            spawn_agent capabilities trust_level goal workflow_id fresh_id s
            = (Raise msg, s')
            /\ active_agents s' !! fresh_id
               = Some (set_status INITIALIZING
                         (spawned capabilities level goal workflow_id
                                  fresh_id))
            /\ kv (world s') = kv (world s)
            /\ trace (world s') = trace (world s)
            /\ (active_agents s !! fresh_id = None ->
                get_active_agent_count s' = get_active_agent_count s + 1)).
Proof.
  intros caps t g wid id s Hroom.
  assert (Hcap : Z.geb (Z.of_nat (size (active_agents s)))
                       (max_concurrent_agents s) = false).
  { rewrite Z.geb_leb. apply Z.leb_gt. exact Hroom. }
  split.
  - intros Hbad. unfold spawn_agent, bind, get. rewrite Hcap, Hbad.
    reflexivity.
  - intros level msg fs Hlevel Hf.
    unfold spawn_agent, bind, get. rewrite Hcap, Hlevel.
    unfold set_active, modify, in_world, utcnow_isoformat,
      store_agent_memory, setex, bind, redis_call.
    cbn [world active_agents max_concurrent_agents]. rewrite Hf.
    eexists. split; [reflexivity|].
    cbn [world active_agents kv trace].
    split; [apply lookup_insert_eq|]. split; [reflexivity|].
    split; [reflexivity|].
    intros Hnew. unfold get_active_agent_count. cbn [active_agents].
    rewrite map_size_insert_None by exact Hnew. lia.
Qed.

Lemma spawn_agent_failure_modes_witness :
  exists s',
    spawn_agent ["compute"] "standard" "index the logs" None "agent-1"
      (AgentManager.init
         (mkWorld [Some "connection refused"] ∅ [] "2024-01-01T00:00:00") 1)
    = (Raise "connection refused", s')
    /\ get_active_agent_count s' = 1
    /\ (spawn_agent ["compute"] "standard" "try again" None "agent-2" s').1
       = Raise "Maximum concurrent agents (1) reached"
    /\ spawn_agent ["compute"] "root" "index the logs" None "agent-1"
         empty_manager
       = (Raise "'root' is not a valid TrustLevel", empty_manager).
Proof.
  pose proof (spawn_agent_failure_modes ["compute"] "standard"
                "index the logs" None "agent-1"
                (AgentManager.init
                   (mkWorld [Some "connection refused"] ∅ []
                            "2024-01-01T00:00:00") 1)) as H.
  destruct H as [_ H]; [vm_compute; reflexivity|].
  destruct (H STANDARD "connection refused" [] eq_refl eq_refl)
    as (s' & Hrun & _ & _ & _ & Hcount).
  exists s'. split; [exact Hrun|].
  assert (Hs' : s' = (spawn_agent ["compute"] "standard" "index the logs"
                        None "agent-1"
                        (AgentManager.init
                           (mkWorld [Some "connection refused"] ∅ []
                              "2024-01-01T00:00:00") 1)).2)
    by (rewrite Hrun; reflexivity).
  rewrite Hs'. split; [vm_compute; reflexivity|].
  split; [vm_compute; reflexivity|].
  destruct (spawn_agent_failure_modes ["compute"] "root" "index the logs"
              None "agent-1" empty_manager) as [Hbad _];
    [vm_compute; reflexivity|].
  exact (Hbad eq_refl).
Defined.

Definition retired_event (agent_id reason : string) : Effect :=
  Published "agent.retired"
    (JDict [("agent_id", JStr agent_id); ("reason", JStr reason)]).

(** One run of [retire_agent] on an active agent, with collaborators
    that answer. *)
Lemma retire_agent_quiet (agent_id reason : string) (agent : Agent)
    (s : Manager) :
  active_agents s !! agent_id = Some agent ->
  faults (world s) = [] ->
  retire_agent agent_id reason s
  = (Ok tt,
     mkManager (max_concurrent_agents s)
       (delete agent_id (active_agents s))
       (mkWorld [] (delete (_agent_key agent_id) (kv (world s)))
          (trace (world s) ++ [retired_event agent_id reason])
          (clock (world s)))).
Proof.
  intros Hin Hq.
  unfold retire_agent, bind, get. rewrite Hin.
  unfold set_active, modify, in_world, get_agent_memory,
    clear_agent_memory.
  cbn [world active_agents max_concurrent_agents].
  rewrite (getkey_quiet _ (world s) Hq).
  cbn [world active_agents max_concurrent_agents].
  rewrite (delkey_quiet _ (world s) Hq).
  cbn [world active_agents max_concurrent_agents].
  rewrite publish_quiet by reflexivity.
  cbn [kv trace clock faults].
  rewrite delete_alter_eq. reflexivity.
Qed.

(** X3.  Retiring an active agent, with collaborators that answer,
    removes it from the active set and deletes its memory from the
    store; one [agent.retired] event carries the reason; the count drops
    by one and the other agents are untouched. *)
Theorem retire_agent_removes :
  forall (agent_id reason : string) (agent : Agent) (s : Manager),
    active_agents s !! agent_id = Some agent ->
    faults (world s) = [] ->
    retire_agent agent_id reason s
    = (Ok tt,
       mkManager (max_concurrent_agents s)
         (delete agent_id (active_agents s))
         (mkWorld [] (delete (_agent_key agent_id) (kv (world s)))
            (trace (world s) ++ [retired_event agent_id reason])
            (clock (world s))))
    /\ get_active_agent_count (retire_agent agent_id reason s).2
       = get_active_agent_count s - 1.
Proof.
  intros id reason agent s Hin Hq.
  pose proof (retire_agent_quiet id reason agent s Hin Hq) as Hrun.
  split; [exact Hrun|]. rewrite Hrun.
  unfold get_active_agent_count. cbn [snd active_agents].
  rewrite map_size_delete, Hin. simpl.
  assert (size (active_agents s) <> 0)%nat.
  { apply map_size_non_empty_iff. intros Hempty. rewrite Hempty in Hin.
    rewrite lookup_empty in Hin. discriminate. }
  lia.
Qed.

Definition one_agent : Manager :=
  (spawn_agent ["compute"] "standard" "index the logs" None "agent-1"
               empty_manager).2.

Lemma retire_agent_removes_witness :
  get_active_agent_count (retire_agent "agent-1" "completed" one_agent).2
  = get_active_agent_count one_agent - 1.
Proof.
  eapply (retire_agent_removes "agent-1" "completed" _ one_agent).
  - vm_compute. reflexivity.
  - reflexivity.
Defined.

(** X4.  Retiring is idempotent.  Retiring an identifier that is not
    active returns normally and touches nothing, neither the manager nor
    a collaborator; and once a [retire_agent] has returned normally,
    retiring the same identifier again, for whatever reason, is such a
    no-op. *)
Theorem retire_agent_idempotent :
  forall (agent_id reason reason' : string) (s s' : Manager),
    (active_agents s !! agent_id = None ->
     retire_agent agent_id reason s = (Ok tt, s))
    /\ (retire_agent agent_id reason s = (Ok tt, s') ->
        retire_agent agent_id reason' s' = (Ok tt, s')).
Proof.
  intros id reason reason' s s'.
  assert (Hnoop : forall r t, active_agents t !! id = None ->
                              retire_agent id r t = (Ok tt, t)).
  { intros r t Hnone. unfold retire_agent, bind, get. rewrite Hnone.
    reflexivity. }
  split; [apply Hnoop|].
  intros Hrun. apply Hnoop.
  unfold retire_agent, bind, get in Hrun.
  destruct (active_agents s !! id) as [a|] eqn:Hin.
  - unfold set_active, modify, in_world in Hrun.
    cbn [world active_agents max_concurrent_agents] in Hrun.
    destruct (get_agent_memory id (world s)) as [[m|e1] w1];
      [|discriminate].
    cbn [world active_agents max_concurrent_agents] in Hrun.
    destruct (clear_agent_memory id w1) as [[[]|e2] w2]; [|discriminate].
    cbn [world active_agents max_concurrent_agents] in Hrun.
    match type of Hrun with
    | context [publish ?t ?p ?w] =>
        destruct (publish t p w) as [[[]|e3] w3]; [|discriminate]
    end.
    inversion Hrun; subst. cbn [active_agents]. apply lookup_delete_eq.
  - inversion Hrun; subst. exact Hin.
Qed.

Lemma retire_agent_idempotent_witness :
  retire_agent "agent-1" "failed"
    (retire_agent "agent-1" "completed" one_agent).2
  = (Ok tt, (retire_agent "agent-1" "completed" one_agent).2).
Proof.
  destruct (retire_agent_idempotent "agent-1" "completed" "failed" one_agent
              (retire_agent "agent-1" "completed" one_agent).2) as [_ H].
  apply H. vm_compute. reflexivity.
Defined.

(** The agent that replaces [old]. *)
Definition replacement (old : Agent) (reason failure_id fresh_id : string)
  : Agent :=
  set_failure_history
    (failure_history old
     ++ [mkFailureRecord failure_id "agent_failure" reason
                         "agent_replacement" true])
    (spawned (capabilities old) (trust_level old) (goal old) None fresh_id).

(** X5.  [replace_agent] on an identifier that is not active raises
    "Agent ... not found" and changes nothing.  On an active agent, in a
    manager within its ceiling and with collaborators that answer, it
    returns a READY agent with the capabilities, trust level and goal of
    the old one, whose failure history is the old history followed by
    the record of this replacement; the old entry is gone, the new one is
    in the active set, and the count is what it was.  Because the old
    agent is retired first, this works at the ceiling too. *)
Theorem replace_agent_swaps :
  forall (agent_id reason failure_id fresh_id : string) (s : Manager),
    (active_agents s !! agent_id = None ->
     replace_agent agent_id reason failure_id fresh_id s
     = (Raise ("Agent " ++ agent_id ++ " not found")%string, s))
    /\ (forall old,
          active_agents s !! agent_id = Some old ->
          get_active_agent_count s <= max_concurrent_agents s ->
          faults (world s) = [] ->
          let new := replacement old reason failure_id fresh_id in
          exists s',
            replace_agent agent_id reason failure_id fresh_id s = (Ok new, s')
            /\ Models.capabilities new = Models.capabilities old
            /\ Models.trust_level new = Models.trust_level old
            /\ Models.goal new = Models.goal old
            /\ status new = READY
            /\ failure_history new
               = failure_history old
                 ++ [mkFailureRecord failure_id "agent_failure" reason
                                     "agent_replacement" true]
            /\ active_agents s'
               = <[fresh_id := new]> (delete agent_id (active_agents s))
            /\ max_concurrent_agents s' = max_concurrent_agents s
            /\ (active_agents s !! fresh_id = None \/ fresh_id = agent_id ->
                get_active_agent_count s' = get_active_agent_count s)).
Proof.
  intros id reason fid fresh s. split.
  - intros Hnone. unfold replace_agent, bind, get. rewrite Hnone.
    reflexivity.
  - intros old Hin Hceil Hq new.
    pose proof (retire_agent_quiet id "replaced" old s Hin Hq) as Hretire.
    assert (Hcount : get_active_agent_count
                       (mkManager (max_concurrent_agents s)
                          (delete id (active_agents s))
                          (mkWorld [] (delete (_agent_key id) (kv (world s)))
                             (trace (world s) ++ [retired_event id "replaced"])
                             (clock (world s))))
                     = get_active_agent_count s - 1).
    { unfold get_active_agent_count. cbn [active_agents].
      rewrite map_size_delete, Hin. simpl.
      assert (size (active_agents s) <> 0)%nat.
      { apply map_size_non_empty_iff. intros Hempty. rewrite Hempty in Hin.
        rewrite lookup_empty in Hin. discriminate. }
      lia. }
    unfold replace_agent, bind, get. rewrite Hin, Hretire.
    erewrite (spawn_agent_quiet _ _ _ None fresh (trust_level old));
      [|cbn [max_concurrent_agents]; lia|apply TrustLevel_value_inv
       |reflexivity].
    unfold set_active, modify, in_world.
    cbn [world active_agents max_concurrent_agents].
    rewrite publish_quiet by reflexivity.
    unfold ret. cbn [kv trace clock faults].
    rewrite alter_insert_eq.
    eexists. split; [reflexivity|].
    cbn [active_agents max_concurrent_agents].
    repeat split.
    intros Hfresh. unfold get_active_agent_count. cbn [active_agents].
    assert (Hpos : size (active_agents s) <> 0%nat).
    { apply map_size_non_empty_iff. intros Hempty. rewrite Hempty in Hin.
      rewrite lookup_empty in Hin. discriminate. }
    destruct (decide (fresh = id)) as [->|Hne].
    + rewrite insert_delete_eq, map_size_insert_Some; [reflexivity|].
      rewrite Hin. eexists. reflexivity.
    + destruct Hfresh as [Hfresh|Hfresh]; [|congruence].
      rewrite map_size_insert_None
        by (rewrite lookup_delete_ne by congruence; exact Hfresh).
      rewrite map_size_delete, Hin. simpl. lia.
Qed.

(** A manager filled to its ceiling of one. *)
Definition full_manager : Manager :=
  (spawn_agent ["compute"] "standard" "index the logs" None "agent-1"
     (AgentManager.init (mkWorld [] ∅ [] "2024-01-01T00:00:00") 1)).2.

Lemma replace_agent_swaps_witness :
  exists s',
    replace_agent "agent-1" "stuck" "failure-1" "agent-2" full_manager
    = (Ok (replacement (spawned ["compute"] STANDARD "index the logs" None
                                "agent-1")
                       "stuck" "failure-1" "agent-2"), s')
    /\ get_active_agent_count s' = get_active_agent_count full_manager.
Proof.
  destruct (replace_agent_swaps "agent-1" "stuck" "failure-1" "agent-2"
              full_manager) as [_ H].
  destruct (H (spawned ["compute"] STANDARD "index the logs" None "agent-1"))
    as (s' & Hrun & _ & _ & _ & _ & _ & _ & _ & Hcount).
  - vm_compute. reflexivity.
  - vm_compute. discriminate.
  - reflexivity.
  - exists s'. split; [exact Hrun|]. apply Hcount. left.
    vm_compute. reflexivity.
Defined.

End LifecycleSpec.

(** ** More of [autoos/execution/intelligence_fabric.py] *)

Module FabricMore.

Import Text Models Fabric.

(** [ModelCapabilityRegistry.get_provider]. *)
Definition get_provider (provider_name model_name : string) (fb : Fabric)
  : option LLMProvider :=
  dict_get (provider_name ++ ":" ++ model_name) (providers fb).

(** [str(role)] inside an f-string, as Python 3.11 and later format a
    member of a [str]-mixin [Enum]. *)
Definition str_of_role (r : LLMRole) : string :=
  "LLMRole."
  ++ match r with
     | PLANNER => "PLANNER"
     | EXECUTOR => "EXECUTOR"
     | VERIFIER => "VERIFIER"
     | AUDITOR => "AUDITOR"
     | SYNTHESIZER => "SYNTHESIZER"
     end.

(** [IntelligenceFabric.route_task]. *)
Definition route_task (task : Task) (role : LLMRole) : M Fabric LLMProvider :=
  (fb <- get ;;
   match get_providers_by_role role fb with
   | [] => raise ("No providers available for role " ++ str_of_role role)
   | selected :: _ => ret selected
   end)%eff.

(** [IntelligenceFabric.detect_hallucination]; the [context] argument is
    not read. *)
Definition hallucination_markers : list string :=
  ["i'm not sure"; "i don't know"; "i cannot verify";
   "this might be incorrect"].

Definition detect_hallucination (r : LLMResponse) : bool :=
  Qlt_bool (response_confidence r) (5 # 10)
  || contains_any hallucination_markers (lower (response r)).

(** [IntelligenceFabric.calculate_confidence]. *)
Definition calculate_confidence (r : LLMResponse) : Q :=
  response_confidence r.

(** The loop of [execute_critical_task] over the top two providers: a
    response is appended on success, a failure is logged and dropped. *)
Fixpoint collect_responses (ps : list LLMProvider) (prompt : string)
    (role : LLMRole) (responses : list LLMResponse)
  : M Fabric (list LLMResponse) :=
  match ps with
  | [] => ret responses
  | p :: ps' =>
      (responses' <-
         try_except
           (r <- call_llm p prompt role ;; ret (responses ++ [r])%list)
           (fun _ => ret responses) ;;
       collect_responses ps' prompt role responses')%eff
  end.

(** [IntelligenceFabric.execute_critical_task]. *)
Definition execute_critical_task (task : Task) (role : LLMRole)
  : M Fabric (option LLMResponse) :=
  (fb <- get ;;
   let top2 := firstn 2 (get_providers_by_role role fb) in
   responses <- collect_responses top2 (task_prompt task) role [] ;;
   match responses with
   | [] => raise "No providers succeeded for critical task"
   | _ => ret (selected_response (cross_verify task responses))
   end)%eff.

End FabricMore.

(** ** Ranking and routing *)

Module RankingSpec.

Import Text Models Fabric FabricMore.

Local Open Scope list_scope.

(** The order of the sort keys, as a proposition: lexicographic on
    [(-reliability_score, cost_per_token, avg_latency)]. *)
Definition key_le (x y : Q * Q * Q) : Prop :=
  let '(x1, x2, x3) := x in
  let '(y1, y2, y3) := y in
  (x1 < y1 \/ (x1 == y1 /\ (x2 < y2 \/ (x2 == y2 /\ x3 <= y3))))%Q.

(** [p] may stand before [q] in the sorted list. *)
Definition ranks_before (p q : LLMProvider) : Prop :=
  key_le (sort_key p) (sort_key q).

(** A provider that [get_providers_by_role] keeps for the role. *)
Definition suitable (r : LLMRole) (p : LLMProvider) : bool :=
  existsb (fun m => contains m (model_name p)) (role_preferences r).

Lemma Qlt_bool_true (x y : Q) : Qlt_bool x y = true -> (x < y)%Q.
Proof. apply CrossVerifySpec.Qlt_bool_iff. Qed.

Lemma Qlt_bool_false (x y : Q) : Qlt_bool x y = false -> (y <= x)%Q.
Proof. apply CrossVerifySpec.Qlt_bool_false_iff. Qed.

Lemma Qeq_bool_true (x y : Q) : Qeq_bool x y = true -> (x == y)%Q.
Proof. apply Qeq_bool_iff. Qed.

Lemma Qeq_bool_false (x y : Q) : Qeq_bool x y = false -> ~ (x == y)%Q.
Proof. intros H E. apply Qeq_bool_iff in E. congruence. Qed.

(** Turn the tests of [key_lt] into facts about the rationals. *)
Ltac test_to_fact :=
  repeat match goal with
  | H : Qlt_bool _ _ = true |- _ => apply Qlt_bool_true in H
  | H : Qlt_bool _ _ = false |- _ => apply Qlt_bool_false in H
  | H : Qeq_bool _ _ = true |- _ => apply Qeq_bool_true in H
  | H : Qeq_bool _ _ = false |- _ => apply Qeq_bool_false in H
  end.

Lemma key_lt_false (x y : Q * Q * Q) :
  key_lt y x = false <-> key_le x y.
Proof.
  destruct x as [[x1 x2] x3], y as [[y1 y2] y3]. unfold key_lt, key_le.
  destruct (Qlt_bool y1 x1) eqn:A, (Qeq_bool y1 x1) eqn:B,
    (Qlt_bool y2 x2) eqn:C, (Qeq_bool y2 x2) eqn:D,
    (Qlt_bool y3 x3) eqn:E; cbn [orb andb]; test_to_fact;
    (split; [intros Hb; try discriminate Hb | intros Hp; try reflexivity]);
    try (exfalso; lra);
    try (destruct Hp as [Hp|[Hp [Hp'|[Hp' Hp'']]]]; exfalso; lra);
    try (left; lra);
    try (right; split; [lra|]; first [left; lra | right; split; lra]).
Qed.

Lemma key_lt_true (x y : Q * Q * Q) :
  key_lt x y = true -> key_le x y.
Proof.
  destruct x as [[x1 x2] x3], y as [[y1 y2] y3]. unfold key_lt, key_le.
  destruct (Qlt_bool x1 y1) eqn:A, (Qeq_bool x1 y1) eqn:B,
    (Qlt_bool x2 y2) eqn:C, (Qeq_bool x2 y2) eqn:D,
    (Qlt_bool x3 y3) eqn:E; cbn [orb andb]; test_to_fact;
    intros Hb; try discriminate Hb;
    try (left; lra);
    try (right; split; [lra|]; first [left; lra | right; split; lra]).
Qed.

Lemma key_le_trans (x y z : Q * Q * Q) :
  key_le x y -> key_le y z -> key_le x z.
Proof.
  destruct x as [[x1 x2] x3], y as [[y1 y2] y3], z as [[z1 z2] z3].
  unfold key_le.
  intros [H|[H [H'|[H' H'']]]] [K|[K [K'|[K' K'']]]];
    first [ left; lra
          | right; split; [lra|];
            first [left; lra | right; split; lra] ].
Qed.

Lemma ranks_before_trans (p q r : LLMProvider) :
  ranks_before p q -> ranks_before q r -> ranks_before p r.
Proof. apply key_le_trans. Qed.

Lemma insert_by_key_perm (p : LLMProvider) (l : list LLMProvider) :
  Permutation (insert_by_key p l) (p :: l).
Proof.
  induction l as [|q l IH]; cbn [insert_by_key]; [reflexivity|].
  destruct (key_lt (sort_key p) (sort_key q)); [reflexivity|].
  rewrite IH. apply perm_swap.
Qed.

Lemma insert_by_key_sorted (p : LLMProvider) (l : list LLMProvider) :
  StronglySorted ranks_before l ->
  StronglySorted ranks_before (insert_by_key p l).
Proof.
  induction l as [|q l IH]; intros Hs; cbn [insert_by_key].
  - constructor; constructor.
  - inversion Hs as [|q' l' Hl Hq]; subst.
    destruct (key_lt (sort_key p) (sort_key q)) eqn:E.
    + apply key_lt_true in E.
      constructor; [exact Hs|]. constructor; [exact E|].
      eapply Forall_impl; [exact Hq|].
      intros r Hr. eapply ranks_before_trans; [exact E|exact Hr].
    + apply key_lt_false in E.
      constructor; [apply IH, Hl|].
      rewrite (insert_by_key_perm p l). constructor; assumption.
Qed.

Lemma sort_by_key_spec (ps : list LLMProvider) :
  forall acc,
    StronglySorted ranks_before acc ->
    let sorted := fold_left (fun s p => insert_by_key p s) ps acc in
    StronglySorted ranks_before sorted /\ Permutation sorted (acc ++ ps).
Proof.
  induction ps as [|p ps IH]; intros acc Hs; cbn [fold_left].
  - rewrite app_nil_r. split; [exact Hs|reflexivity].
  - destruct (IH (insert_by_key p acc) (insert_by_key_sorted p acc Hs))
      as [Hsorted Hperm].
    split; [exact Hsorted|].
    rewrite Hperm, (insert_by_key_perm p acc).
    cbn [app]. apply Permutation_middle.
Qed.

Lemma registered_iff (p : LLMProvider) (fb : Fabric) :
  p ∈ map snd (providers fb) <-> exists k, (k, p) ∈ providers fb.
Proof.
  rewrite list_elem_of_In, in_map_iff. split.
  - intros [[k q] [Hq Hin]]. simpl in Hq. subst q. exists k.
    apply list_elem_of_In, Hin.
  - intros [k Hin]. exists (k, p). split; [reflexivity|].
    apply list_elem_of_In, Hin.
Qed.

Lemma ranked_iff (r : LLMRole) (fb : Fabric) (p : LLMProvider) :
  p ∈ get_providers_by_role r fb
  <-> suitable r p = true /\ exists k, (k, p) ∈ providers fb.
Proof.
  unfold get_providers_by_role, sort_by_key.
  destruct (sort_by_key_spec
              (filter (fun p => suitable r p) (map snd (providers fb))) [])
    as [_ Hperm]; [constructor|].
  cbn [app] in Hperm.
  rewrite (elem_of_Permutation_proper _ _ _ Hperm).
  rewrite list_elem_of_filter, registered_iff, Is_true_true. reflexivity.
Qed.

Lemma ranked_sorted_perm (r : LLMRole) (fb : Fabric) :
  StronglySorted ranks_before (get_providers_by_role r fb)
  /\ Permutation (get_providers_by_role r fb)
       (filter (fun p => suitable r p) (map snd (providers fb))).
Proof.
  destruct (sort_by_key_spec
              (filter (fun p => suitable r p) (map snd (providers fb))) [])
    as [Hsorted Hperm]; [constructor|].
  cbn [app] in Hperm. split; [exact Hsorted|exact Hperm].
Qed.

Lemma ranked_head_best (r : LLMRole) (fb : Fabric)
    (first : LLMProvider) (rest : list LLMProvider) (p : LLMProvider) :
  get_providers_by_role r fb = first :: rest ->
  p ∈ first :: rest ->
  ranks_before first p
  /\ (reliability_score p <= reliability_score first)%Q.
Proof.
  intros Hranked Hin.
  destruct (ranked_sorted_perm r fb) as [Hsorted _].
  rewrite Hranked in Hsorted.
  inversion Hsorted as [|f l Hl Hf]; subst f l.
  apply elem_of_cons in Hin as [->|Hin].
  - split; [|apply Qle_refl].
    unfold ranks_before, key_le, sort_key. right. split; [lra|].
    right. split; [lra|]. lra.
  - rewrite Forall_forall in Hf. specialize (Hf p Hin).
    split; [exact Hf|].
    unfold ranks_before, sort_key, key_le in Hf.
    destruct Hf as [Hf|[Hf _]]; lra.
Qed.

(** X6.  The ranking of a role is exactly the registered providers whose
    model name contains one of the role's preferred models, each as often
    as it is registered, in an order where every provider stands before
    the providers it precedes lexicographically by higher reliability,
    then lower cost, then lower latency; so no ranked provider is more
    reliable than the first. *)
Theorem ranking_is_sorted :
  forall (r : LLMRole) (fb : Fabric),
    let ranked := get_providers_by_role r fb in
    Permutation ranked
      (filter (fun p => suitable r p) (map snd (providers fb)))
    /\ StronglySorted ranks_before ranked
    /\ (forall p, p ∈ ranked
                  <-> suitable r p = true /\ exists k, (k, p) ∈ providers fb)
    /\ (forall first rest p,
          ranked = first :: rest -> p ∈ ranked ->
          (reliability_score p <= reliability_score first)%Q).
Proof.
  intros r fb ranked.
  destruct (ranked_sorted_perm r fb) as [Hsorted Hperm].
  split; [exact Hperm|]. split; [exact Hsorted|].
  split; [apply ranked_iff|].
  intros first rest p Hranked Hin. subst ranked. rewrite Hranked in Hin.
  apply (ranked_head_best r fb first rest p Hranked Hin).
Qed.

(** X7.  [route_task] fails, without touching the fabric, exactly when
    no registered provider suits the role; otherwise it returns a
    registered provider that suits the role and that no other suitable
    provider outranks: none is more reliable. *)
Theorem route_task_selects_best :
  forall (task : Task) (r : LLMRole) (fb : Fabric),
    ((forall k p, (k, p) ∈ providers fb -> suitable r p = false) ->
     route_task task r fb
     = (Raise ("No providers available for role " ++ str_of_role r)%string,
        fb))
    /\ (forall k p,
          (k, p) ∈ providers fb -> suitable r p = true ->
          exists selected,
            route_task task r fb = (Ok selected, fb)
            /\ suitable r selected = true
            /\ (exists k', (k', selected) ∈ providers fb)
            /\ (forall k' q,
                  (k', q) ∈ providers fb -> suitable r q = true ->
                  ranks_before selected q
                  /\ (reliability_score q <= reliability_score selected)%Q)).
Proof.
  intros task r fb. unfold route_task, bind, get. split.
  - intros Hnone.
    destruct (get_providers_by_role r fb) as [|first rest] eqn:E;
      [reflexivity|].
    assert (Hin : first ∈ get_providers_by_role r fb)
      by (rewrite E; left).
    apply ranked_iff in Hin as [Hs [k Hk]].
    rewrite (Hnone k first Hk) in Hs. discriminate.
  - intros k p Hk Hs.
    assert (Hin : p ∈ get_providers_by_role r fb)
      by (apply ranked_iff; eauto).
    destruct (get_providers_by_role r fb) as [|first rest] eqn:E.
    { apply elem_of_nil in Hin. destruct Hin. }
    exists first. split; [reflexivity|].
    assert (Hfirst : first ∈ get_providers_by_role r fb)
      by (rewrite E; left).
    apply ranked_iff in Hfirst as [Hsf Hkf].
    split; [exact Hsf|]. split; [exact Hkf|].
    intros k' q Hk' Hsq.
    apply (ranked_head_best r fb first rest q E).
    rewrite <- E. apply ranked_iff. eauto.
Qed.

End RankingSpec.

(** ** Confidence, hallucination flags and the registry *)

Module FabricSpec.

Import Text Models Fabric FabricMore.

Local Open Scope list_scope.

(** [r] is what [call_llm] builds from a reply of one of [ps]. *)
Definition answer_of (ps : list LLMProvider) (prompt : string)
    (role : LLMRole) (r : LLMResponse) : Prop :=
  exists p text tokens seconds created,
    p ∈ ps
    /\ r = FallbackSpec.response_of p prompt role text tokens seconds created.

(** The heuristic stays between one half and nine tenths: the penalty
    for a short text and the bonus for a long one exclude each other. *)
Lemma _calculate_confidence_range (text : string) :
  ((5 # 10) <= _calculate_confidence text <= (9 # 10))%Q.
Proof.
  unfold _calculate_confidence.
  destruct (String.length text <? 50)%nat eqn:Hshort;
    destruct (500 <? String.length text)%nat eqn:Hlong;
    destruct (contains_any uncertainty_markers (lower text));
    try (apply Nat.ltb_lt in Hshort; apply Nat.ltb_lt in Hlong; lia);
    vm_compute; split; discriminate.
Qed.

Lemma answer_of_mono (ps qs : list LLMProvider) (prompt : string)
    (role : LLMRole) (r : LLMResponse) :
  (forall p, p ∈ ps -> p ∈ qs) ->
  answer_of ps prompt role r -> answer_of qs prompt role r.
Proof.
  intros Hsub (p & text & tokens & seconds & created & Hin & ->).
  exists p, text, tokens, seconds, created. split; [apply Hsub, Hin|].
  reflexivity.
Qed.

Lemma call_llm_answer (p : LLMProvider) (prompt : string) (role : LLMRole)
    (fb fb' : Fabric) (r : LLMResponse) :
  call_llm p prompt role fb = (Ok r, fb') -> answer_of [p] prompt role r.
Proof.
  rewrite FallbackSpec.call_llm_run.
  destruct (FallbackSpec.reachable fb p); [|discriminate].
  destruct (backend fb (provider_key p) prompt)
    as [text tokens seconds created|]; [|discriminate].
  intros [= <- _]. exists p, text, tokens, seconds, created.
  split; [left|reflexivity].
Qed.

Lemma fallback_loop_answer (prompt : string) (role : LLMRole)
    (ps : list LLMProvider) :
  forall last_error fb fb' r,
    fallback_loop ps prompt role last_error fb = (Ok r, fb') ->
    answer_of ps prompt role r.
Proof.
  induction ps as [|p ps IH]; intros last_error fb fb' r; cbn [fallback_loop].
  - discriminate.
  - unfold try_except.
    destruct (call_llm p prompt role fb) as [[a|e] fb1] eqn:E.
    + intros [= <- _]. apply call_llm_answer in E.
      eapply answer_of_mono; [|exact E].
      intros q Hq. apply list_elem_of_singleton in Hq. subst q. left.
    + intros H. apply IH in H.
      eapply answer_of_mono; [|exact H]. intros q Hq. right. exact Hq.
Qed.

(** The loop over the top providers of a critical task: it never
    raises, appends one response for each backend call that replied,
    and calls the backend of each provider at most once. *)
Lemma collect_responses_spec (prompt : string) (role : LLMRole)
    (ps : list LLMProvider) :
  forall responses fb,
    exists new extra fb',
      collect_responses ps prompt role responses fb
      = (Ok (responses ++ new), fb')
      /\ Forall (answer_of ps prompt role) new
      /\ backend_calls fb' = backend_calls fb ++ extra
      /\ (length new <= length extra <= length ps)%nat
      /\ Forall (fun k => k ∈ map provider_key ps) extra
      /\ sublist extra (map provider_key ps).
Proof.
  induction ps as [|p ps IH]; intros responses fb; cbn [collect_responses].
  - exists [], [], fb. unfold ret. rewrite !app_nil_r.
    repeat split; auto.
  - unfold bind at 1. unfold try_except, bind, ret.
    assert (Hweak : forall l, Forall (answer_of ps prompt role) l ->
                              Forall (answer_of (p :: ps) prompt role) l).
    { intros l Hl. eapply Forall_impl; [exact Hl|].
      intros r Hr. eapply answer_of_mono; [|exact Hr].
      intros q Hq. right. exact Hq. }
    assert (Hkeys : forall l,
              Forall (fun k => k ∈ map provider_key ps) l ->
              Forall (fun k => k ∈ map provider_key (p :: ps)) l).
    { intros l Hl. eapply Forall_impl; [exact Hl|].
      intros k Hk. cbn [map]. right. exact Hk. }
    destruct (call_llm p prompt role fb) as [[a|e] fb1] eqn:E.
    + pose proof (call_llm_answer _ _ _ _ _ _ E) as Ha.
      rewrite FallbackSpec.call_llm_run in E.
      destruct (FallbackSpec.reachable fb p); [|discriminate].
      destruct (backend fb (provider_key p) prompt); [|discriminate].
      injection E as _ <-.
      destruct (IH (responses ++ [a]) (FallbackSpec.after_backend fb p seconds true))
        as (new & extra & fb' & Hrun & Hnew & Hcalls & Hlen & Hex & Hsub).
      exists (a :: new), (provider_key p :: extra), fb'.
      split; [rewrite Hrun, <- app_assoc; reflexivity|].
      split.
      { constructor; [|apply Hweak, Hnew].
        eapply answer_of_mono; [|exact Ha].
        intros q Hq. apply list_elem_of_singleton in Hq. subst q. left. }
      split.
      { rewrite Hcalls. unfold FallbackSpec.after_backend.
        cbn [backend_calls]. rewrite <- app_assoc. reflexivity. }
      split; [cbn [length]; lia|].
      split; [constructor; [cbn [map]; left|apply Hkeys, Hex]|].
      cbn [map]. apply sublist_skip, Hsub.
    + rewrite FallbackSpec.call_llm_run in E.
      destruct (FallbackSpec.reachable fb p).
      * destruct (backend fb (provider_key p) prompt); [discriminate|].
        injection E as _ <-.
        destruct (IH responses (FallbackSpec.after_backend fb p 0 false))
          as (new & extra & fb' & Hrun & Hnew & Hcalls & Hlen & Hex & Hsub).
        exists new, (provider_key p :: extra), fb'.
        split; [exact Hrun|]. split; [apply Hweak, Hnew|].
        split.
        { rewrite Hcalls. unfold FallbackSpec.after_backend.
          cbn [backend_calls]. rewrite <- app_assoc. reflexivity. }
        split; [cbn [length]; lia|].
        split; [constructor; [cbn [map]; left|apply Hkeys, Hex]|].
        cbn [map]. apply sublist_skip, Hsub.
      * injection E as _ <-.
        destruct (IH responses fb)
          as (new & extra & fb' & Hrun & Hnew & Hcalls & Hlen & Hex & Hsub).
        exists new, extra, fb'.
        split; [exact Hrun|]. split; [apply Hweak, Hnew|].
        split; [exact Hcalls|].
        split; [cbn [length]; lia|]. split; [apply Hkeys, Hex|].
        cbn [map]. apply sublist_cons, Hsub.
Qed.

(** What [cross_verify] selects from a non-empty list is one of its
    responses, and none has a greater confidence. *)
Lemma cross_verify_selects (task : Task) (responses : list LLMResponse) :
  responses <> [] ->
  exists s, selected_response (cross_verify task responses) = Some s
            /\ s ∈ responses
            /\ (forall r, r ∈ responses ->
                  (response_confidence r <= response_confidence s)%Q).
Proof.
  intros Hne. destruct responses as [|first rest]; [congruence|].
  destruct rest as [|second rest].
  - exists first. split; [reflexivity|]. split; [left|].
    intros r Hr. apply list_elem_of_singleton in Hr. subst r.
    apply Qle_refl.
  - exists (max_confidence first (second :: rest)).
    split; [reflexivity|].
    apply (CrossVerifySpec.max_confidence_spec (second :: rest) first).
Qed.

(** One run of [execute_critical_task], in terms of its loop. *)
Lemma execute_critical_task_run (task : Task) (role : LLMRole) (fb : Fabric) :
  let top2 := firstn 2 (get_providers_by_role role fb) in
  exists responses extra fb',
    Forall (answer_of top2 (task_prompt task) role) responses
    /\ backend_calls fb' = backend_calls fb ++ extra
    /\ (length responses <= length extra <= 2)%nat
    /\ Forall (fun k => k ∈ map provider_key top2) extra
    /\ sublist extra (map provider_key top2)
    /\ execute_critical_task task role fb
       = match responses with
         | [] => (Raise "No providers succeeded for critical task", fb')
         | _ => (Ok (selected_response (cross_verify task responses)), fb')
         end.
Proof.
  intros top2.
  destruct (collect_responses_spec (task_prompt task) role top2 [] fb)
    as (new & extra & fb' & Hrun & Hnew & Hcalls & Hlen & Hex & Hsub).
  exists new, extra, fb'. split; [exact Hnew|]. split; [exact Hcalls|].
  split.
  { pose proof (firstn_le_length 2 (get_providers_by_role role fb)) as H2.
    fold top2 in H2. lia. }
  split; [exact Hex|]. split; [exact Hsub|].
  unfold execute_critical_task, bind, get. fold top2. rewrite Hrun.
  cbn [app]. destruct new; reflexivity.
Qed.

(** X8.  Whatever [call_llm], [execute_with_fallback] or
    [execute_critical_task] returns carries the confidence the heuristic
    gives its text, which lies between 0.5 and 0.9; so the
    low-confidence test of [detect_hallucination] never fires on it and
    the flag is exactly the presence of one of the four marker
    phrases. *)
Theorem returned_response_confidence
    (p : LLMProvider) (task : Task) (prompt : string) (role : LLMRole)
    (fb fb' : Fabric) (r : LLMResponse) :
  call_llm p prompt role fb = (Ok r, fb')
  \/ execute_with_fallback task role fb = (Ok r, fb')
  \/ execute_critical_task task role fb = (Ok (Some r), fb') ->
  response_confidence r = _calculate_confidence (response r)
  /\ ((5 # 10) <= response_confidence r <= (9 # 10))%Q
  /\ detect_hallucination r
     = contains_any hallucination_markers (lower (response r)).
Proof.
  intros Hrun.
  assert (Hcal : response_confidence r = _calculate_confidence (response r)).
  { assert (Hans : exists ps prompt', answer_of ps prompt' role r).
    { destruct Hrun as [H|[H|H]].
      - eexists _, _. eapply call_llm_answer, H.
      - unfold execute_with_fallback, bind, get in H.
        eexists _, _. eapply fallback_loop_answer, H.
      - destruct (execute_critical_task_run task role fb)
          as (responses & extra & fb1 & Hall & _ & _ & _ & _ & Heq).
        rewrite Heq in H. destruct responses as [|first rest];
          [discriminate|].
        destruct (cross_verify_selects task (first :: rest))
          as (s & Hs & Hin & _); [discriminate|].
        rewrite Hs in H. injection H as -> _.
        rewrite Forall_forall in Hall. eexists _, _. apply Hall, Hin. }
    destruct Hans as (ps & prompt' & q & text & tokens & seconds & created
                      & _ & ->).
    reflexivity. }
  split; [exact Hcal|].
  pose proof (_calculate_confidence_range (response r)) as Hrange.
  rewrite <- Hcal in Hrange. split; [exact Hrange|].
  unfold detect_hallucination.
  destruct (Qlt_bool (response_confidence r) (5 # 10)) eqn:Hlow;
    [|reflexivity].
  apply CrossVerifySpec.Qlt_bool_iff in Hlow. destruct Hrange. lra.
Qed.

(** Claude Haiku is down, GPT-3.5 answers the critical task. *)
Lemma returned_response_confidence_witness :
  let fb := init FallbackSpec.both_keys FallbackSpec.four_ids
                 FallbackSpec.haiku_down in
  let r := FallbackSpec.response_of FallbackSpec.gpt35_provider
             (task_prompt FallbackSpec.sample_task) EXECUTOR
             "The report is fine." 12 (3 # 2) "2024-01-01T00:00:05" in
  execute_critical_task FallbackSpec.sample_task EXECUTOR fb
  = (Ok (Some r),
     (execute_critical_task FallbackSpec.sample_task EXECUTOR fb).2)
  /\ response_confidence r = _calculate_confidence (response r)
  /\ ((5 # 10) <= response_confidence r <= (9 # 10))%Q
  /\ detect_hallucination r
     = contains_any hallucination_markers (lower (response r)).
Proof.
  intros fb r.
  assert (Hrun : execute_critical_task FallbackSpec.sample_task EXECUTOR fb
                 = (Ok (Some r),
                    (execute_critical_task FallbackSpec.sample_task
                       EXECUTOR fb).2))
    by (vm_compute; reflexivity).
  split; [exact Hrun|].
  apply (returned_response_confidence FallbackSpec.gpt35_provider
           FallbackSpec.sample_task "" EXECUTOR fb
           (execute_critical_task FallbackSpec.sample_task EXECUTOR fb).2 r).
  right. right. exact Hrun.
Defined.

(** X9.  [execute_critical_task] calls the backends of the two
    top-ranked providers at most, in the order of the ranking and each
    at most once: the backend calls it adds are a sublist of the keys of
    these two.  It returns the response of one of them to the task's
    prompt, never [None], and its only error is "No providers succeeded
    for critical task". *)
Theorem execute_critical_task_outcome :
  forall (task : Task) (role : LLMRole) (fb : Fabric),
    let top2 := firstn 2 (get_providers_by_role role fb) in
    let out := execute_critical_task task role fb in
    (exists extra,
        backend_calls out.2 = backend_calls fb ++ extra
        /\ sublist extra (map provider_key top2)
        /\ (length extra <= 2)%nat
        /\ Forall (fun k => k ∈ map provider_key top2) extra)
    /\ match out.1 with
       | Ok (Some r) => answer_of top2 (task_prompt task) role r
       | Ok None => False
       | Raise e => e = "No providers succeeded for critical task"
       end.
Proof.
  intros task role fb top2 out.
  destruct (execute_critical_task_run task role fb)
    as (responses & extra & fb1 & Hall & Hcalls & Hlen & Hex & Hsub & Heq).
  fold top2 in Hall, Hex, Hsub. subst out. rewrite Heq.
  assert (Hextra : exists extra0,
            backend_calls fb1 = backend_calls fb ++ extra0
            /\ sublist extra0 (map provider_key top2)
            /\ (length extra0 <= 2)%nat
            /\ Forall (fun k => k ∈ map provider_key top2) extra0).
  { exists extra. split; [exact Hcalls|]. split; [exact Hsub|].
    split; [lia|exact Hex]. }
  destruct responses as [|first rest]; cbn [fst snd].
  - split; [exact Hextra|reflexivity].
  - split; [exact Hextra|].
    destruct (cross_verify_selects task (first :: rest))
      as (s & Hs & Hin & _); [discriminate|].
    rewrite Hs. rewrite Forall_forall in Hall. apply Hall, Hin.
Qed.

Lemma list_eqb_refl (l : list string) : list_eqb String.eqb l l = true.
Proof.
  unfold list_eqb. rewrite Nat.eqb_refl. cbn [andb].
  induction l as [|x l IH]; [reflexivity|].
  cbn [combine forallb fst snd]. rewrite String.eqb_refl. exact IH.
Qed.

Lemma LLMProvider_eqb_refl (p : LLMProvider) : LLMProvider_eqb p p = true.
Proof.
  unfold LLMProvider_eqb.
  rewrite !String.eqb_refl, !Qeq_bool_refl, list_eqb_refl. reflexivity.
Qed.

Lemma LLMResponse_eqb_refl (r : LLMResponse) : LLMResponse_eqb r r = true.
Proof.
  unfold LLMResponse_eqb.
  rewrite LLMProvider_eqb_refl, !String.eqb_refl, !Qeq_bool_refl,
    Z.eqb_refl, bool_decide_eq_true_2 by reflexivity.
  reflexivity.
Qed.

(** The selected response is never reported as disagreeing. *)
Lemma disagreements_length (similarities : list Q) (s : LLMResponse)
    (l : list LLMResponse) :
  forall i,
    (length (disagreements similarities s i l) <= length l)%nat
    /\ (s ∈ l ->
        (length (disagreements similarities s i l) < length l)%nat).
Proof.
  induction l as [|r l IH]; intros i; cbn [disagreements].
  - split; [cbn; lia|]. intros H. apply elem_of_nil in H. destruct H.
  - destruct (IH (S i)) as [Hle Hlt]. rewrite length_app. cbn [length].
    destruct (LLMResponse_eqb r s) eqn:E; cbn [negb length].
    + split; [lia|]. intros _. lia.
    + split; [lia|]. intros Hin. apply elem_of_cons in Hin as [->|Hin].
      * rewrite LLMResponse_eqb_refl in E. discriminate.
      * specialize (Hlt Hin). lia.
Qed.

(** X10.  From a non-empty list [cross_verify] selects one of the
    responses, of a confidence no other exceeds; the reported
    confidence is the selected one's under consensus and half of it
    otherwise; discrepancies are listed only without consensus, and
    fewer of them than there are responses. *)
Theorem cross_verify_picks_most_confident
    (task : Task) (responses : list LLMResponse) :
  responses <> [] ->
  let v := cross_verify task responses in
  exists s,
    selected_response v = Some s
    /\ s ∈ responses
    /\ (forall r, r ∈ responses ->
          (response_confidence r <= response_confidence s)%Q)
    /\ verification_confidence v
       = (if consensus v then response_confidence s
          else response_confidence s * (5 # 10))%Q
    /\ (consensus v = true -> discrepancies v = [])
    /\ (length (discrepancies v) < length responses)%nat.
Proof.
  intros Hne v.
  destruct (cross_verify_selects task responses Hne) as (s & Hs & Hin & Hmax).
  exists s. split; [exact Hs|]. split; [exact Hin|]. split; [exact Hmax|].
  subst v. destruct responses as [|first rest]; [congruence|].
  destruct rest as [|second rest].
  - cbn in Hs. injection Hs as <-. cbn. repeat split; lia.
  - cbn [cross_verify] in *. cbn [selected_response] in Hs.
    injection Hs as <-.
    cbn [verification_confidence consensus discrepancies].
    destruct (Qlt_bool (7 # 10) _) eqn:Hc; cbn [negb].
    + repeat split; cbn [length]; lia.
    + split; [reflexivity|]. split; [discriminate|].
      apply disagreements_length, Hin.
Qed.

Lemma cross_verify_picks_most_confident_witness :
  let v := cross_verify CrossVerifySpec.rollout_task
             [CrossVerifySpec.says_deploy; CrossVerifySpec.says_wait] in
  exists s,
    selected_response v = Some s
    /\ s ∈ [CrossVerifySpec.says_deploy; CrossVerifySpec.says_wait]
    /\ (forall r, r ∈ [CrossVerifySpec.says_deploy; CrossVerifySpec.says_wait] ->
          (response_confidence r <= response_confidence s)%Q)
    /\ verification_confidence v
       = (if consensus v then response_confidence s
          else response_confidence s * (5 # 10))%Q
    /\ (consensus v = true -> discrepancies v = [])
    /\ (length (discrepancies v) < 2)%nat.
Proof.
  apply (cross_verify_picks_most_confident CrossVerifySpec.rollout_task
           [CrossVerifySpec.says_deploy; CrossVerifySpec.says_wait]).
  discriminate.
Defined.

Lemma dict_get_set {V} (k k' : string) (v : V) (d : list (string * V)) :
  dict_get k' (dict_set k v d)
  = if String.eqb k' k then Some v else dict_get k' d.
Proof.
  induction d as [|[k0 v0] d IH]; cbn [dict_set dict_get].
  - destruct (String.eqb k' k); reflexivity.
  - destruct (String.eqb k k0) eqn:E; cbn [dict_get].
    + apply String.eqb_eq in E. subst k0.
      destruct (String.eqb k' k); reflexivity.
    + destruct (String.eqb k' k0) eqn:E'.
      * apply String.eqb_eq in E'. subst k0.
        rewrite String.eqb_sym in E. rewrite E. reflexivity.
      * exact IH.
Qed.

Lemma dict_set_keys {V} (k : string) (v : V) (d : list (string * V)) :
  map fst (dict_set k v d)
  = if bool_decide (k ∈ map fst d) then map fst d else map fst d ++ [k].
Proof.
  induction d as [|[k0 v0] d IH]; cbn [dict_set map fst].
  - rewrite bool_decide_eq_false_2; [reflexivity|]. apply not_elem_of_nil.
  - destruct (String.eqb k k0) eqn:E; cbn [map fst].
    + apply String.eqb_eq in E. subst k0.
      rewrite bool_decide_eq_true_2; [reflexivity|left].
    + apply String.eqb_neq in E. rewrite IH.
      destruct (bool_decide (k ∈ map fst d)) eqn:Hin.
      * apply bool_decide_eq_true in Hin.
        rewrite bool_decide_eq_true_2; [reflexivity|right; exact Hin].
      * apply bool_decide_eq_false in Hin.
        rewrite bool_decide_eq_false_2; [reflexivity|].
        intros H. apply elem_of_cons in H as [H|H]; [congruence|tauto].
Qed.

(** X11.  A registered provider is found again under its vendor and
    model name; registering it changes no other entry, and replaces an
    entry of the same key where it stands instead of adding one. *)
Theorem register_provider_round_trip :
  forall (p : LLMProvider) (fb : Fabric),
    get_provider (provider_name p) (model_name p) (register_provider p fb)
    = Some p
    /\ (forall n m,
          (n ++ ":" ++ m)%string <> provider_key p ->
          get_provider n m (register_provider p fb) = get_provider n m fb)
    /\ map fst (providers (register_provider p fb))
       = (if bool_decide (provider_key p ∈ map fst (providers fb))
          then map fst (providers fb)
          else map fst (providers fb) ++ [provider_key p]).
Proof.
  intros p fb. unfold get_provider, register_provider.
  cbn [providers]. split; [|split].
  - rewrite dict_get_set. fold (provider_key p).
    rewrite String.eqb_refl. reflexivity.
  - intros n m Hne. rewrite dict_get_set.
    apply String.eqb_neq in Hne. rewrite Hne. reflexivity.
  - apply dict_set_keys.
Qed.

(** X12.  On a freshly initialised fabric every role has a provider,
    whatever the API keys: with all reliabilities equal the cheaper
    model wins, so Claude 3 Opus plans, verifies and synthesises, Claude
    3 Haiku executes and GPT-4 audits. *)
Theorem fresh_fabric_routing :
  forall (keys : gmap string string) (ids : string * string * string * string)
         (backend : string -> string -> Outcome) (task : Task)
         (role : LLMRole),
    let fb := init keys ids backend in
    exists p,
      route_task task role fb = (Ok p, fb)
      /\ p ∈ default_providers ids
      /\ model_name p
         = match role with
           | PLANNER | VERIFIER | SYNTHESIZER => "claude-3-opus-20240229"
           | EXECUTOR => "claude-3-haiku-20240307"
           | AUDITOR => "gpt-4"
           end.
Proof.
  intros keys [[[id1 id2] id3] id4] backend task role fb.
  set (pick := match role with
               | PLANNER | VERIFIER | SYNTHESIZER => 2%nat
               | EXECUTOR => 3%nat
               | AUDITOR => 0%nat
               end).
  exists (nth pick (default_providers (id1, id2, id3, id4))
              (mkLLMProvider "" "" "" "" 0 0 0 [])).
  subst fb pick.
  split; [destruct role; vm_compute; reflexivity|].
  split; [|destruct role; reflexivity].
  destruct role; cbn [nth default_providers];
    repeat (first [left | right]).
Qed.

(** *** What calls leave of the registry *)

(** The fields of a provider that the scoreboard does not touch. *)
Definition same_config (p q : LLMProvider) : Prop :=
  provider_id q = provider_id p
  /\ provider_name q = provider_name p
  /\ model_name q = model_name p
  /\ api_endpoint q = api_endpoint p
  /\ cost_per_token q = cost_per_token p
  /\ provider_capabilities q = provider_capabilities p.

Definition in_range (p : LLMProvider) : Prop :=
  (0 <= reliability_score p <= 1)%Q.

Definition entry_evolves (e e' : string * LLMProvider) : Prop :=
  e'.1 = e.1 /\ same_config e.2 e'.2 /\ (in_range e.2 -> in_range e'.2).

(** [fb'] has the registry entries of [fb], key by key and in the same
    order, with the same configuration and a reliability that is within
    [[0, 1]] if it was; the API keys and backends are the same, and no
    provider instance was dropped. *)
Definition evolves (fb fb' : Fabric) : Prop :=
  Forall2 entry_evolves (providers fb) (providers fb')
  /\ api_keys fb' = api_keys fb
  /\ backend fb' = backend fb
  /\ provider_instances fb ⊆ provider_instances fb'.

Lemma entry_evolves_refl (e : string * LLMProvider) : entry_evolves e e.
Proof. unfold entry_evolves, same_config. tauto. Qed.

Lemma entry_evolves_trans (e1 e2 e3 : string * LLMProvider) :
  entry_evolves e1 e2 -> entry_evolves e2 e3 -> entry_evolves e1 e3.
Proof.
  unfold entry_evolves, same_config.
  intros (H1 & (Ha & Hb & Hc & Hd & He & Hf) & Hr)
         (H1' & (Ha' & Hb' & Hc' & Hd' & He' & Hf') & Hr').
  repeat split; try congruence; apply Hr', Hr; assumption.
Qed.

Lemma evolves_refl (fb : Fabric) : evolves fb fb.
Proof.
  unfold evolves. repeat split; try reflexivity.
  induction (providers fb); constructor; [apply entry_evolves_refl|assumption].
Qed.

Lemma Forall2_entry_trans (l1 : list (string * LLMProvider)) :
  forall l2 l3,
    Forall2 entry_evolves l1 l2 -> Forall2 entry_evolves l2 l3 ->
    Forall2 entry_evolves l1 l3.
Proof.
  induction l1 as [|e l1 IH]; intros l2 l3 H12 H23.
  - inversion H12; subst. inversion H23; subst. constructor.
  - inversion H12; subst. inversion H23; subst. constructor.
    + eapply entry_evolves_trans; eassumption.
    + eapply IH; eassumption.
Qed.

Lemma evolves_trans (fb1 fb2 fb3 : Fabric) :
  evolves fb1 fb2 -> evolves fb2 fb3 -> evolves fb1 fb3.
Proof.
  intros (H1 & H2 & H3 & H4) (H1' & H2' & H3' & H4').
  split; [eapply Forall2_entry_trans; eassumption|].
  split; [congruence|]. split; [congruence|].
  etransitivity; eassumption.
Qed.

Lemma dict_alter_evolves (k : string) (seconds : Q) (success : bool)
    (d : list (string * LLMProvider)) :
  Forall2 entry_evolves d
    (dict_alter (fun q => update_performance q seconds success) k d).
Proof.
  induction d as [|[k0 p0] d IH]; cbn [dict_alter]; [constructor|].
  destruct (String.eqb k k0).
  - constructor.
    + unfold entry_evolves, same_config. cbn.
      repeat split; try reflexivity;
        apply (ScoreboardSpec.reliability_in_range p0 seconds success);
        assumption.
    + clear IH. induction d; constructor;
        [apply entry_evolves_refl|assumption].
  - constructor; [apply entry_evolves_refl|exact IH].
Qed.

Lemma call_llm_evolves (p : LLMProvider) (prompt : string) (role : LLMRole)
    (fb : Fabric) :
  evolves fb (call_llm p prompt role fb).2.
Proof.
  rewrite FallbackSpec.call_llm_run.
  assert (Hafter : forall seconds success,
            evolves fb (FallbackSpec.after_backend fb p seconds success)).
  { intros seconds success. unfold evolves, FallbackSpec.after_backend.
    cbn [providers api_keys backend provider_instances].
    split; [apply dict_alter_evolves|]. repeat split.
    apply union_subseteq_r. }
  destruct (FallbackSpec.reachable fb p); [|apply evolves_refl].
  destruct (backend fb (provider_key p) prompt); apply Hafter.
Qed.

Lemma fallback_loop_evolves (prompt : string) (role : LLMRole)
    (ps : list LLMProvider) :
  forall last_error fb,
    evolves fb (fallback_loop ps prompt role last_error fb).2.
Proof.
  induction ps as [|p ps IH]; intros last_error fb; cbn [fallback_loop].
  - apply evolves_refl.
  - unfold try_except.
    pose proof (call_llm_evolves p prompt role fb) as Hcall.
    destruct (call_llm p prompt role fb) as [[a|e] fb1]; cbn [snd] in *.
    + exact Hcall.
    + eapply evolves_trans; [exact Hcall|apply IH].
Qed.

Lemma collect_responses_evolves (prompt : string) (role : LLMRole)
    (ps : list LLMProvider) :
  forall responses fb,
    evolves fb (collect_responses ps prompt role responses fb).2.
Proof.
  induction ps as [|p ps IH]; intros responses fb; cbn [collect_responses].
  - apply evolves_refl.
  - unfold bind at 1. unfold try_except, bind, ret.
    pose proof (call_llm_evolves p prompt role fb) as Hcall.
    destruct (call_llm p prompt role fb) as [[a|e] fb1]; cbn [snd] in *;
      (eapply evolves_trans; [exact Hcall|apply IH]).
Qed.

(** The keys of the providers a role is served by do not depend on the
    scoreboard. *)
Lemma evolves_suitable (r : LLMRole) (l l' : list (string * LLMProvider)) :
  Forall2 entry_evolves l l' ->
  map provider_key
      (filter (fun p => RankingSpec.suitable r p) (map snd l'))
  = map provider_key
      (filter (fun p => RankingSpec.suitable r p) (map snd l)).
Proof.
  induction 1 as [|[k p] [k' p'] l l' He Hl IH]; [reflexivity|].
  cbn [map snd]. rewrite !filter_cons.
  destruct He as (_ & (_ & Hname & Hmodel & _) & _). cbn [snd] in *.
  assert (Hs : RankingSpec.suitable r p' = RankingSpec.suitable r p).
  { unfold RankingSpec.suitable. rewrite Hmodel. reflexivity. }
  assert (Hk : provider_key p' = provider_key p).
  { unfold provider_key. rewrite Hname, Hmodel. reflexivity. }
  rewrite Hs.
  destruct (decide (RankingSpec.suitable r p)); cbn [map];
    rewrite IH; [rewrite Hk|]; reflexivity.
Qed.

(** X13.  A call of [call_llm], [execute_with_fallback] or
    [execute_critical_task], whether it succeeds or fails, leaves the
    registry with the same keys in the same order and the same
    configuration under each key, keeps every reliability that was
    within [[0, 1]] within it, and leaves the API keys and backends as
    they were; so each role is served by the same providers afterwards,
    in a possibly different order: failures never take a provider out
    of the ranking. *)
Theorem calls_keep_registry :
  forall (p : LLMProvider) (task : Task) (prompt : string) (role : LLMRole)
         (fb : Fabric),
    evolves fb (call_llm p prompt role fb).2
    /\ evolves fb (execute_with_fallback task role fb).2
    /\ evolves fb (execute_critical_task task role fb).2
    /\ (forall fb' r,
          evolves fb fb' ->
          Permutation (map provider_key (get_providers_by_role r fb'))
                      (map provider_key (get_providers_by_role r fb))).
Proof.
  intros p task prompt role fb.
  split; [apply call_llm_evolves|].
  split.
  { unfold execute_with_fallback, bind, get. apply fallback_loop_evolves. }
  split.
  { unfold execute_critical_task, bind, get.
    pose proof (collect_responses_evolves (task_prompt task) role
                  (firstn 2 (get_providers_by_role role fb)) [] fb) as H.
    destruct (collect_responses _ _ _ _ fb) as [[out|e] fb1]; cbn [snd] in *;
      [|exact H].
    destruct out; exact H. }
  intros fb' r (Hentries & _).
  destruct (RankingSpec.ranked_sorted_perm r fb) as (_ & Hperm).
  destruct (RankingSpec.ranked_sorted_perm r fb') as (_ & Hperm').
  rewrite (Permutation_map provider_key Hperm).
  rewrite (Permutation_map provider_key Hperm').
  rewrite (evolves_suitable r _ _ Hentries). reflexivity.
Qed.

End FabricSpec.

(** ** [Orchestrator.pause_workflow] and [Orchestrator.resume_workflow] *)

Module Pausing.

Import Text Models Collab Orchestrator.

(** [workflow.state = s]. *)
Definition set_state (s : WorkflowState) (wf : Workflow) : Workflow :=
  mkWorkflow (workflow_id wf) (steps wf) (execution_order wf) s (metadata wf).

(** A [Workflow] object is always truthy, so [if workflow and ...] asks
    for a restored workflow in the given state. *)
Definition pause_workflow (workflow_id : string) : M World bool :=
  (workflow <- restore_state workflow_id ;;
   match workflow with
   | Some wf =>
       if decide (state wf = RUNNING) then
         persist_state (set_state PAUSED wf) ;;;
         publish "workflow.paused"
                 (JDict [("workflow_id", JStr workflow_id)]) ;;;
         ret true
       else ret false
   | None => ret false
   end)%eff.

Definition resume_workflow (workflow_id : string) : M World bool :=
  (workflow <- restore_state workflow_id ;;
   match workflow with
   | Some wf =>
       if decide (state wf = PAUSED) then
         persist_state (set_state RUNNING wf) ;;;
         publish "workflow.resumed"
                 (JDict [("workflow_id", JStr workflow_id)]) ;;;
         ret true
       else ret false
   | None => ret false
   end)%eff.

End Pausing.

Module PausingSpec.

Import Text Models Collab Orchestrator Pausing Quiet.

Local Open Scope list_scope.

(** The dictionary that [persist_state] stores for [wf] at time
    [timestamp]. *)
Definition snapshot (wf : Workflow) (timestamp : string) : json :=
  JDict [("workflow_id", JStr (workflow_id wf));
         ("state", JStr (WorkflowState_value (state wf)));
         ("steps",
          JDict (map (fun kv => (kv.1, WorkflowStep_to_dict kv.2))
                     (map_to_list (steps wf))));
         ("execution_order", execution_order_to_json (execution_order wf));
         ("metadata", JDict (metadata wf));
         ("timestamp", JStr timestamp)].

(** What [restore_state] makes of the snapshot of [wf]. *)
Definition restored (wf : Workflow) : Workflow :=
  mkWorkflow (workflow_id wf) ∅ (execution_order wf) (state wf) (metadata wf).

Lemma persist_state_quiet (wf : Workflow) (w : World) :
  faults w = [] ->
  persist_state wf w
  = (Ok tt,
     mkWorld [] (<[_workflow_key (workflow_id wf) := snapshot wf (clock w)]>
                   (kv w))
            (trace w) (clock w)).
Proof.
  intros Hq. unfold persist_state, bind, utcnow_isoformat,
    store_workflow_state.
  rewrite (setex_quiet _ _ w Hq). reflexivity.
Qed.

Lemma restore_state_snapshot (id : string) (wf : Workflow)
    (timestamp : string) (w : World) :
  faults w = [] ->
  kv w !! _workflow_key id = Some (snapshot wf timestamp) ->
  restore_state id w = (Ok (Some (restored wf)), w).
Proof.
  intros Hq Hkv.
  unfold restore_state, get_workflow_state, bind.
  rewrite (getkey_quiet _ w Hq), Hkv.
  unfold snapshot.
  cbn [truthy subscript json_get assoc_get String.eqb Ascii.eqb Bool.eqb
       as_str as_dict expect mbind option_bind].
  unfold ret.
  rewrite PersistenceSpec.as_execution_order_inv.
  change (as_str (JStr (WorkflowState_value (state wf)))
          ≫= WorkflowState_of_value)
    with (WorkflowState_of_value (WorkflowState_value (state wf))).
  rewrite PersistenceSpec.WorkflowState_value_inv.
  reflexivity.
Qed.

Lemma restore_state_missing (id : string) (w : World) :
  faults w = [] ->
  kv w !! _workflow_key id = None ->
  restore_state id w = (Ok None, w).
Proof.
  intros Hq Hkv.
  unfold restore_state, get_workflow_state, bind.
  rewrite (getkey_quiet _ w Hq), Hkv. reflexivity.
Qed.

(** The world after a snapshot of [wf] in state [s] was rewritten and
    the event [topic] published for [id]. *)
Definition transitioned (s : WorkflowState) (topic id : string)
    (wf : Workflow) (w : World) : World :=
  mkWorld []
    (<[_workflow_key (workflow_id wf) :=
         snapshot (set_state s (restored wf)) (clock w)]> (kv w))
    (trace w ++ [Published topic (JDict [("workflow_id", JStr id)])])
    (clock w).

Lemma pause_workflow_run (id : string) (wf : Workflow) (timestamp : string)
    (w : World) :
  faults w = [] ->
  kv w !! _workflow_key id = Some (snapshot wf timestamp) ->
  pause_workflow id w
  = if decide (state wf = RUNNING)
    then (Ok true, transitioned PAUSED "workflow.paused" id wf w)
    else (Ok false, w).
Proof.
  intros Hq Hkv. unfold pause_workflow, bind.
  rewrite (restore_state_snapshot id wf timestamp w Hq Hkv).
  cbn [restored state].
  destruct (decide (state wf = RUNNING)); [|reflexivity].
  rewrite (persist_state_quiet _ w Hq).
  rewrite publish_quiet by reflexivity. reflexivity.
Qed.

Lemma resume_workflow_run (id : string) (wf : Workflow) (timestamp : string)
    (w : World) :
  faults w = [] ->
  kv w !! _workflow_key id = Some (snapshot wf timestamp) ->
  resume_workflow id w
  = if decide (state wf = PAUSED)
    then (Ok true, transitioned RUNNING "workflow.resumed" id wf w)
    else (Ok false, w).
Proof.
  intros Hq Hkv. unfold resume_workflow, bind.
  rewrite (restore_state_snapshot id wf timestamp w Hq Hkv).
  cbn [restored state].
  destruct (decide (state wf = PAUSED)); [|reflexivity].
  rewrite (persist_state_quiet _ w Hq).
  rewrite publish_quiet by reflexivity. reflexivity.
Qed.

(** X14.  With a Redis that answers, [pause_workflow] succeeds exactly
    on a stored workflow that is RUNNING and [resume_workflow] exactly
    on one that is PAUSED; a refused call, and any call for an
    identifier that has no stored state, returns [False] and changes
    neither the store nor the event stream. *)
Theorem pause_resume_guards :
  forall (id : string) (w : World),
    faults w = [] ->
    (kv w !! _workflow_key id = None ->
     pause_workflow id w = (Ok false, w)
     /\ resume_workflow id w = (Ok false, w))
    /\ (forall wf timestamp,
          kv w !! _workflow_key id = Some (snapshot wf timestamp) ->
          ((pause_workflow id w).1 = Ok true <-> state wf = RUNNING)
          /\ ((resume_workflow id w).1 = Ok true <-> state wf = PAUSED)
          /\ (state wf <> RUNNING -> pause_workflow id w = (Ok false, w))
          /\ (state wf <> PAUSED -> resume_workflow id w = (Ok false, w))).
Proof.
  intros id w Hq. split.
  - intros Hnone. unfold pause_workflow, resume_workflow, bind.
    rewrite (restore_state_missing id w Hq Hnone). split; reflexivity.
  - intros wf timestamp Hkv.
    rewrite (pause_workflow_run id wf timestamp w Hq Hkv).
    rewrite (resume_workflow_run id wf timestamp w Hq Hkv).
    destruct (decide (state wf = RUNNING)) as [Hr|Hr];
      destruct (decide (state wf = PAUSED)) as [Hp|Hp]; cbn [fst];
      repeat split; try tauto; try congruence; try discriminate.
Qed.

Lemma pause_resume_guards_witness :
  pause_workflow "wf-9" PersistenceSpec.quiet_world
  = (Ok false, PersistenceSpec.quiet_world)
  /\ resume_workflow "wf-9" PersistenceSpec.quiet_world
     = (Ok false, PersistenceSpec.quiet_world).
Proof.
  destruct (pause_resume_guards "wf-9" PersistenceSpec.quiet_world eq_refl)
    as [H _].
  apply H. reflexivity.
Defined.

(** X15.  A RUNNING workflow that was persisted can be paused, cannot
    be paused twice, and can then be resumed; after the round trip the
    store holds the workflow as RUNNING with its execution order and
    metadata, and [restore_state] returns it, but the steps persisted
    with it are gone from the store: the rewritten snapshot has an empty
    [steps] dictionary.  No other key is touched and the two events are
    appended in order. *)
Theorem pause_resume_round_trip :
  forall (wf : Workflow) (w : World),
    faults w = [] ->
    state wf = RUNNING ->
    let id := workflow_id wf in
    exists w1 w2 w3,
      persist_state wf w = (Ok tt, w1)
      /\ kv w1 !! _workflow_key id = Some (snapshot wf (clock w))
      /\ pause_workflow id w1 = (Ok true, w2)
      /\ pause_workflow id w2 = (Ok false, w2)
      /\ resume_workflow id w2 = (Ok true, w3)
      /\ kv w3 !! _workflow_key id = Some (snapshot (restored wf) (clock w))
      /\ json_get "steps" (snapshot (restored wf) (clock w)) = Some (JDict [])
      /\ restore_state id w3 = (Ok (Some (restored wf)), w3)
      /\ trace w3
         = trace w
           ++ [Published "workflow.paused" (JDict [("workflow_id", JStr id)]);
               Published "workflow.resumed" (JDict [("workflow_id", JStr id)])]
      /\ (forall k, k <> _workflow_key id -> kv w3 !! k = kv w !! k).
Proof.
  intros wf w Hq Hrun id.
  set (w1 := mkWorld [] (<[_workflow_key id := snapshot wf (clock w)]> (kv w))
                     (trace w) (clock w)).
  set (w2 := transitioned PAUSED "workflow.paused" id wf w1).
  set (paused := set_state PAUSED (restored wf)).
  set (w3 := transitioned RUNNING "workflow.resumed" id paused w2).
  assert (H1 : kv w1 !! _workflow_key id = Some (snapshot wf (clock w)))
    by apply lookup_insert_eq.
  assert (H2 : kv w2 !! _workflow_key id = Some (snapshot paused (clock w)))
    by apply lookup_insert_eq.
  assert (Hback : set_state RUNNING (restored paused) = restored wf).
  { unfold set_state, restored, paused. cbn. rewrite Hrun. reflexivity. }
  assert (H3 : kv w3 !! _workflow_key id
               = Some (snapshot (restored wf) (clock w))).
  { unfold w3, transitioned. cbn [kv clock]. rewrite Hback.
    apply lookup_insert_eq. }
  exists w1, w2, w3.
  split; [apply (persist_state_quiet wf w Hq)|].
  split; [exact H1|].
  split.
  { rewrite (pause_workflow_run id wf (clock w) w1 eq_refl H1).
    rewrite decide_True by exact Hrun. reflexivity. }
  split.
  { rewrite (pause_workflow_run id paused (clock w) w2 eq_refl H2).
    rewrite decide_False by discriminate. reflexivity. }
  split.
  { rewrite (resume_workflow_run id paused (clock w) w2 eq_refl H2).
    rewrite decide_True by reflexivity. reflexivity. }
  split; [exact H3|].
  split; [reflexivity|].
  split.
  { rewrite (restore_state_snapshot id (restored wf) (clock w) w3 eq_refl H3).
    reflexivity. }
  split.
  { unfold w3, w2, w1, transitioned. cbn [trace].
    rewrite <- app_assoc. reflexivity. }
  intros k Hk. unfold w3, w2, w1, transitioned, paused. cbn [kv workflow_id
    set_state restored]. fold id.
  rewrite !lookup_insert_ne by congruence. reflexivity.
Qed.

Lemma pause_resume_round_trip_witness :
  exists w1 w2 w3,
    persist_state PersistenceSpec.sample_workflow PersistenceSpec.quiet_world
    = (Ok tt, w1)
    /\ kv w1 !! _workflow_key "wf-1"
       = Some (snapshot PersistenceSpec.sample_workflow
                        "2024-01-01T00:00:00")
    /\ pause_workflow "wf-1" w1 = (Ok true, w2)
    /\ pause_workflow "wf-1" w2 = (Ok false, w2)
    /\ resume_workflow "wf-1" w2 = (Ok true, w3)
    /\ kv w3 !! _workflow_key "wf-1"
       = Some (snapshot (restored PersistenceSpec.sample_workflow)
                        "2024-01-01T00:00:00")
    /\ json_get "steps" (snapshot (restored PersistenceSpec.sample_workflow)
                                  "2024-01-01T00:00:00")
       = Some (JDict [])
    /\ restore_state "wf-1" w3
       = (Ok (Some (restored PersistenceSpec.sample_workflow)), w3)
    /\ trace w3
       = [Published "workflow.paused" (JDict [("workflow_id", JStr "wf-1")]);
          Published "workflow.resumed" (JDict [("workflow_id", JStr "wf-1")])]
    /\ (forall k, k <> _workflow_key "wf-1" ->
          kv w3 !! k = kv PersistenceSpec.quiet_world !! k).
Proof.
  apply (pause_resume_round_trip PersistenceSpec.sample_workflow
           PersistenceSpec.quiet_world); reflexivity.
Defined.

End PausingSpec.

(** ** [Orchestrator.execute_workflow] *)

Module Workflows.

Import Text Models Collab Orchestrator AgentManager Pausing.

(** [WorkflowResult]; the fields that share a name with a local variable
    of [execute_workflow] or with a field of [Workflow] carry the prefix
    [result_]. *)
Record WorkflowResult := mkWorkflowResult {
  result_workflow_id : string;
  result_success : bool;
  final_output : json;
  result_total_cost : Q;
  total_time : Q;
  avg_confidence : Q;
  result_steps_completed : Z;
  result_steps_failed : Z;
  audit_trail_id : string
}.

(** The session memory, as far as [execute_workflow] uses it.  A call of
    [update_workflow_status] raises when the identifier is not a UUID or
    when the database fails; like the Redis script, [db_faults] says for
    each call whether it goes through.  [status_updates] lists the calls
    that did. *)
Record Session := mkSession {
  db_faults : list (option string);
  status_updates : list (string * string)
}.

Definition update_workflow_status (workflow_id status : string)
  : M Session unit :=
  fun s =>
    match db_faults s with
    | [] =>
        (Ok tt, mkSession [] (status_updates s ++ [(workflow_id, status)]))
    | None :: fs =>
        (Ok tt, mkSession fs (status_updates s ++ [(workflow_id, status)]))
    | Some msg :: fs => (Raise msg, mkSession fs (status_updates s))
    end.

(** Logging and metrics are left out: they do not raise and nothing
    reads them back.

    What a call of [execute_workflow] works on: the agent manager (and
    with it the working memory and the event bus, which the orchestrator
    and its agent manager share), the session memory, the number of
    identifiers drawn from [uuid.uuid4()] so far, the workflow object,
    whose [state] the call assigns, and the local variables that the
    exception handler still reads.  [results] is [None] as long as the
    variable is unbound. *)
Record Frame := mkFrame {
  manager : Manager;
  session : Session;
  draws : nat;
  workflow : Workflow;
  total_cost : Q;
  total_confidence : Q;
  steps_completed : Z;
  steps_failed : Z;
  results : option (list TaskResult)
}.

Definition in_manager {A} (m : M Manager A) : M Frame A :=
  fun f =>
    let '(r, s) := m (manager f) in
    (r, mkFrame s (session f) (draws f) (workflow f) (total_cost f)
                (total_confidence f) (steps_completed f) (steps_failed f)
                (results f)).

(** A call on the working memory or the event bus. *)
Definition in_store {A} (m : M World A) : M Frame A := in_manager (in_world m).

Definition in_session {A} (m : M Session A) : M Frame A :=
  fun f =>
    let '(r, s) := m (session f) in
    (r, mkFrame (manager f) s (draws f) (workflow f) (total_cost f)
                (total_confidence f) (steps_completed f) (steps_failed f)
                (results f)).

(** The identifier that the next [uuid.uuid4()] returns. *)
Definition draw (uuid4 : nat -> string) : M Frame string :=
  fun f =>
    (Ok (uuid4 (draws f)),
     mkFrame (manager f) (session f) (S (draws f)) (workflow f)
             (total_cost f) (total_confidence f) (steps_completed f)
             (steps_failed f) (results f)).

(** [workflow.state = s]. *)
Definition assign_state (s : WorkflowState) : M Frame unit :=
  modify (fun f =>
    mkFrame (manager f) (session f) (draws f) (set_state s (workflow f))
            (total_cost f) (total_confidence f) (steps_completed f)
            (steps_failed f) (results f)).

(** The assignments to the local variables.  [total_cost += result.cost]
    and [total_confidence += result.confidence] are sums of floats, each
    rounded in Python and exact here: the properties of a run below take
    the cost and the confidence of the result as they come and state no
    closed form for them. *)
Definition count_success (result : TaskResult) : M Frame unit :=
  modify (fun f =>
    mkFrame (manager f) (session f) (draws f) (workflow f)
            (total_cost f + cost result)%Q
            (total_confidence f + confidence result)%Q
            (steps_completed f + 1) (steps_failed f) (results f)).

Definition count_failure : M Frame unit :=
  modify (fun f =>
    mkFrame (manager f) (session f) (draws f) (workflow f) (total_cost f)
            (total_confidence f) (steps_completed f) (steps_failed f + 1)
            (results f)).

Definition bind_results (rs : list TaskResult) : M Frame unit :=
  modify (fun f =>
    mkFrame (manager f) (session f) (draws f) (workflow f) (total_cost f)
            (total_confidence f) (steps_completed f) (steps_failed f)
            (Some rs)).

(** [results.append(result)]; inside the loop the variable is bound. *)
Definition append_result (result : TaskResult) : M Frame unit :=
  (f <- get ;;
   match results f with
   | Some rs => bind_results (rs ++ [result])%list
   | None =>
       raise ("cannot access local variable 'results' where it is not "
              ++ "associated with a value")
   end)%eff.

(** The body of the loop over the steps of a group.  The lookup
    [workflow.steps[step_id]] stands before the inner [try]: its
    [KeyError] leaves both loops.  Inside the [try], a step that did not
    succeed is counted, handed to [handle_failure] and, on "escalate",
    turned into an exception, which the handler of the same [try]
    counts and hands to [handle_failure] once more. *)
Definition run_step (uuid4 : nat -> string) (step_id : string)
  : M Frame unit :=
  (f <- get ;;
   match steps (workflow f) !! step_id with
   | None => raise (repr_str step_id)
   | Some step =>
       try_except
         (fresh_id <- draw uuid4 ;;
          agent <- in_manager
                     (spawn_agent (required_capabilities step) "standard"
                                  (goal_id step) None fresh_id) ;;
          result <- in_store (execute_step step agent) ;;
          (if success result then count_success result
           else
             count_failure ;;;
             error <- match errors result with
                      | e :: _ => ret e
                      | [] => raise "list index out of range"
                      end ;;
             recovery <- in_store (handle_failure step error) ;;
             if String.eqb (action_type recovery) "escalate"
             then raise ("Step " ++ step_id
                         ++ " failed after all recovery attempts")
             else ret tt) ;;;
          append_result result ;;;
          in_manager (retire_agent (agent_id agent) "completed"))
         (fun e =>
            count_failure ;;;
            recovery <- in_store (handle_failure step e) ;;
            if String.eqb (action_type recovery) "escalate"
            then raise e else ret tt)
   end)%eff.

Fixpoint run_group (uuid4 : nat -> string) (step_group : list string)
  : M Frame unit :=
  match step_group with
  | [] => ret tt
  | step_id :: rest =>
      (run_step uuid4 step_id ;;; run_group uuid4 rest)%eff
  end.

Fixpoint run_groups (uuid4 : nat -> string)
    (execution_order : list (list string)) : M Frame unit :=
  match execution_order with
  | [] => ret tt
  | step_group :: rest =>
      (bind_results [] ;;;
       run_group uuid4 step_group ;;;
       run_groups uuid4 rest)%eff
  end.

(** [results[-1].output if results else None]; reading the unbound
    variable is an [UnboundLocalError], here with the message of Python
    3.11 and later. *)
Definition last_output : M Frame json :=
  (f <- get ;;
   match results f with
   | None =>
       raise ("cannot access local variable 'results' where it is not "
              ++ "associated with a value")
   | Some rs =>
       ret (match List.last (map Some rs) None with
            | Some r => output r
            | None => JNull
            end)
   end)%eff.

(** The [try] block.  [duration] is the time that the block measures
    once the steps are done. *)
Definition attempt_workflow (uuid4 : nat -> string) (duration : Q)
  : M Frame WorkflowResult :=
  (assign_state RUNNING ;;;
   f <- get ;;
   let id := workflow_id (workflow f) in
   in_store (persist_state (workflow f)) ;;;
   timestamp <- in_store utcnow_isoformat ;;
   in_store (publish "workflow.started"
     (JDict [("workflow_id", JStr id); ("timestamp", JStr timestamp)])) ;;;
   run_groups uuid4 (execution_order (workflow f)) ;;;
   assign_state COMPLETED ;;;
   f <- get ;;
   in_store (persist_state (workflow f)) ;;;
   let avg :=
     if (0 <? steps_completed f)%Z
     then (total_confidence f / inject_Z (steps_completed f))%Q
     else 0%Q in
   in_store (publish "workflow.completed"
     (JDict [("workflow_id", JStr id);
             ("duration", JFloat duration);
             ("cost", JFloat (total_cost f));
             ("confidence", JFloat avg)])) ;;;
   in_session (update_workflow_status id "completed") ;;;
   output <- last_output ;;
   ret (mkWorkflowResult id true output (total_cost f) duration avg
          (steps_completed f) (steps_failed f) ""))%eff.

(** The handler of the outer [try]; [failed_duration] is the time it
    measures. *)
Definition fail_workflow (failed_duration : Q) (e : string)
  : M Frame WorkflowResult :=
  (assign_state FAILED ;;;
   f <- get ;;
   let id := workflow_id (workflow f) in
   in_store (persist_state (workflow f)) ;;;
   in_store (publish "workflow.failed"
     (JDict [("workflow_id", JStr id);
             ("error", JStr e);
             ("duration", JFloat failed_duration)])) ;;;
   in_session (update_workflow_status id "failed") ;;;
   ret (mkWorkflowResult id false JNull (total_cost f) failed_duration 0
          (steps_completed f) (steps_failed f) ""))%eff.

(** The frame on entry: nothing counted, [results] unbound. *)
Definition enter (workflow : Workflow) (manager : Manager)
    (session : Session) (draws : nat) : Frame :=
  mkFrame manager session draws workflow 0 0 0 0 None.

Definition execute_workflow (uuid4 : nat -> string)
    (duration failed_duration : Q) : M Frame WorkflowResult :=
  try_except (attempt_workflow uuid4 duration)
             (fail_workflow failed_duration).

End Workflows.


(** ** Running a workflow *)

Module WorkflowSpec.

Import Text Models Collab Orchestrator AgentManager Pausing Workflows Quiet.

Local Open Scope list_scope.

(** The frame with another working memory and event bus. *)
Definition put_world (w : World) (f : Frame) : Frame :=
  mkFrame (mkManager (max_concurrent_agents (manager f))
                     (active_agents (manager f)) w)
          (session f) (draws f) (workflow f) (total_cost f)
          (total_confidence f) (steps_completed f) (steps_failed f)
          (results f).

Lemma in_store_run {A} (m : M World A) (f : Frame) (r : Result A)
    (w' : World) :
  m (world (manager f)) = (r, w') -> in_store m f = (r, put_world w' f).
Proof.
  intros H. unfold in_store, in_manager, in_world. rewrite H. reflexivity.
Qed.

Lemma bind_ok {S A B} (m : M S A) (k : A -> M S B) (s s' : S) (a : A)
    (r : Result B * S) :
  m s = (Ok a, s') -> k a s' = r -> bind m k s = r.
Proof. intros Hm Hk. unfold bind. rewrite Hm. exact Hk. Qed.

Lemma bind_raise {S A B} (m : M S A) (k : A -> M S B) (s s' : S)
    (e : string) :
  m s = (Raise e, s') -> bind m k s = (Raise e, s').
Proof. intros Hm. unfold bind. rewrite Hm. reflexivity. Qed.

Lemma try_except_raise {S A} (m : M S A) (h : string -> M S A) (s s' : S)
    (e : string) (r : Result A * S) :
  m s = (Raise e, s') -> h e s' = r -> try_except m h s = r.
Proof. intros Hm Hh. unfold try_except. rewrite Hm. exact Hh. Qed.

Lemma in_manager_run {A} (m : M Manager A) (f : Frame) (r : Result A)
    (s' : Manager) :
  m (manager f) = (r, s') ->
  in_manager m f
  = (r, mkFrame s' (session f) (draws f) (workflow f) (total_cost f)
                (total_confidence f) (steps_completed f) (steps_failed f)
                (results f)).
Proof. intros H. unfold in_manager. rewrite H. reflexivity. Qed.

(** Bring the frame of the goal back to a constructor form. *)
Ltac tidy_frame :=
  cbv beta;
  cbn [put_world manager world session draws workflow total_cost
       total_confidence steps_completed steps_failed results
       max_concurrent_agents active_agents kv trace clock faults].

Lemma try_except_ok {S A} (m : M S A) (h : string -> M S A) (s s' : S)
    (a : A) :
  m s = (Ok a, s') -> try_except m h s = (Ok a, s').
Proof. intros Hm. unfold try_except. rewrite Hm. reflexivity. Qed.

Lemma persist_frame (wf : Workflow) (f : Frame) :
  faults (world (manager f)) = [] ->
  in_store (persist_state wf) f
  = (Ok tt,
     put_world
       (mkWorld []
          (<[_workflow_key (workflow_id wf) :=
               PausingSpec.snapshot wf (clock (world (manager f)))]>
             (kv (world (manager f))))
          (trace (world (manager f))) (clock (world (manager f))))
       f).
Proof.
  intros Hq. apply in_store_run, PausingSpec.persist_state_quiet, Hq.
Qed.

Lemma publish_frame (topic : string) (payload : json) (f : Frame) :
  faults (world (manager f)) = [] ->
  in_store (publish topic payload) f
  = (Ok tt,
     put_world
       (mkWorld [] (kv (world (manager f)))
          (trace (world (manager f)) ++ [Published topic payload])
          (clock (world (manager f))))
       f).
Proof. intros Hq. apply in_store_run, publish_quiet, Hq. Qed.

Lemma update_status_frame (id status : string) (f : Frame) :
  db_faults (session f) = [] ->
  in_session (update_workflow_status id status) f
  = (Ok tt,
     mkFrame (manager f)
       (mkSession [] (status_updates (session f) ++ [(id, status)]))
       (draws f) (workflow f) (total_cost f) (total_confidence f)
       (steps_completed f) (steps_failed f) (results f)).
Proof.
  intros Hq. unfold in_session, update_workflow_status. rewrite Hq.
  reflexivity.
Qed.

(** The events that open and close a run. *)
Definition started_event (wf : Workflow) (timestamp : string) : Effect :=
  Published "workflow.started"
    (JDict [("workflow_id", JStr (workflow_id wf));
            ("timestamp", JStr timestamp)]).

Definition completed_event (wf : Workflow) (duration cost confidence : Q)
  : Effect :=
  Published "workflow.completed"
    (JDict [("workflow_id", JStr (workflow_id wf));
            ("duration", JFloat duration);
            ("cost", JFloat cost);
            ("confidence", JFloat confidence)]).

Definition failed_event (wf : Workflow) (error : string) (duration : Q)
  : Effect :=
  Published "workflow.failed"
    (JDict [("workflow_id", JStr (workflow_id wf));
            ("error", JStr error);
            ("duration", JFloat duration)]).

(** The frame after the outer handler ran on [f], with collaborators
    that answer. *)
Definition failed_frame (failed_duration : Q) (e : string) (f : Frame)
  : Frame :=
  let w := world (manager f) in
  let wf := set_state FAILED (workflow f) in
  mkFrame
    (mkManager (max_concurrent_agents (manager f))
       (active_agents (manager f))
       (mkWorld []
          (<[_workflow_key (workflow_id wf) :=
               PausingSpec.snapshot wf (clock w)]> (kv w))
          (trace w ++ [failed_event wf e failed_duration])
          (clock w)))
    (mkSession [] (status_updates (session f)
                   ++ [(workflow_id wf, "failed")]))
    (draws f) wf (total_cost f) (total_confidence f) (steps_completed f)
    (steps_failed f) (results f).

Lemma fail_workflow_quiet (failed_duration : Q) (e : string) (f : Frame) :
  faults (world (manager f)) = [] ->
  db_faults (session f) = [] ->
  fail_workflow failed_duration e f
  = (Ok (mkWorkflowResult (workflow_id (workflow f)) false JNull
           (total_cost f) failed_duration 0 (steps_completed f)
           (steps_failed f) ""),
     failed_frame failed_duration e f).
Proof.
  intros Hq Hdb. unfold fail_workflow, bind, assign_state, modify, get.
  rewrite persist_frame by exact Hq.
  rewrite publish_frame by reflexivity.
  rewrite update_status_frame by exact Hdb.
  reflexivity.
Qed.

(** The frame when the loop over the groups starts. *)
Definition started_frame (f : Frame) : Frame :=
  let w := world (manager f) in
  let wf := set_state RUNNING (workflow f) in
  mkFrame
    (mkManager (max_concurrent_agents (manager f))
       (active_agents (manager f))
       (mkWorld []
          (<[_workflow_key (workflow_id wf) :=
               PausingSpec.snapshot wf (clock w)]> (kv w))
          (trace w ++ [started_event wf (clock w)])
          (clock w)))
    (session f) (draws f) wf (total_cost f) (total_confidence f)
    (steps_completed f) (steps_failed f) (results f).

(** The [try] block up to the loop, and from the loop on. *)
Definition finish_workflow (id : string) (duration : Q)
  : M Frame WorkflowResult :=
  (assign_state COMPLETED ;;;
   f <- get ;;
   in_store (persist_state (workflow f)) ;;;
   let avg :=
     if (0 <? steps_completed f)%Z
     then (total_confidence f / inject_Z (steps_completed f))%Q
     else 0%Q in
   in_store (publish "workflow.completed"
     (JDict [("workflow_id", JStr id);
             ("duration", JFloat duration);
             ("cost", JFloat (total_cost f));
             ("confidence", JFloat avg)])) ;;;
   in_session (update_workflow_status id "completed") ;;;
   output <- last_output ;;
   ret (mkWorkflowResult id true output (total_cost f) duration avg
          (steps_completed f) (steps_failed f) ""))%eff.

(** Take a frame with collaborators that answer apart. *)
Ltac open_frame f Hq :=
  destruct f as [[?ceiling ?active [?script ?store ?events ?now]] ?sess ?d
                   ?wf ?tc ?tconf ?sc ?sf ?rs];
  cbn [manager world faults] in Hq; subst.

Lemma attempt_workflow_quiet (uuid4 : nat -> string) (duration : Q)
    (f : Frame) :
  faults (world (manager f)) = [] ->
  attempt_workflow uuid4 duration f
  = (run_groups uuid4 (execution_order (workflow f)) ;;;
     finish_workflow (workflow_id (workflow f)) duration)%eff
      (started_frame f).
Proof.
  intros Hq. open_frame f Hq. reflexivity.
Qed.

(** The average that the [try] block reports. *)
Definition average (f : Frame) : Q :=
  if (0 <? steps_completed f)%Z
  then (total_confidence f / inject_Z (steps_completed f))%Q
  else 0%Q.

(** The frame after the [try] block announced completion on [f]. *)
Definition completed_frame (duration : Q) (f : Frame) : Frame :=
  let w := world (manager f) in
  let wf := set_state COMPLETED (workflow f) in
  mkFrame
    (mkManager (max_concurrent_agents (manager f))
       (active_agents (manager f))
       (mkWorld []
          (<[_workflow_key (workflow_id wf) :=
               PausingSpec.snapshot wf (clock w)]> (kv w))
          (trace w
           ++ [completed_event wf duration (total_cost f) (average f)])
          (clock w)))
    (mkSession [] (status_updates (session f)
                   ++ [(workflow_id wf, "completed")]))
    (draws f) wf (total_cost f) (total_confidence f) (steps_completed f)
    (steps_failed f) (results f).

Definition unbound_results : string :=
  "cannot access local variable 'results' where it is not "
  ++ "associated with a value".

(** [results[-1].output if results else None] on a bound list. *)
Definition output_of (rs : list TaskResult) : json :=
  match List.last (map Some rs) None with
  | Some r => output r
  | None => JNull
  end.

Lemma finish_workflow_quiet (duration : Q) (f : Frame) :
  faults (world (manager f)) = [] ->
  db_faults (session f) = [] ->
  finish_workflow (workflow_id (workflow f)) duration f
  = (match results f with
     | Some rs =>
         Ok (mkWorkflowResult (workflow_id (workflow f)) true (output_of rs)
               (total_cost f) duration (average f) (steps_completed f)
               (steps_failed f) "")
     | None => Raise unbound_results
     end,
     completed_frame duration f).
Proof.
  intros Hq Hdb. open_frame f Hq. destruct sess as [dbf ups].
  cbn [session db_faults] in Hdb. subst dbf.
  destruct rs; reflexivity.
Qed.

(** The frame in which the body of a group runs: [results] is bound to
    a new list. *)
Definition bound (f : Frame) : Frame :=
  mkFrame (manager f) (session f) (draws f) (workflow f) (total_cost f)
          (total_confidence f) (steps_completed f) (steps_failed f)
          (Some []).

Lemma bind_assoc {S A B C} (m : M S A) (k : A -> M S B) (h : B -> M S C)
    (s : S) :
  bind (bind m k) h s = bind m (fun a => bind (k a) h) s.
Proof. unfold bind. destruct (m s) as [[a|e] s']; reflexivity. Qed.

(** The loops up to the first step of the execution order: empty
    groups before it only bind [results]. *)
Lemma run_groups_first (uuid4 : nat -> string) (sid : string)
    (order : list (list string)) :
  hd_error (concat order) = Some sid ->
  exists g rest,
    concat order = sid :: g ++ concat rest
    /\ forall f,
         run_groups uuid4 order f
         = (run_step uuid4 sid ;;;
            run_group uuid4 g ;;;
            run_groups uuid4 rest)%eff (bound f).
Proof.
  induction order as [|grp order IH]; [discriminate|].
  destruct grp as [|sid' g].
  - cbn [concat app]. intros H. destruct (IH H) as (g & rest & Hc & Hrun).
    exists g, rest. split; [exact Hc|]. intros f.
    cbn [run_groups run_group]. unfold bind at 1 2, bind_results, modify, ret.
    apply (Hrun (bound f)).
  - cbn [concat app hd_error]. intros [= ->]. exists g, order.
    split; [reflexivity|]. intros f.
    cbn [run_groups run_group]. unfold bind at 1, bind_results, modify.
    apply bind_assoc.
Qed.

Lemma run_step_unknown (uuid4 : nat -> string) (sid : string) (f : Frame) :
  steps (workflow f) !! sid = None ->
  run_step uuid4 sid f = (Raise (repr_str sid), f).
Proof. intros H. unfold run_step, bind, get. rewrite H. reflexivity. Qed.


(** A one-step workflow, what [restore_state] makes of it, and a
    workflow without steps; the identifiers are UUIDs, as the session
    memory requires. *)
Definition nightly_report : Workflow :=
  mkWorkflow "123e4567-e89b-12d3-a456-426614174000"
    (<["a" := mkWorkflowStep "a" "goal-a" ["compute"] [] default_RetryConfig
                (mkFallbackStrategy "agent_swap" "" []) true]> ∅)
    [["a"]] PENDING [].

Definition nothing_to_do : Workflow :=
  mkWorkflow "123e4567-e89b-12d3-a456-426614174001" ∅ [] PENDING [].

Definition quiet_session : Session := mkSession [] [].

(** The identifiers that [uuid.uuid4()] returns, one after the other. *)
Definition numbered (n : nat) : string :=
  "agent-" ++ str_of_int (Z.of_nat n).





(** *** Steps that succeed *)

Lemma execute_step_quiet (step : WorkflowStep) (agent : Agent) (w : World) :
  faults w = [] ->
  1 <= max_attempts (retry_config step) ->
  execute_step step agent w
  = (Ok (step_succeeded step),
     mkWorld [] (kv w)
       (trace w
        ++ [Published "workflow.step_started" (step_event step agent);
            Published "workflow.step_completed" (step_event step agent)])
       (clock w)).
Proof.
  intros Hq Hmax. unfold execute_step, bind.
  rewrite (publish_quiet _ _ w Hq). unfold try_except.
  destruct (Z.to_nat (max_attempts (retry_config step))) as [|n] eqn:E;
    [lia|].
  cbn [retry_loop]. unfold try_except, bind.
  rewrite publish_quiet by reflexivity. unfold ret. cbn [kv trace clock].
  rewrite <- app_assoc. reflexivity.
Qed.

(** The agent that [execute_workflow] spawns for a step, and the four
    events of a step that succeeds at once. *)
Definition agent_for (step : WorkflowStep) (fresh_id : string) : Agent :=
  LifecycleSpec.spawned (required_capabilities step) STANDARD (goal_id step)
                        None fresh_id.

Definition step_events (step : WorkflowStep) (fresh_id : string)
  : list Effect :=
  [LifecycleSpec.spawned_event (required_capabilities step) "standard" None
                               fresh_id;
   Published "workflow.step_started"
             (step_event step (agent_for step fresh_id));
   Published "workflow.step_completed"
             (step_event step (agent_for step fresh_id));
   LifecycleSpec.retired_event fresh_id "completed"].

(** The frame after a step succeeded at once. *)
Definition stepped_frame (uuid4 : nat -> string) (step : WorkflowStep)
    (rs : list TaskResult) (f : Frame) : Frame :=
  let fresh_id := uuid4 (draws f) in
  let w := world (manager f) in
  mkFrame
    (mkManager (max_concurrent_agents (manager f))
       (active_agents (manager f))
       (mkWorld []
          (delete (_agent_key fresh_id)
             (<[_agent_key fresh_id :=
                  LifecycleSpec.agent_memory (required_capabilities step)
                    "standard" (goal_id step) (clock w)]> (kv w)))
          (trace w ++ step_events step fresh_id)
          (clock w)))
    (session f) (S (draws f)) (workflow f)
    (total_cost f + (1 # 100))%Q (total_confidence f + (85 # 100))%Q
    (steps_completed f + 1) (steps_failed f)
    (Some (rs ++ [step_succeeded step])).

Lemma run_step_quiet (uuid4 : nat -> string) (sid : string)
    (step : WorkflowStep) (rs : list TaskResult) (f : Frame) :
  faults (world (manager f)) = [] ->
  steps (workflow f) !! sid = Some step ->
  1 <= max_attempts (retry_config step) ->
  get_active_agent_count (manager f) < max_concurrent_agents (manager f) ->
  active_agents (manager f) !! uuid4 (draws f) = None ->
  results f = Some rs ->
  run_step uuid4 sid f = (Ok tt, stepped_frame uuid4 step rs f).
Proof.
  intros Hq Hstep Hmax Hroom Hfresh Hrs. open_frame f Hq.
  cbn [manager workflow draws results active_agents
       max_concurrent_agents] in *. subst rs0.
  unfold run_step. eapply bind_ok; [reflexivity|]. tidy_frame.
  rewrite Hstep.
  apply try_except_ok.
  eapply bind_ok; [reflexivity|]. tidy_frame.
  eapply bind_ok.
  { apply in_manager_run. tidy_frame.
    apply (LifecycleSpec.spawn_agent_quiet _ _ _ None (uuid4 d) STANDARD);
      [exact Hroom|reflexivity|reflexivity]. }
  tidy_frame. eapply bind_ok.
  { apply in_store_run. tidy_frame.
    apply execute_step_quiet; [reflexivity|exact Hmax]. }
  tidy_frame. cbn [success step_succeeded].
  eapply bind_ok; [reflexivity|]. tidy_frame.
  eapply bind_ok; [reflexivity|]. tidy_frame.
  unfold stepped_frame, step_events, agent_for. tidy_frame.
  erewrite in_manager_run;
    [|eapply LifecycleSpec.retire_agent_quiet;
      [cbn [LifecycleSpec.spawned agent_id]; tidy_frame;
       apply lookup_insert_eq|reflexivity]].
  tidy_frame. cbn [cost confidence LifecycleSpec.spawned agent_id].
  rewrite delete_insert_id by exact Hfresh.
  rewrite <- !app_assoc. reflexivity.
Qed.

(** *** A run in which every step succeeds *)

(** A step identifier that [execute_workflow] can run: the step exists
    and its retry configuration admits an attempt. *)
Definition runnable (wf : Workflow) (sid : string) : Prop :=
  exists step,
    steps wf !! sid = Some step /\ 1 <= max_attempts (retry_config step).

(** The results of the steps of a group, all succeeding. *)
Definition step_results (wf : Workflow) (g : list string)
  : list TaskResult :=
  omap (fun sid => step_succeeded <$> steps wf !! sid) g.

(** [f] is [f0] after [n] more steps succeeded at once: same agents,
    session and workflow, collaborators that answer, [n] more draws and
    completed steps, four events for each. *)
Definition steady (f0 f : Frame) (n : nat) : Prop :=
  max_concurrent_agents (manager f) = max_concurrent_agents (manager f0)
  /\ active_agents (manager f) = active_agents (manager f0)
  /\ faults (world (manager f)) = []
  /\ clock (world (manager f)) = clock (world (manager f0))
  /\ session f = session f0
  /\ workflow f = workflow f0
  /\ draws f = (draws f0 + n)%nat
  /\ steps_completed f = steps_completed f0 + Z.of_nat n
  /\ steps_failed f = steps_failed f0
  /\ exists extra,
       trace (world (manager f)) = trace (world (manager f0)) ++ extra
       /\ length extra = (4 * n)%nat.

Lemma steady_refl (f : Frame) :
  faults (world (manager f)) = [] -> steady f f 0.
Proof.
  intros Hq. unfold steady. rewrite Nat.add_0_r, Z.add_0_r.
  repeat split; try reflexivity; try exact Hq.
  exists []. rewrite app_nil_r. split; reflexivity.
Qed.

Lemma steady_bound (f0 f : Frame) (n : nat) :
  steady f0 f n -> steady f0 (bound f) n.
Proof. intros H. exact H. Qed.

Lemma steady_step (uuid4 : nat -> string) (step : WorkflowStep)
    (rs : list TaskResult) (f0 f : Frame) (n : nat) :
  steady f0 f n -> steady f0 (stepped_frame uuid4 step rs f) (S n).
Proof.
  intros (Hmax & Hact & Hq & Hclk & Hsess & Hwf & Hd & Hsc & Hsf
          & extra & Htr & Hlen).
  unfold steady, stepped_frame.
  cbn [manager world session draws workflow total_cost total_confidence
       steps_completed steps_failed max_concurrent_agents active_agents
       faults clock trace].
  split; [exact Hmax|]. split; [exact Hact|]. split; [reflexivity|].
  split; [exact Hclk|]. split; [exact Hsess|]. split; [exact Hwf|].
  split; [lia|]. split; [lia|]. split; [exact Hsf|].
  exists (extra ++ step_events step (uuid4 (draws f))).
  rewrite Htr, <- app_assoc. split; [reflexivity|].
  rewrite length_app, Hlen. cbn [step_events length]. lia.
Qed.

Section Steps.

Variable uuid4 : nat -> string.
Variable f0 : Frame.
Hypothesis room :
  get_active_agent_count (manager f0) < max_concurrent_agents (manager f0).
Hypothesis fresh : forall k, active_agents (manager f0) !! uuid4 k = None.

Lemma run_group_steady (g : list string) :
  forall f n rs,
    steady f0 f n ->
    results f = Some rs ->
    Forall (runnable (workflow f0)) g ->
    exists f',
      run_group uuid4 g f = (Ok tt, f')
      /\ steady f0 f' (n + length g)
      /\ results f' = Some (rs ++ step_results (workflow f0) g).
Proof.
  induction g as [|sid g IH]; intros f n rs Hst Hrs Hall.
  - exists f. cbn [run_group length]. rewrite Nat.add_0_r.
    split; [reflexivity|]. split; [exact Hst|].
    unfold step_results. cbn [omap list_omap]. rewrite app_nil_r. exact Hrs.
  - inversion Hall as [|? ? (step & Hstep & Hmax) Hrest]; subst.
    pose proof Hst as (Hm & Ha & Hq & _ & _ & Hwf & _).
    cbn [run_group]. unfold bind.
    rewrite (run_step_quiet uuid4 sid step rs f); try assumption.
    + destruct (IH (stepped_frame uuid4 step rs f) (S n)
                   (rs ++ [step_succeeded step]))
        as (f' & Hrun & Hst' & Hrs'); [apply steady_step, Hst|reflexivity
                                      |exact Hrest|].
      exists f'. split; [exact Hrun|].
      cbn [length]. rewrite Nat.add_succ_r. split; [exact Hst'|].
      rewrite Hrs', <- app_assoc. unfold step_results. cbn [omap list_omap].
      rewrite Hstep. reflexivity.
    + rewrite Hwf. exact Hstep.
    + unfold get_active_agent_count in *. rewrite Hm, Ha. exact room.
    + rewrite Ha. apply fresh.
Qed.

Lemma run_groups_steady (order : list (list string)) :
  forall f n,
    steady f0 f n ->
    Forall (runnable (workflow f0)) (concat order) ->
    exists f',
      run_groups uuid4 order f = (Ok tt, f')
      /\ steady f0 f' (n + length (concat order))
      /\ results f'
         = match order with
           | [] => results f
           | _ => Some (step_results (workflow f0) (List.last order []))
           end.
Proof.
  induction order as [|g order IH]; intros f n Hst Hall.
  - exists f. cbn [run_groups concat length]. rewrite Nat.add_0_r.
    split; [reflexivity|]. split; [exact Hst|reflexivity].
  - cbn [concat] in Hall. apply Forall_app in Hall as [Hg Horder].
    cbn [run_groups]. unfold bind at 1, bind_results, modify.
    fold (bound f). unfold bind at 1.
    destruct (run_group_steady g (bound f) n [] (steady_bound _ _ _ Hst)
                eq_refl Hg) as (f1 & Hrun1 & Hst1 & Hrs1).
    rewrite Hrun1.
    destruct (IH f1 (n + length g)%nat Hst1 Horder)
      as (f' & Hrun & Hst' & Hrs').
    exists f'. split; [exact Hrun|].
    cbn [concat]. rewrite length_app, Nat.add_assoc. split; [exact Hst'|].
    rewrite Hrs'. destruct order as [|g' order']; [exact Hrs1|reflexivity].
Qed.

End Steps.


(** Two steps, one after the other. *)
Definition fetch_then_report : Workflow :=
  mkWorkflow "123e4567-e89b-12d3-a456-426614174003"
    (<["fetch" := mkWorkflowStep "fetch" "goal-fetch" ["network"] []
                    default_RetryConfig
                    (mkFallbackStrategy "agent_swap" "" []) true]>
     (<["report" := mkWorkflowStep "report" "goal-report" ["compute"]
                      ["fetch"] default_RetryConfig
                      (mkFallbackStrategy "agent_swap" "" []) true]> ∅))
    [["fetch"]; ["report"]] PENDING [].


(** *** A step that admits no attempt *)

(** [raise last_error] when no attempt was made. *)
Definition no_exception : string :=
  "exceptions must derive from BaseException".

Definition escalated (sid : string) : string :=
  ("Step " ++ sid ++ " failed after all recovery attempts")%string.

Definition recovery_event (step : WorkflowStep) (error : string) : Effect :=
  Published "workflow.recovery_triggered"
    (JDict [("step_id", JStr (step_id step));
            ("failure_type",
             JStr (FailureType_value (_classify_failure error)))]).

Lemma execute_step_unattempted (step : WorkflowStep) (agent : Agent)
    (w : World) :
  faults w = [] ->
  max_attempts (retry_config step) <= 0 ->
  execute_step step agent w
  = (Ok (step_failed no_exception),
     mkWorld [] (kv w)
       (trace w
        ++ [Published "workflow.step_started" (step_event step agent);
            Published "workflow.step_failed"
              (JDict [("step_id", JStr (step_id step));
                      ("agent_id", JStr (agent_id agent));
                      ("error", JStr no_exception)])])
       (clock w)).
Proof.
  intros Hq Hmax. unfold execute_step, bind.
  rewrite (publish_quiet _ _ w Hq). unfold try_except.
  assert (E : Z.to_nat (max_attempts (retry_config step)) = 0%nat) by lia.
  rewrite E. cbn [retry_loop raise_last]. unfold raise at 1.
  unfold bind. rewrite publish_quiet by reflexivity.
  unfold ret. cbn [kv trace clock]. rewrite <- app_assoc. reflexivity.
Qed.

Lemma handle_failure_quiet (step : WorkflowStep) (error : string)
    (w : World) :
  faults w = [] ->
  handle_failure step error w
  = (Ok (recovery_for step (_classify_failure error) error),
     mkWorld [] (kv w) (trace w ++ [recovery_event step error]) (clock w)).
Proof.
  intros Hq. rewrite OrchestratorSpec.handle_failure_run, Hq. reflexivity.
Qed.

Lemma recovery_escalates (step : WorkflowStep) (error : string) :
  _classify_failure error <> MODEL_ERROR ->
  _classify_failure error <> TOOL_ERROR ->
  action_type (recovery_for step (_classify_failure error) error)
  = "escalate".
Proof.
  intros Hm Ht.
  assert (Hn : _classify_failure error <> TRANSIENT).
  { unfold _classify_failure.
    repeat match goal with |- context [if ?b then _ else _] => destruct b end;
      discriminate. }
  destruct (_classify_failure error); try reflexivity; congruence.
Qed.

(** The frame after the first step of a run admitted no attempt and its
    failure was escalated: the agent is still active, the step was
    counted twice, [results] is as it was. *)
Definition leaked_frame (uuid4 : nat -> string) (sid : string)
    (step : WorkflowStep) (f : Frame) : Frame :=
  let fresh_id := uuid4 (draws f) in
  let agent := agent_for step fresh_id in
  let w := world (manager f) in
  mkFrame
    (mkManager (max_concurrent_agents (manager f))
       (<[fresh_id := agent]> (active_agents (manager f)))
       (mkWorld []
          (<[_agent_key fresh_id :=
               LifecycleSpec.agent_memory (required_capabilities step)
                 "standard" (goal_id step) (clock w)]> (kv w))
          (trace w
           ++ [LifecycleSpec.spawned_event (required_capabilities step)
                 "standard" None fresh_id;
               Published "workflow.step_started" (step_event step agent);
               Published "workflow.step_failed"
                 (JDict [("step_id", JStr (step_id step));
                         ("agent_id", JStr fresh_id);
                         ("error", JStr no_exception)]);
               recovery_event step no_exception;
               recovery_event step (escalated sid)])
          (clock w)))
    (session f) (S (draws f)) (workflow f) (total_cost f)
    (total_confidence f) (steps_completed f) (steps_failed f + 1 + 1)
    (results f).

Lemma run_step_unattempted (uuid4 : nat -> string) (sid : string)
    (step : WorkflowStep) (f : Frame) :
  faults (world (manager f)) = [] ->
  steps (workflow f) !! sid = Some step ->
  max_attempts (retry_config step) <= 0 ->
  get_active_agent_count (manager f) < max_concurrent_agents (manager f) ->
  _classify_failure (escalated sid) <> MODEL_ERROR ->
  _classify_failure (escalated sid) <> TOOL_ERROR ->
  run_step uuid4 sid f
  = (Raise (escalated sid), leaked_frame uuid4 sid step f).
Proof.
  intros Hq Hstep Hmax Hroom Hm Ht. open_frame f Hq.
  cbn [manager workflow draws results active_agents
       max_concurrent_agents] in *.
  unfold run_step. eapply bind_ok; [reflexivity|]. tidy_frame.
  rewrite Hstep.
  eapply try_except_raise.
  - eapply bind_ok; [reflexivity|]. tidy_frame.
    eapply bind_ok.
    { apply in_manager_run. tidy_frame.
      apply (LifecycleSpec.spawn_agent_quiet _ _ _ None (uuid4 d) STANDARD);
        [exact Hroom|reflexivity|reflexivity]. }
    tidy_frame. eapply bind_ok.
    { apply in_store_run. tidy_frame.
      apply execute_step_unattempted; [reflexivity|exact Hmax]. }
    tidy_frame. cbn [success step_failed errors].
    apply bind_raise.
    eapply bind_ok; [reflexivity|]. tidy_frame.
    eapply bind_ok; [reflexivity|]. tidy_frame.
    eapply bind_ok.
    { apply in_store_run. tidy_frame.
      apply handle_failure_quiet. reflexivity. }
    tidy_frame.
    assert (H0 : action_type (recovery_for step
                                (_classify_failure no_exception)
                                no_exception) = "escalate")
      by (vm_compute; reflexivity).
    rewrite H0. reflexivity.
  - tidy_frame. eapply bind_ok; [reflexivity|]. tidy_frame.
    eapply bind_ok.
    { apply in_store_run. tidy_frame.
      apply handle_failure_quiet. reflexivity. }
    tidy_frame. fold (escalated sid).
    rewrite (recovery_escalates step _ Hm Ht).
    cbn [String.eqb Ascii.eqb Bool.eqb]. unfold raise.
    unfold leaked_frame, agent_for. tidy_frame.
    cbn [LifecycleSpec.spawned agent_id].
    rewrite <- !app_assoc. reflexivity.
Qed.


Definition untried_step : WorkflowStep :=
  mkWorkflowStep "a" "goal-a" ["compute"] [] (mkRetryConfig 0 2 1 60)
                 (mkFallbackStrategy "agent_swap" "" []) true.

(** A workflow whose only step is configured with no attempt at all. *)
Definition never_tried : Workflow :=
  mkWorkflow "123e4567-e89b-12d3-a456-426614174002"
    (<["a" := untried_step]> ∅) [["a"]] PENDING [].


End WorkflowSpec.

(** ** [autoos/execution/tool_executor.py] and [agent_worker.py] *)

Module ToolExecutor.

Import Text Models AgentManager.

(** A parameter schema of the shape that [get_tool_schema] and
    [select_tools] build: the names under ["required"] and, for each
    name under ["properties"], its ["type"] if it has one. *)
Record Schema := mkSchema {
  required : list string;
  properties : list (string * option string)
}.

Record Tool := mkTool {
  tool_name : string;
  tool_description : string;
  parameters_schema : Schema;
  required_trust_level : TrustLevel;
  timeout_seconds : Z;
  rate_limit : Z
}.

(** [ToolExecutor.check_authorization]; the numbers of the levels are
    [trust_rank]. *)
Definition check_authorization (tool : Tool) (agent : Agent) : bool :=
  let agent_level := trust_rank (trust_level agent) in
  let required_level := trust_rank (required_trust_level tool) in
  if (agent_level <? required_level)%Z then false
  else if negb (bool_decide ("all" ∈ allowed_tools agent))
          && negb (bool_decide (tool_name tool ∈ allowed_tools agent))
  then false
  else true.

(** [ToolExecutor._check_rate_limit].  The state is the dictionary
    [rate_limits]; [now] is the reading of [time.time()]. *)
Definition _check_rate_limit (tool_name : string) (limit : Z) (now : Q)
  : M (gmap string (list Q)) bool :=
  fun rate_limits =>
    let minute_ago := (now - 60)%Q in
    let stamps := default [] (rate_limits !! tool_name) in
    let recent := List.filter (fun ts => negb (Qle_bool ts minute_ago)) stamps in
    if (Z.of_nat (length recent) >=? limit)%Z
    then (Ok false, <[tool_name := recent]> rate_limits)
    else (Ok true, <[tool_name := (recent ++ [now])%list]> rate_limits).

End ToolExecutor.

Module AgentWorker.

Import Text Models AgentManager ToolExecutor.

(** [AgentWorker.select_tools]; neither the task nor the reasoning is
    read. *)
Definition available_tools (agent : Agent) : list Tool :=
  [ mkTool "read_file" "Read file contents"
      (mkSchema [] [("path", Some "string")]) (trust_level agent) 30 100;
    mkTool "http_request" "Make HTTP request"
      (mkSchema [] [("url", Some "string")]) (trust_level agent) 60 50 ].

Definition select_tools (agent : Agent) : list Tool :=
  firstn 3
    (List.filter
       (fun tool =>
          bool_decide ("all" ∈ allowed_tools agent)
          || bool_decide (tool_name tool ∈ allowed_tools agent))
       (available_tools agent)).

(** [AgentWorker.check_trust_level]. *)
Definition check_trust_level (tool : Tool) (agent : Agent) : bool :=
  check_authorization tool agent.

(** The dictionary that [reason_about_task] returns, and a
    [ToolResult]. *)
Record Reasoning := mkReasoning {
  reasoning_text : string;
  reasoning_confidence : Q;
  reasoning_cost : Q
}.

Record ToolResult := mkToolResult {
  tool_success : bool;
  tool_output : json;
  tool_error : option string;
  execution_time : Q;
  tool_cost : Q
}.

(** [AgentWorker.self_report_confidence]. *)
Definition self_report_confidence (reasoning : Reasoning)
    (tool_results : list ToolResult) : Q :=
  let c0 := reasoning_confidence reasoning in
  let c1 :=
    match tool_results with
    | [] => c0
    | _ =>
        let success_rate :=
          (inject_Z (Z.of_nat (length (List.filter tool_success tool_results)))
           / inject_Z (Z.of_nat (length tool_results)))%Q in
        ((c0 + success_rate) / 2)%Q
    end in
  let c2 :=
    if existsb (fun r => negb (tool_success r)) tool_results
    then (c1 * (8 # 10))%Q else c1 in
  Qmax 0 (Qmin 1 c2).

End AgentWorker.

(** ** Authorization, tool selection and confidence *)

Module ToolSpec.

Import Text Models AgentManager ToolExecutor AgentWorker.

Local Open Scope list_scope.

Lemma check_authorization_iff (tool : Tool) (agent : Agent) :
  check_authorization tool agent = true
  <-> trust_rank (required_trust_level tool) <= trust_rank (trust_level agent)
      /\ tool_permitted (allowed_tools agent) (tool_name tool) = true.
Proof.
  unfold check_authorization, tool_permitted.
  destruct (Z.ltb_spec (trust_rank (trust_level agent))
                       (trust_rank (required_trust_level tool))) as [Hlt|Hge].
  - split; [discriminate|]. intros [Hle _]. lia.
  - destruct (bool_decide ("all" ∈ allowed_tools agent));
      destruct (bool_decide (tool_name tool ∈ allowed_tools agent));
      cbn [negb andb orb]; split; try discriminate; try tauto; intros _;
      split; try reflexivity; lia.
Qed.

Lemma all_marker (level : TrustLevel) :
  "all" ∈ _get_allowed_tools level <-> level = PRIVILEGED.
Proof.
  split.
  - intros Hin. destruct level; [| | |reflexivity];
      unfold _get_allowed_tools in Hin; cbn in Hin;
      repeat (apply elem_of_cons in Hin as [Hin|Hin]; [discriminate|]);
      apply elem_of_nil in Hin; destruct Hin.
  - intros ->. left.
Qed.

(** X20.  An agent as [spawn_agent] builds it for trust level [L] is
    authorised for a tool exactly when the level the tool requires is
    not above [L] and the tool's name is in the tool list of [L] or [L]
    is PRIVILEGED; and whatever such an agent is authorised for, an
    agent spawned at a level not below [L] is authorised for too. *)
Theorem spawned_agent_authorization :
  forall (tool : Tool) (capabilities : list string) (level : TrustLevel)
         (goal : string) (workflow_id : option string) (fresh_id : string),
    let agent :=
      LifecycleSpec.spawned capabilities level goal workflow_id fresh_id in
    (check_authorization tool agent = true
     <-> trust_rank (required_trust_level tool) <= trust_rank level
         /\ (level = PRIVILEGED
             \/ tool_name tool ∈ _get_allowed_tools level))
    /\ (forall capabilities' level' goal' workflow_id' fresh_id',
          trust_rank level <= trust_rank level' ->
          check_authorization tool agent = true ->
          check_authorization tool
            (LifecycleSpec.spawned capabilities' level' goal' workflow_id'
                                   fresh_id') = true).
Proof.
  intros tool caps level goal wid id agent.
  assert (Hiff : forall caps level goal wid id,
            check_authorization tool (LifecycleSpec.spawned caps level goal
                                                            wid id) = true
            <-> trust_rank (required_trust_level tool) <= trust_rank level
                /\ (level = PRIVILEGED
                    \/ tool_name tool ∈ _get_allowed_tools level)).
  { clear. intros caps level goal wid id.
    rewrite check_authorization_iff. unfold tool_permitted.
    cbn [LifecycleSpec.spawned trust_level allowed_tools].
    rewrite orb_true_iff, !bool_decide_eq_true, all_marker. reflexivity. }
  split; [apply Hiff|].
  intros caps' level' goal' wid' id' Hle Hok. subst agent.
  apply Hiff in Hok as [Hreq Hin]. apply Hiff. split; [lia|].
  destruct (decide (level' = PRIVILEGED)) as [|Hne]; [left; assumption|].
  right. destruct Hin as [->|Hin]; [destruct level'; cbn in Hle; try lia;
                                    congruence|].
  destruct (decide (level = level')) as [<-|Hdiff]; [exact Hin|].
  apply (AgentManagerSpec.allowed_tools_below_privileged level level');
    [|exact Hne|exact Hin].
  destruct level, level'; cbn in *; try lia; congruence.
Qed.

(** X21.  Every tool that [select_tools] returns for an agent, whatever
    the agent, requires exactly the agent's trust level and passes
    [check_authorization], so the trust-level check of [execute_task]
    never blocks a selected tool.  For an agent as [spawn_agent] builds
    it the selection is [read_file] alone at RESTRICTED, and
    [read_file] and [http_request] at every other level. *)
Theorem selected_tools_are_authorized :
  forall (agent : Agent),
    Forall (fun tool =>
              required_trust_level tool = trust_level agent
              /\ check_authorization tool agent = true
              /\ check_trust_level tool agent = true)
           (select_tools agent)
    /\ (forall capabilities level goal workflow_id fresh_id,
          map tool_name
              (select_tools (LifecycleSpec.spawned capabilities level goal
                                                   workflow_id fresh_id))
          = if decide (level = RESTRICTED) then ["read_file"]
            else ["read_file"; "http_request"]).
Proof.
  intros agent. split.
  - unfold select_tools, available_tools.
    cbn [List.filter tool_name].
    assert (Hone : forall tool,
              required_trust_level tool = trust_level agent ->
              bool_decide ("all" ∈ allowed_tools agent)
              || bool_decide (tool_name tool ∈ allowed_tools agent) = true ->
              required_trust_level tool = trust_level agent
              /\ check_authorization tool agent = true
              /\ check_trust_level tool agent = true).
    { intros tool Hreq Hperm. split; [exact Hreq|].
      assert (check_authorization tool agent = true).
      { apply check_authorization_iff. split; [rewrite Hreq; lia|exact Hperm]. }
      split; assumption. }
    destruct (bool_decide ("all" ∈ allowed_tools agent)
              || bool_decide ("read_file" ∈ allowed_tools agent)) eqn:E1;
      destruct (bool_decide ("all" ∈ allowed_tools agent)
                || bool_decide ("http_request" ∈ allowed_tools agent)) eqn:E2;
      cbn [firstn]; repeat constructor;
      try (apply Hone; [reflexivity|assumption]).
  - intros caps level goal wid id. destruct level; reflexivity.
Qed.

(** *** The rate limit *)

(** Calls of [_check_rate_limit] for one tool at the given times. *)
Fixpoint run_calls (tool_name : string) (limit : Z) (times : list Q)
  : M (gmap string (list Q)) (list bool) :=
  match times with
  | [] => ret []
  | now :: rest =>
      (ok <- _check_rate_limit tool_name limit now ;;
       oks <- run_calls tool_name limit rest ;;
       ret (ok :: oks))%eff
  end.

(** The limit in words: a call is accepted when fewer than [limit]
    calls were accepted during the sixty seconds before it.  [accepted]
    is the whole history of accepted calls. *)
Definition in_last_minute (now ts : Q) : bool :=
  negb (Qle_bool ts (now - 60)).

Fixpoint sliding_window (limit : Z) (accepted : list Q) (times : list Q)
  : list bool :=
  match times with
  | [] => []
  | now :: rest =>
      let ok :=
        (Z.of_nat (length (List.filter (in_last_minute now) accepted))
         <? limit)%Z in
      ok :: sliding_window limit
              (if ok then accepted ++ [now] else accepted) rest
  end.

Lemma filter_filter_weaker {A} (p q : A -> bool) (l : list A) :
  (forall x, p x = true -> q x = true) ->
  List.filter p (List.filter q l) = List.filter p l.
Proof.
  intros Hpq. induction l as [|x l IH]; [reflexivity|].
  cbn [List.filter]. destruct (q x) eqn:Hq.
  - cbn [List.filter]. rewrite IH. reflexivity.
  - destruct (p x) eqn:Hp; [|exact IH].
    apply Hpq in Hp. congruence.
Qed.

Lemma in_last_minute_later (now t ts : Q) :
  (now <= t)%Q -> in_last_minute t ts = true -> in_last_minute now ts = true.
Proof.
  unfold in_last_minute. rewrite !negb_true_iff.
  intros Hle Ht.
  destruct (Qle_bool ts (now - 60)) eqn:E; [|reflexivity].
  apply Qle_bool_iff in E.
  assert (H : (ts <= t - 60)%Q) by lra.
  apply Qle_bool_iff in H. congruence.
Qed.

Lemma length_filter_le {A} (p : A -> bool) (l : list A) :
  (length (List.filter p l) <= length l)%nat.
Proof.
  induction l as [|x l IH]; [reflexivity|].
  cbn [List.filter]. destruct (p x); cbn [length]; lia.
Qed.

Lemma run_calls_spec (tool_name : string) (limit : Z) (times : list Q) :
  forall rate_limits accepted,
    StronglySorted Qle times ->
    Forall (fun t =>
              List.filter (in_last_minute t)
                          (default [] (rate_limits !! tool_name))
              = List.filter (in_last_minute t) accepted) times ->
    (Z.of_nat (length (default [] (rate_limits !! tool_name)))
     <= Z.max 0 limit) ->
    exists rate_limits',
      run_calls tool_name limit times rate_limits
      = (Ok (sliding_window limit accepted times), rate_limits')
      /\ (forall other, other <> tool_name ->
            rate_limits' !! other = rate_limits !! other)
      /\ (Z.of_nat (length (default [] (rate_limits' !! tool_name)))
          <= Z.max 0 limit).
Proof.
  induction times as [|now rest IH]; intros rl accepted Hsorted Hinv Hlen.
  - exists rl. repeat split; assumption.
  - inversion Hsorted as [|? ? Hrest Hnow]; subst.
    inversion Hinv as [|? ? Hhead Htail]; subst.
    cbn [run_calls sliding_window]. unfold bind at 1, _check_rate_limit.
    fold (in_last_minute now). rewrite Hhead.
    set (stored := default [] (rl !! tool_name)) in *.
    set (recent := List.filter (in_last_minute now) accepted) in *.
    assert (Hrecent : (Z.of_nat (length recent) <= Z.max 0 limit)%Z).
    { rewrite <- Hhead.
      pose proof (length_filter_le (in_last_minute now) stored). lia. }
    assert (Hkeep : forall t,
              t ∈ rest ->
              List.filter (in_last_minute t) recent
              = List.filter (in_last_minute t) accepted).
    { intros t Ht. unfold recent. apply filter_filter_weaker.
      intros ts. apply in_last_minute_later.
      rewrite Forall_forall in Hnow. apply Hnow, Ht. }
    rewrite Z.geb_leb.
    destruct (Z.leb_spec limit (Z.of_nat (length recent))) as [Hfull|Hroom].
    + assert (Hno : Z.ltb (Z.of_nat (length recent)) limit = false)
        by (apply Z.ltb_ge; exact Hfull).
      rewrite Hno.
      destruct (IH (<[tool_name := recent]> rl) accepted Hrest)
        as (rl' & Hrun & Hother & Hlen').
      { rewrite lookup_insert_eq. cbn [default from_option id].
        rewrite Forall_forall. intros t Ht. apply Hkeep, Ht. }
      { rewrite lookup_insert_eq. exact Hrecent. }
      exists rl'. unfold bind at 1. rewrite Hrun. split; [reflexivity|].
      split; [|exact Hlen'].
      intros other Hne. rewrite Hother by exact Hne.
      apply lookup_insert_ne. congruence.
    + assert (Hyes : Z.ltb (Z.of_nat (length recent)) limit = true)
        by (apply Z.ltb_lt; exact Hroom).
      rewrite Hyes.
      destruct (IH (<[tool_name := recent ++ [now]]> rl) (accepted ++ [now])
                   Hrest)
        as (rl' & Hrun & Hother & Hlen').
      { rewrite lookup_insert_eq. cbn [default from_option id].
        rewrite Forall_forall. intros t Ht.
        rewrite !List.filter_app, (Hkeep t Ht). reflexivity. }
      { rewrite lookup_insert_eq. cbn [default from_option id].
        rewrite length_app. cbn [length]. lia. }
      exists rl'. unfold bind at 1. rewrite Hrun. split; [reflexivity|].
      split; [|exact Hlen'].
      intros other Hne. rewrite Hother by exact Hne.
      apply lookup_insert_ne. congruence.
Qed.

(** X22.  With a clock that does not run backwards, the rate limiter is
    a sliding window: starting with no record for the tool, each call is
    accepted exactly when fewer than [limit] calls were accepted in the
    sixty seconds before it, so dropping the old timestamps loses
    nothing; a rejected call is not recorded, the record never holds
    more than [limit] timestamps, and the records of other tools are not
    touched. *)
Theorem rate_limit_is_sliding_window :
  forall (tool_name : string) (limit : Z) (times : list Q)
         (rate_limits : gmap string (list Q)),
    rate_limits !! tool_name = None ->
    StronglySorted Qle times ->
    exists rate_limits',
      run_calls tool_name limit times rate_limits
      = (Ok (sliding_window limit [] times), rate_limits')
      /\ (forall other, other <> tool_name ->
            rate_limits' !! other = rate_limits !! other)
      /\ (Z.of_nat (length (default [] (rate_limits' !! tool_name)))
          <= Z.max 0 limit).
Proof.
  intros tool_name limit times rl Hnone Hsorted.
  apply run_calls_spec; [exact Hsorted| |].
  - rewrite Hnone. cbn [default from_option id]. rewrite Forall_forall. reflexivity.
  - rewrite Hnone. cbn [default from_option id length]. lia.
Qed.

Lemma rate_limit_is_sliding_window_witness :
  exists rate_limits',
    run_calls "http_request" 2 [0; 10; 20; 65; 71]%Q ∅
    = (Ok [true; true; false; true; true], rate_limits')
    /\ (forall other, other <> "http_request" ->
          rate_limits' !! other = (∅ : gmap string (list Q)) !! other)
    /\ (Z.of_nat (length (default [] (rate_limits' !! "http_request")))
        <= Z.max 0 2).
Proof.
  apply (rate_limit_is_sliding_window "http_request" 2
           [0; 10; 20; 65; 71]%Q ∅).
  - apply lookup_empty.
  - repeat constructor; discriminate.
Defined.

(** *** Self-reported confidence *)

Lemma some_failure_fewer_successes (results : list ToolResult) :
  existsb (fun r => negb (tool_success r)) results = true ->
  (length (List.filter tool_success results) < length results)%nat.
Proof.
  induction results as [|r results IH]; [discriminate|].
  cbn [existsb List.filter]. destruct (tool_success r); cbn [negb orb length].
  - intros H. specialize (IH H). lia.
  - intros _. pose proof (length_filter_le tool_success results). lia.
Qed.

Lemma no_failure_all_successes (results : list ToolResult) :
  existsb (fun r => negb (tool_success r)) results = false ->
  length (List.filter tool_success results) = length results.
Proof.
  induction results as [|r results IH]; [reflexivity|].
  cbn [existsb List.filter]. destruct (tool_success r); cbn [negb orb length].
  - intros H. rewrite (IH H). reflexivity.
  - discriminate.
Qed.

Lemma clamp_range (x : Q) : (0 <= Qmax 0 (Qmin 1 x) <= 1)%Q.
Proof.
  split; [apply Q.le_max_l|].
  apply Q.max_lub; [discriminate|apply Q.le_min_l].
Qed.

Lemma clamp_id (x : Q) : (0 <= x <= 1)%Q -> (Qmax 0 (Qmin 1 x) == x)%Q.
Proof.
  intros [H0 H1]. rewrite (Q.min_r 1 x) by exact H1.
  apply Q.max_r. exact H0.
Qed.

(** X23.  The confidence an agent reports always lies in [[0, 1]].
    With a reasoning confidence of at most 1, a single failed tool keeps
    the report below 0.8; with a reasoning confidence in [[0, 1]] and
    tools that all succeeded it is the mean of that confidence and 1, so
    not below it; and when reasoning failed, which [reason_about_task]
    reports as confidence 0, the report is at most one half, below the
    default threshold of 0.75. *)
Theorem self_report_confidence_bounds :
  forall (reasoning : Reasoning) (tool_results : list ToolResult),
    let c := reasoning_confidence reasoning in
    let r := self_report_confidence reasoning tool_results in
    (0 <= r <= 1)%Q
    /\ ((c <= 1)%Q ->
        existsb (fun t => negb (tool_success t)) tool_results = true ->
        (r < 8 # 10)%Q)
    /\ ((0 <= c <= 1)%Q ->
        existsb (fun t => negb (tool_success t)) tool_results = false ->
        (c <= r)%Q
        /\ (tool_results <> [] -> (r == (c + 1) / 2)%Q))
    /\ ((c == 0)%Q -> (r <= 1 # 2)%Q).
Proof.
  intros reasoning results c r. subst r. unfold self_report_confidence.
  fold c.
  split; [apply clamp_range|].
  destruct results as [|t results].
  { cbn [existsb]. split; [discriminate|]. split.
    - intros Hc _. split; [|congruence]. rewrite clamp_id by exact Hc.
      apply Qle_refl.
    - intros Hc. rewrite clamp_id by (rewrite Hc; split; discriminate).
      rewrite Hc. discriminate. }
  set (n := length (t :: results)).
  set (s := length (List.filter tool_success (t :: results))).
  assert (Hn : (0 < inject_Z (Z.of_nat n))%Q).
  { unfold Qlt. cbn. lia. }
  assert (Hs0 : (0 <= inject_Z (Z.of_nat s) / inject_Z (Z.of_nat n))%Q).
  { apply Qle_shift_div_l; [exact Hn|]. rewrite Qmult_0_l.
    unfold Qle. cbn. lia. }
  assert (Hs1 : (inject_Z (Z.of_nat s) / inject_Z (Z.of_nat n) <= 1)%Q).
  { apply Qle_shift_div_r; [exact Hn|]. rewrite Qmult_1_l.
    rewrite <- Zle_Qle. apply inj_le.
    apply (length_filter_le tool_success (t :: results)). }
  assert (Hlt : existsb (fun r => negb (tool_success r)) (t :: results)
                = true ->
                (inject_Z (Z.of_nat s) / inject_Z (Z.of_nat n) < 1)%Q).
  { intros Hfail. apply Qlt_shift_div_r; [exact Hn|]. rewrite Qmult_1_l.
    rewrite <- Zlt_Qlt. apply inj_lt.
    apply some_failure_fewer_successes, Hfail. }
  assert (Hall : existsb (fun r => negb (tool_success r)) (t :: results)
                 = false ->
                 (inject_Z (Z.of_nat s) / inject_Z (Z.of_nat n) == 1)%Q).
  { intros Hok. unfold s, n. rewrite (no_failure_all_successes _ Hok).
    apply Qmult_inv_r. intros H0. fold n in H0. rewrite H0 in Hn.
    apply (Qlt_irrefl 0), Hn. }
  set (rate := (inject_Z (Z.of_nat s) / inject_Z (Z.of_nat n))%Q) in *.
  clearbody rate c. unfold Qdiv. change (/ 2)%Q with (1 # 2)%Q.
  split; [|split].
  - intros Hc Hfail. rewrite Hfail. specialize (Hlt Hfail).
    apply Q.max_lub_lt; [reflexivity|].
    eapply Qle_lt_trans; [apply Q.le_min_r|]. lra.
  - intros Hc Hok. rewrite Hok. specialize (Hall Hok).
    assert (Hmean : (0 <= (c + rate) * (1 # 2) <= 1)%Q) by (split; lra).
    rewrite clamp_id by exact Hmean.
    split; [lra|]. intros _. rewrite Hall. reflexivity.
  - intros Hc.
    assert (Hhalf : ((c + rate) * (1 # 2) <= 1 # 2)%Q) by lra.
    apply Q.max_lub; [discriminate|].
    eapply Qle_trans; [apply Q.le_min_r|].
    destruct (existsb (fun r => negb (tool_success r)) (t :: results)); lra.
Qed.

End ToolSpec.
